(** * Baasix SDK: credential lifecycle, request pipeline, realtime registry

    A shallow embedding of [src/client.ts], [src/modules/auth.ts],
    [src/storage/memoryStorage.ts] and [src/modules/realtime.ts].

    - Asynchronous code is written in a small free monad [Prog] whose
      constructors are the operations at which the TypeScript suspends
      or touches the outside world (storage, clock, network, registered
      notifications).  [exec] runs one such program to completion against
      a scripted network; the refresh coordinator is additionally stepped
      one suspension at a time by an explicit scheduler.
    - The realtime module is synchronous: its methods are functions on an
      explicit state record that contains the socket's listener table and
      the log of everything emitted. *)

From Stdlib Require Import Ascii String ZArith Lia.
From stdpp Require Import gmap strings list pretty.

(** ** JavaScript values used by the client *)

Module Js.

(** Truthiness of a [string | null | undefined]. *)
Definition truthy (v : option string) : bool :=
  match v with
  | Some s => negb (String.eqb s EmptyString)
  | None => false
  end.

(** Truthiness of a [number | undefined]. *)
Definition truthy_num (v : option Z) : bool :=
  match v with
  | Some n => negb (n =? 0)%Z
  | None => false
  end.

(** [a || b] on optional strings. *)
Definition or_else (a b : option string) : option string :=
  if truthy a then a else b.

Definition digit_of (a : ascii) : option Z :=
  let n := nat_of_ascii a in
  if (48 <=? n)%nat && (n <=? 57)%nat then Some (Z.of_nat (n - 48)) else None.

Definition is_space (a : ascii) : bool :=
  let n := nat_of_ascii a in
  (n =? 32)%nat || ((9 <=? n)%nat && (n <=? 13)%nat).

Fixpoint skip_spaces (s : string) : string :=
  match s with
  | String a s' => if is_space a then skip_spaces s' else s
  | EmptyString => s
  end.

(** The digits of [s] up to the first character that is not one;
    [None] when there is no digit at all. *)
Fixpoint parse_digits (s : string) (acc : option Z) : option Z :=
  match s with
  | String a s' =>
      match digit_of a with
      | Some d => parse_digits s' (Some (10 * default 0 acc + d))%Z
      | None => acc
      end
  | EmptyString => acc
  end.

(** [parseInt(s, 10)]; [None] stands for [NaN]. *)
Definition parseInt (s : string) : option Z :=
  match skip_spaces s with
  | String "-"%char s' => Z.opp <$> parse_digits s' None
  | String "+"%char s' => parse_digits s' None
  | s' => parse_digits s' None
  end.

(** [Number.isSafeInteger(n)]: the integers a JavaScript number holds
    exactly.  A sum or a product of safe integers that is itself safe
    is computed exactly. *)
Definition safe_integer (n : Z) : Prop := (- 2 ^ 53 < n < 2 ^ 53)%Z.

(** [n.toString()] for a safe integer: its decimal digits.  Beyond the
    safe integers a JavaScript number is rounded, and from 1e21 on it is
    printed with an exponent: what is proved of a printed number is
    proved of a safe one. *)
Definition toString (n : Z) : string := pretty n.

(** What a [throw] can carry in this code. *)
Inductive Error : Type :=
| BaasixError (message : string) (status : Z) (code : option string)
              (details : option (list string))
| AbortError
| OtherError (message : string).

(** The [TypeError] of a property read on [null]. *)
Definition TypeError : Error :=
  OtherError "Cannot read properties of null".

End Js.
Export Js.

(** ** Credential store: [MemoryStorageAdapter] and [STORAGE_KEYS] *)

Module Storage.

Definition ACCESS_TOKEN : string := "baasix_access_token".
Definition REFRESH_TOKEN : string := "baasix_refresh_token".
Definition TOKEN_EXPIRY : string := "baasix_token_expiry".
Definition USER : string := "baasix_user".
Definition TENANT : string := "baasix_tenant".

Definition get (key : string) (m : gmap string string) : option string :=
  m !! key.
Definition set (key value : string) (m : gmap string string)
  : gmap string string := <[key := value]> m.
Definition remove (key : string) (m : gmap string string)
  : gmap string string := delete key m.

(** The four names that make up the stored Token Pair and tenant. *)
Definition credential_keys : list string :=
  [ACCESS_TOKEN; REFRESH_TOKEN; TOKEN_EXPIRY; TENANT].

End Storage.

(** ** HTTP data *)

Record Json : Type := {
  j_token : string;
  j_refreshToken : option string;
  j_expiresIn : option Z;
  j_message : option string;
  j_error : option (option string * option string);  (* error: { message?, code? } *)
  j_details : option (list string)
}.

(** What [response.json()] resolves to: the body can be the JSON text
    [null], on which every property access throws a [TypeError]. *)
Inductive JsonValue : Type :=
| JNull
| JObject (j : Json).

Record Response : Type := {
  status : Z;
  statusText : string;
  json : option JsonValue     (* [None]: [response.json()] rejects *)
}.

Definition ok (r : Response) : bool :=
  (200 <=? status r)%Z && (status r <=? 299)%Z.

Record AuthTokens : Type := {
  t_accessToken : string;
  t_refreshToken : option string;
  t_expiresIn : option Z;
  t_expiresAt : option Z
}.

Inductive AuthMode : Type := Jwt | Cookie.

Definition is_jwt (m : AuthMode) : bool :=
  match m with Jwt => true | Cookie => false end.

(** The [signal] of a fetch: none, the request's own [AbortController]
    (given by the instant at which its timer aborts it), or a signal the
    caller passed in [options]. *)
Inductive Signal : Type :=
| SigNone
| SigTimeout (deadline : Z)
| SigCaller.

Inductive ReqBody : Type :=
| NoBody
| RefreshTokenBody (refreshToken : option string)  (* JSON.stringify({ refreshToken }) *)
| TextBody (s : string).

Record FetchInit : Type := {
  f_method : string;
  f_headers : gmap string string;
  f_body : ReqBody;
  f_credentials : string;
  f_signal : Signal
}.

(** Which [fetch(...)] of [client.ts] issued a network call. *)
Inductive CallSite : Type :=
| RefreshEndpoint    (* refreshToken, line 123 *)
| Original           (* request, line 256 *)
| Retry.             (* request, line 274 *)

Inductive Event : Type :=
| EvRefreshBody                      (* the body of refreshToken starts *)
| EvFetch (site : CallSite) (url : string) (init : FetchInit)
| EvResponse (site : CallSite) (status : Z)  (* a response came back *)
| EvCancelled (site : CallSite)      (* the in-flight fetch was aborted *)
| EvTokenRefresh (t : AuthTokens)    (* config.onTokenRefresh(tokens) *)
| EvAuthError                        (* config.onAuthError() *)
| EvAuthStateChange (event : string). (* onAuthStateChange(event, null) *)

Global Instance CallSite_eq_dec : EqDecision CallSite.
Proof. solve_decision. Defined.

(** ** The monad of asynchronous client code *)

Inductive Prog (A : Type) : Type :=
| Ret (a : A)
| Throw (e : Error)
| StorageGet (key : string) (k : option string -> Prog A)
| StorageSet (key value : string) (k : Prog A)
| StorageRemove (key : string) (k : Prog A)
| DateNow (k : Z -> Prog A)
| Emit (ev : Event) (k : Prog A)
| Await (k : Prog A)
| Fetch (site : CallSite) (url : string) (init : FetchInit)
        (k : Error + Response -> Prog A).

Arguments Ret {A} a.
Arguments Throw {A} e.
Arguments StorageGet {A} key k.
Arguments StorageSet {A} key value k.
Arguments StorageRemove {A} key k.
Arguments DateNow {A} k.
Arguments Emit {A} ev k.
Arguments Await {A} k.
Arguments Fetch {A} site url init k.

Fixpoint bind {A B : Type} (p : Prog A) (f : A -> Prog B) : Prog B :=
  match p with
  | Ret a => f a
  | Throw e => Throw e
  | StorageGet key k => StorageGet key (fun v => bind (k v) f)
  | StorageSet key value k => StorageSet key value (bind k f)
  | StorageRemove key k => StorageRemove key (bind k f)
  | DateNow k => DateNow (fun t => bind (k t) f)
  | Emit ev k => Emit ev (bind k f)
  | Await k => Await (bind k f)
  | Fetch site url init k => Fetch site url init (fun r => bind (k r) f)
  end.

(** [try { p } catch (e) { h e }] *)
Fixpoint catch {A : Type} (p : Prog A) (h : Error -> Prog A) : Prog A :=
  match p with
  | Ret a => Ret a
  | Throw e => h e
  | StorageGet key k => StorageGet key (fun v => catch (k v) h)
  | StorageSet key value k => StorageSet key value (catch k h)
  | StorageRemove key k => StorageRemove key (catch k h)
  | DateNow k => DateNow (fun t => catch (k t) h)
  | Emit ev k => Emit ev (catch k h)
  | Await k => Await (catch k h)
  | Fetch site url init k => Fetch site url init (fun r => catch (k r) h)
  end.

Declare Scope prog_scope.
Delimit Scope prog_scope with prog.
Notation "'let*' x ':=' p 'in' q" := (bind p (fun x => q))
  (at level 10, x name, p at level 100, q at level 200,
   format "'[v' 'let*'  x  ':='  p  'in' '/' q ']'") : prog_scope.
Local Open Scope prog_scope.

(** [await e] for an operation [e] that completes on its own. *)
Definition await {A : Type} (p : Prog A) : Prog A :=
  let* x := p in Await (Ret x).

Definition storage_get (key : string) : Prog (option string) :=
  StorageGet key Ret.
Definition storage_set (key value : string) : Prog unit :=
  StorageSet key value (Ret tt).
Definition storage_remove (key : string) : Prog unit :=
  StorageRemove key (Ret tt).
Definition date_now : Prog Z := DateNow Ret.
Definition emit (ev : Event) : Prog unit := Emit ev (Ret tt).
Definition fetch (site : CallSite) (url : string) (init : FetchInit)
  : Prog Response :=
  Fetch site url init
    (fun r => match r with inl e => Throw e | inr resp => Ret resp end).
Definition when (b : bool) (p : Prog unit) : Prog unit :=
  if b then p else Ret tt.

(** [await response.json()] *)
Definition read_json (r : Response) : Prog JsonValue :=
  Await (match json r with
         | Some j => Ret j
         | None => Throw (OtherError "Unexpected token in JSON")
         end).

(** ** [HttpClient] *)

Record HttpClientConfig : Type := {
  baseUrl : string;
  authMode : AuthMode;
  timeout : Z;
  autoRefresh : bool;
  credentials : string;
  headers : gmap string string;
  token : option string;
  tenantId : option string;
  onAuthError : bool;        (* is a handler registered? *)
  onTokenRefresh : bool
}.

(** [RequestOptions]: the SDK's own fields, then the part of [RequestInit]
    that [request] keeps in [fetchOptions] and spreads into each fetch.
    Query parameters only shape the URL and are left out. *)
Record RequestOptions : Type := {
  opt_timeout : option Z;
  opt_skipAuth : bool;
  opt_rawResponse : bool;
  opt_method : option string;
  opt_headers : option (gmap string string);
  opt_body : option ReqBody;
  opt_credentials : option string;
  opt_signal : bool          (* did the caller pass a signal of its own? *)
}.

Definition no_options : RequestOptions :=
  {| opt_timeout := None; opt_skipAuth := false; opt_rawResponse := false;
     opt_method := None; opt_headers := None; opt_body := None;
     opt_credentials := None; opt_signal := false |}.

(** What [request] resolves to. *)
Inductive Value : Type :=
| VResponse (r : Response)     (* rawResponse *)
| VEmptyObject                 (* 204 *)
| VNull                        (* a body that is [null] *)
| VData (j : Json).

(** [return await response.json()] *)
Definition parsed (v : JsonValue) : Value :=
  match v with
  | JNull => VNull
  | JObject j => VData j
  end.

Module Client.
Import Storage.

Section WithConfig.

Variable config : HttpClientConfig.

(** Lines 56-72, for a call without [params], a base URL that is an
    origin ([https://host], no path of its own) and an absolute path made
    of characters [URL] leaves as they are: [new URL(path, base)] is then
    the base followed by the path.  A base that is not a URL makes
    [new URL] throw, and a path of the base is dropped by it; neither is
    followed here. *)
Definition buildUrl (path : string) : string := baseUrl config +:+ path.

(** Lines 77-90. *)
Definition getAccessToken : Prog (option string) :=
  if truthy (token config) then Ret (token config)
  else if negb (is_jwt (authMode config)) then Ret None
  else await (storage_get ACCESS_TOKEN).

(** Lines 95-102; a comparison with [NaN] is false. *)
Definition isTokenExpired : Prog bool :=
  let* expiry := await (storage_get TOKEN_EXPIRY) in
  if negb (truthy expiry) then Ret false
  else
    let expiryTime := expiry ≫= parseInt in
    let bufferTime := (60 * 1000)%Z in
    let* now := date_now in
    Ret (match expiryTime with
         | Some e => (e - bufferTime <=? now)%Z
         | None => false
         end).

(** Lines 113-167 without the [finally]: the body of the shared
    refresh. *)
Definition refresh_body : Prog AuthTokens :=
  let* _ := emit EvRefreshBody in
  let* refreshToken := await (storage_get REFRESH_TOKEN) in
  if negb (truthy refreshToken) && is_jwt (authMode config) then
    Throw (BaasixError "No refresh token available" 401
             (Some "NO_REFRESH_TOKEN") None)
  else
    let* response :=
      fetch RefreshEndpoint (buildUrl "/auth/refresh")
        {| f_method := "POST";
           f_headers :=
             headers config ∪ {[ "Content-Type" := "application/json" ]};
           f_body := if is_jwt (authMode config)
                     then RefreshTokenBody refreshToken else NoBody;
           f_credentials := credentials config;
           f_signal := SigNone |} in
    if negb (ok response) then
      Throw (BaasixError "Token refresh failed" (status response)
               (Some "REFRESH_FAILED") None)
    else
      let* data := read_json response in
      match data with
      | JNull => Throw TypeError                  (* [data.token] *)
      | JObject data =>
      let* now := date_now in
      let tokens :=
        {| t_accessToken := j_token data;
           t_refreshToken := j_refreshToken data;
           t_expiresIn := j_expiresIn data;
           t_expiresAt :=
             if truthy_num (j_expiresIn data)
             then (fun e => now + e * 1000)%Z <$> j_expiresIn data
             else None |} in
      let* _ := await (storage_set ACCESS_TOKEN (t_accessToken tokens)) in
      let* _ :=
        match t_refreshToken tokens with
        | Some r => when (truthy (Some r))
                      (await (storage_set REFRESH_TOKEN r))
        | None => Ret tt
        end in
      let* _ :=
        match t_expiresAt tokens with
        | Some e => when (truthy_num (Some e))
                      (await (storage_set TOKEN_EXPIRY (toString e)))
        | None => Ret tt
        end in
      let* _ := when (onTokenRefresh config) (emit (EvTokenRefresh tokens)) in
      Ret tokens
      end.

(** [refreshToken()] called while [refreshPromise] is [null], as it is
    whenever a single request runs alone: the body runs, and the
    [finally] puts [refreshPromise] back to [null].  The coordinator
    under concurrent callers is [Coordinator] below. *)
Definition refreshToken : Prog AuthTokens := refresh_body.

(** Lines 175-211. *)
Definition buildHeaders (skipAuth : bool) : Prog (gmap string string) :=
  let headers0 : gmap string string :=
    headers config ∪ {[ "Content-Type" := "application/json" ]} in
  let headers1 : gmap string string :=
    match tenantId config with
    | Some t => if truthy (Some t) then <[ "X-Tenant-Id" := t ]> headers0
                else headers0
    | None => headers0
    end in
  if skipAuth then Ret headers1
  else if is_jwt (authMode config) then
    let* expired :=
      if autoRefresh config then await isTokenExpired else Ret false in
    let* _ :=
      when expired
        (catch (let* _ := await refreshToken in Ret tt)
               (fun _ => Ret tt)) in
    let* token := await getAccessToken in
    Ret (match token with
         | Some t => if truthy (Some t)
                     then <[ "Authorization" := "Bearer " +:+ t ]> headers1
                     else headers1
         | None => headers1
         end)
  else Ret headers1.

(** Lines 216-235.  [errorData] starts as the empty object, [None]
    here, and stays so when the body cannot be read; when the body is
    [null], reading [errorData.error] throws, outside the [try]. *)
Definition parseError (response : Response) : Prog Error :=
  let* errorData :=
    catch (let* j := read_json response in Ret (Some j))
          (fun _ => Ret None) in
  match errorData with
  | Some JNull => Throw TypeError
  | _ =>
      let errorData := match errorData with
                       | Some (JObject j) => Some j
                       | _ => None
                       end in
      let error := errorData ≫= j_error in
      let message :=
        or_else (or_else (or_else (error ≫= fst) (errorData ≫= j_message))
                         (Some (statusText response)))
                (Some "Request failed") in
      let code := error ≫= snd in
      let details := errorData ≫= j_details in
      Ret (BaasixError (default EmptyString message) (status response)
             code details)
  end.

(** [{ ...init, ...fetchOptions }]: every field the caller put in
    [options] replaces the one written before the spread. *)
Definition spread (fetchOptions : RequestOptions) (init : FetchInit)
  : FetchInit :=
  {| f_method := default (f_method init) (opt_method fetchOptions);
     f_headers := default (f_headers init) (opt_headers fetchOptions);
     f_body := default (f_body init) (opt_body fetchOptions);
     f_credentials :=
       default (f_credentials init) (opt_credentials fetchOptions);
     f_signal := if opt_signal fetchOptions then SigCaller
                 else f_signal init |}.

(** Lines 268-303: the branch taken on a 401, with its own
    [try]/[catch]. *)
Definition refresh_and_retry (method url : string)
           (options : RequestOptions) : Prog Value :=
  let rawResponse := opt_rawResponse options in
  catch
    (let* _ := await refreshToken in
     let* retryHeaders := await (buildHeaders false) in
     let* retryResponse :=
       fetch Retry url
         (spread options
            {| f_method := method;
               f_headers := default ∅ (opt_headers options) ∪ retryHeaders;
               f_body := NoBody;
               f_credentials := credentials config;
               f_signal := SigNone |}) in
     if negb (ok retryResponse) then
       let* e := await (parseError retryResponse) in Throw e
     else if rawResponse then Ret (VResponse retryResponse)
     else if (status retryResponse =? 204)%Z then Ret VEmptyObject
     else let* j := read_json retryResponse in Ret (parsed j))
    (fun refreshError =>
       let* _ := when (onAuthError config) (emit EvAuthError) in
       Throw refreshError).

(** Lines 319-331: the outer [catch].  Everything thrown in this model
    is an [Error], so the last [throw] (line 331) is not reached. *)
Definition surface (error : Error) : Prog Value :=
  match error with
  | BaasixError _ _ _ _ => Throw error
  | AbortError =>
      Throw (BaasixError "Request timeout" 408 (Some "TIMEOUT") None)
  | OtherError message =>
      Throw (BaasixError message 0 (Some "NETWORK_ERROR") None)
  end.

(** Lines 240-335.  The timer of line 253 is the instant
    [t0 + requestTimeout] carried by the controller's signal, for a
    delay [setTimeout] takes as it is given (from 1 to 2^31 - 1
    milliseconds); [clearTimeout] has nothing left to do in this
    model. *)
Definition request (method path : string) (options : RequestOptions)
  : Prog Value :=
  let skipAuth := opt_skipAuth options in
  let rawResponse := opt_rawResponse options in
  let url := buildUrl path in
  let* headers := await (buildHeaders skipAuth) in
  let requestTimeout :=
    match opt_timeout options with
    | Some t => if truthy_num (Some t) then t else timeout config
    | None => timeout config
    end in
  let* t0 := date_now in
  let controller_signal := SigTimeout (t0 + requestTimeout) in
  catch
    (let* response :=
       fetch Original url
         (spread options
            {| f_method := method;
               f_headers := default ∅ (opt_headers options) ∪ headers;
               f_body := NoBody;
               f_credentials := credentials config;
               f_signal := controller_signal |}) in
     if (status response =? 401)%Z && negb skipAuth && autoRefresh config
     then refresh_and_retry method url options
     else if negb (ok response) then
       let* e := await (parseError response) in Throw e
     else if rawResponse then Ret (VResponse response)
     else if (status response =? 204)%Z then Ret VEmptyObject
     else let* j := read_json response in Ret (parsed j))
    surface.

(** Line 340. *)
Definition get (path : string) (options : RequestOptions) : Prog Value :=
  request "GET" path options.

End WithConfig.
End Client.

(** ** Running a program alone: the world of one request *)

(** One scripted answer of the network: how long it takes, and the
    response ([None]: the transport fails and [fetch] rejects). *)
Record NetReply : Type := {
  delay : Z;
  reply : option Response
}.

Record World : Type := {
  store : gmap string string;   (* the credential store *)
  now : Z;                      (* Date.now() *)
  calls : nat;                  (* network calls issued so far *)
  log : list Event              (* what happened, oldest first *)
}.

Definition set_store (f : gmap string string -> gmap string string)
           (w : World) : World :=
  {| store := f (store w); now := now w; calls := calls w; log := log w |}.

Definition add_log (ev : Event) (w : World) : World :=
  {| store := store w; now := now w; calls := calls w;
     log := log w ++ [ev] |}.

Definition set_now (t : Z) (w : World) : World :=
  {| store := store w; now := t; calls := calls w; log := log w |}.

Definition count_call (w : World) : World :=
  {| store := store w; now := now w; calls := S (calls w); log := log w |}.

Section Exec.

(** The [n]-th network call is answered by [net n]. *)
Variable net : nat -> NetReply.

(** A fetch is issued, then either its answer arrives or, when the
    fetch carries the controller's signal and the timer fires first,
    it is cancelled and rejects with an [AbortError].  A fetch without
    that signal waits for its answer however long it takes. *)
Definition do_fetch (site : CallSite) (url : string) (init : FetchInit)
           (w : World) : (Error + Response) * World :=
  let r := net (calls w) in
  let w1 := count_call (add_log (EvFetch site url init) w) in
  let arrival := (now w + Z.max 0 (delay r))%Z in
  let answered :=
    match reply r with
    | Some resp =>
        (inr resp, add_log (EvResponse site (status resp)) (set_now arrival w1))
    | None => (inl (OtherError "Failed to fetch"), set_now arrival w1)
    end in
  match f_signal init with
  | SigTimeout deadline =>
      if (deadline <=? arrival)%Z
      then (inl AbortError,
            add_log (EvCancelled site) (set_now (Z.max (now w) deadline) w1))
      else answered
  | SigNone | SigCaller => answered
  end.

Fixpoint exec {A : Type} (p : Prog A) (w : World) : (Error + A) * World :=
  match p with
  | Ret a => (inr a, w)
  | Throw e => (inl e, w)
  | StorageGet key k => exec (k (Storage.get key (store w))) w
  | StorageSet key value k => exec k (set_store (Storage.set key value) w)
  | StorageRemove key k => exec k (set_store (Storage.remove key) w)
  | DateNow k => exec (k (now w)) w
  | Emit ev k => exec k (add_log ev w)
  | Await k => exec k w
  | Fetch site url init k =>
      let '(r, w') := do_fetch site url init w in exec (k r) w'
  end.

End Exec.

(** ** [AuthModule]: clearing the stored credentials *)

Module Auth.
Import Storage.

Section WithConfig.

Variable config : HttpClientConfig.

(** Lines 115-122 ([currentUser] is not part of the store). *)
Definition clearAuth : Prog unit :=
  let* _ := await (storage_remove ACCESS_TOKEN) in
  let* _ := await (storage_remove REFRESH_TOKEN) in
  let* _ := await (storage_remove TOKEN_EXPIRY) in
  let* _ := await (storage_remove USER) in
  let* _ := await (storage_remove TENANT) in
  Ret tt.

(** Lines 191-200. *)
Definition logout : Prog unit :=
  let* _ :=
    catch (let* _ := await (Client.get config "/auth/logout" no_options) in
           Ret tt)
          (fun _ => Ret tt) in
  let* _ := await clearAuth in
  emit (EvAuthStateChange "SIGNED_OUT").

End WithConfig.
End Auth.

(** ** Reading a log; the values the client computes *)

(** Events that only a refresh produces after its first one. *)
Definition refresh_ev (e : Event) : bool :=
  match e with
  | EvFetch RefreshEndpoint _ _ | EvResponse RefreshEndpoint _
  | EvTokenRefresh _ => true
  | _ => false
  end.

Definition is_refresh_start (e : Event) : bool :=
  match e with EvRefreshBody => true | _ => false end.

Definition is_fetch_at (site : CallSite) (e : Event) : bool :=
  match e with
  | EvFetch s _ _ => bool_decide (s = site)
  | _ => false
  end.

Definition is_auth_error (e : Event) : bool :=
  match e with EvAuthError => true | _ => false end.

Definition count (f : Event -> bool) (evs : list Event) : nat :=
  length (List.filter f evs).

(** Number of times the body of a refresh was started. *)
Definition num_refreshes : list Event -> nat := count is_refresh_start.
(** Number of network calls issued from a given call site. *)
Definition num_fetches (site : CallSite) : list Event -> nat :=
  count (is_fetch_at site).
(** Number of times the authentication-lost handler ran. *)
Definition num_auth_errors : list Event -> nat := count is_auth_error.

(** The bearer credential [getAccessToken] resolves against a store. *)
Definition resolve_token (config : HttpClientConfig)
           (st : gmap string string) : option string :=
  if truthy (token config) then token config
  else if negb (is_jwt (authMode config)) then None
  else st !! Storage.ACCESS_TOKEN.

(** The headers of lines 178-186: defaults, configured headers, tenant. *)
Definition base_headers (config : HttpClientConfig) : gmap string string :=
  let headers0 : gmap string string :=
    headers config ∪ {[ "Content-Type" := "application/json" ]} in
  match tenantId config with
  | Some t => if truthy (Some t) then <[ "X-Tenant-Id" := t ]> headers0
              else headers0
  | None => headers0
  end.

(** The headers of an authenticated call in header mode, given the
    store at the time the token is read. *)
Definition auth_headers (config : HttpClientConfig)
           (st : gmap string string) : gmap string string :=
  match resolve_token config st with
  | Some t => if truthy (Some t)
              then <[ "Authorization" := "Bearer " +:+ t ]> (base_headers config)
              else base_headers config
  | None => base_headers config
  end.

(** The check of [isTokenExpired] on a world. *)
Definition token_expired (w : World) : bool :=
  match store w !! Storage.TOKEN_EXPIRY with
  | Some s =>
      truthy (Some s) &&
      match parseInt s with
      | Some e => (e - 60 * 1000 <=? now w)%Z
      | None => false
      end
  | None => false
  end.

Definition handler_runs (config : HttpClientConfig) : nat :=
  if onAuthError config then 1 else 0.

(** What [buildHeaders({ skipAuth: false })] returns, given the store
    at the time the token is read. *)
Definition built_headers (config : HttpClientConfig)
           (st : gmap string string) : gmap string string :=
  if is_jwt (authMode config) then auth_headers config st
  else base_headers config.

(** Is the body of a response the JSON text [null]? *)
Definition null_body (r : Response) : bool :=
  match json r with
  | Some JNull => true
  | _ => false
  end.

Definition failed {A : Type} (r : Error + A) : Prop :=
  match r with inl _ => True | inr _ => False end.


(** The headers carried by the network calls issued from a call site. *)
Definition fetch_headers (site : CallSite) (evs : list Event)
  : list (gmap string string) :=
  omap (fun e => match e with
                 | EvFetch s _ init =>
                     if bool_decide (s = site) then Some (f_headers init)
                     else None
                 | _ => None
                 end) evs.

(** The signals carried by the network calls issued from a call site. *)
Definition fetch_signals (site : CallSite) (evs : list Event) : list Signal :=
  omap (fun e => match e with
                 | EvFetch s _ init =>
                     if bool_decide (s = site) then Some (f_signal init)
                     else None
                 | _ => None
                 end) evs.

Definition is_cancelled (e : Event) : bool :=
  match e with EvCancelled _ => true | _ => false end.

(** What [request] does up to the answer to its original attempt
    (lines 247-265): the headers are built, the timer is set and the
    call is made. *)
Definition original_attempt (config : HttpClientConfig)
           (method path : string) (options : RequestOptions)
  : Prog Response :=
  let* headers := await (Client.buildHeaders config (opt_skipAuth options)) in
  let requestTimeout :=
    match opt_timeout options with
    | Some t => if truthy_num (Some t) then t else timeout config
    | None => timeout config
    end in
  let* t0 := date_now in
  fetch Original (Client.buildUrl config path)
    (Client.spread options
       {| f_method := method;
          f_headers := default ∅ (opt_headers options) ∪ headers;
          f_body := NoBody;
          f_credentials := credentials config;
          f_signal := SigTimeout (t0 + requestTimeout) |}).

(** A failure as the outer [catch] of [request] hands it to the
    caller. *)
Definition surfaced (e : Error) : Error :=
  match e with
  | BaasixError _ _ _ _ => e
  | AbortError => BaasixError "Request timeout" 408 (Some "TIMEOUT") None
  | OtherError message => BaasixError message 0 (Some "NETWORK_ERROR") None
  end.

(** ** The refresh coordinator under concurrent callers

    JavaScript runs one piece of code at a time and switches only at an
    [await].  The state below holds [this.refreshPromise], every promise
    [refreshToken] has created with what its body is waiting for, which
    promise each call of [refreshToken()] was handed, and what each
    caller's own [await] produced.  A label is one scheduling step; the
    scheduler and the network are free to pick any label in any order.
    Stepping at every operation of [Prog] that suspends allows at least
    the interleavings of the real event loop. *)

Module Coordinator.

(** What the body of a refresh is suspended on. *)
Inductive Task : Type :=
| Resumable (k : Prog AuthTokens)                  (* an [await] that is ready to continue *)
| AwaitingNetwork (k : Error + Response -> Prog AuthTokens).

Inductive Promise : Type :=
| Pending (t : Task)
| Settled (o : Error + AuthTokens).

Record State : Type := {
  c_store : gmap string string;
  c_now : Z;
  refreshPromise : option nat;     (* [null], or the promise it points to *)
  promises : list Promise;         (* a promise is its index in this list *)
  handed : list nat;               (* the promise each call was handed, in call order *)
  delivered : list (nat * (Error + AuthTokens));  (* call, what its [await] produced *)
  c_log : list (nat * Event)       (* events, tagged with the promise whose body made them *)
}.

Definition with_store (f : gmap string string -> gmap string string)
           (s : State) : State :=
  {| c_store := f (c_store s); c_now := c_now s;
     refreshPromise := refreshPromise s; promises := promises s;
     handed := handed s; delivered := delivered s; c_log := c_log s |}.

Definition with_now (t : Z) (s : State) : State :=
  {| c_store := c_store s; c_now := t;
     refreshPromise := refreshPromise s; promises := promises s;
     handed := handed s; delivered := delivered s; c_log := c_log s |}.

Definition with_refreshPromise (r : option nat) (s : State) : State :=
  {| c_store := c_store s; c_now := c_now s;
     refreshPromise := r; promises := promises s;
     handed := handed s; delivered := delivered s; c_log := c_log s |}.

Definition with_promises (ps : list Promise) (s : State) : State :=
  {| c_store := c_store s; c_now := c_now s;
     refreshPromise := refreshPromise s; promises := ps;
     handed := handed s; delivered := delivered s; c_log := c_log s |}.

Definition hand (p : nat) (s : State) : State :=
  {| c_store := c_store s; c_now := c_now s;
     refreshPromise := refreshPromise s; promises := promises s;
     handed := handed s ++ [p]; delivered := delivered s; c_log := c_log s |}.

Definition deliver (call : nat) (o : Error + AuthTokens) (s : State) : State :=
  {| c_store := c_store s; c_now := c_now s;
     refreshPromise := refreshPromise s; promises := promises s;
     handed := handed s; delivered := delivered s ++ [(call, o)];
     c_log := c_log s |}.

Definition record (p : nat) (ev : Event) (s : State) : State :=
  {| c_store := c_store s; c_now := c_now s;
     refreshPromise := refreshPromise s; promises := promises s;
     handed := handed s; delivered := delivered s;
     c_log := c_log s ++ [(p, ev)] |}.

(** Run the body of promise [p] until it suspends or completes. *)
Fixpoint advance (p : nat) (k : Prog AuthTokens) (s : State)
  : Promise * State :=
  match k with
  | Ret a => (Settled (inr a), s)
  | Throw e => (Settled (inl e), s)
  | StorageGet key k' => advance p (k' (Storage.get key (c_store s))) s
  | StorageSet key value k' =>
      advance p k' (with_store (Storage.set key value) s)
  | StorageRemove key k' => advance p k' (with_store (Storage.remove key) s)
  | DateNow k' => advance p (k' (c_now s)) s
  | Emit ev k' => advance p k' (record p ev s)
  | Await k' => (Pending (Resumable k'), s)
  | Fetch site url init k' =>
      (Pending (AwaitingNetwork k'), record p (EvFetch site url init) s)
  end.

(** [finally { this.refreshPromise = null }] runs when the body is done. *)
Definition finally (pr : Promise) (s : State) : State :=
  match pr with
  | Settled _ => with_refreshPromise None s
  | Pending _ => s
  end.

Definition continue (p : nat) (k : Prog AuthTokens) (s : State) : State :=
  let '(pr, s1) := advance p k s in
  let s2 := finally pr s1 in
  with_promises (<[p := pr]> (promises s2)) s2.

Definition has_returned (call : nat) (s : State) : bool :=
  bool_decide (call ∈ (delivered s).*1).

Inductive Label : Type :=
| Call                                   (* someone calls [refreshToken()] *)
| Resume (p : nat)                       (* the body of [p] continues after an [await] *)
| Answer (p : nat) (r : Error + Response)  (* the fetch of [p]'s body completes *)
| Return (call : nat)                    (* a caller's [await] of what it was handed completes *)
| Tick (ms : Z)                          (* time passes *)
| Write (key value : string)             (* other code writes the store *)
| Erase (key : string).

Section WithConfig.

Variable config : HttpClientConfig.

(** Lines 107-170.  A call either returns the pending promise (109-111)
    or starts the body, which runs up to its first [await] before the
    promise it returns is assigned to [this.refreshPromise] (113, 167). *)
Definition refreshToken (s : State) : State :=
  match refreshPromise s with
  | Some p => hand p s
  | None =>
      let p := length (promises s) in
      let '(pr, s1) := advance p (Client.refresh_body config) s in
      let s2 := finally pr s1 in
      hand p (with_refreshPromise (Some p)
                (with_promises (promises s2 ++ [pr]) s2))
  end.

(** One scheduling step; a label that is not enabled changes nothing. *)
Definition step (l : Label) (s : State) : State :=
  match l with
  | Call => refreshToken s
  | Resume p =>
      match promises s !! p with
      | Some (Pending (Resumable k)) => continue p k s
      | _ => s
      end
  | Answer p r =>
      match promises s !! p with
      | Some (Pending (AwaitingNetwork k)) => continue p (k r) s
      | _ => s
      end
  | Return call =>
      match handed s !! call with
      | Some p =>
          match promises s !! p with
          | Some (Settled o) =>
              if has_returned call s then s else deliver call o s
          | _ => s
          end
      | None => s
      end
  | Tick ms => with_now (c_now s + Z.max 0 ms) s
  | Write key value => with_store (Storage.set key value) s
  | Erase key => with_store (Storage.remove key) s
  end.

Definition run (ls : list Label) (s : State) : State :=
  foldl (fun s l => step l s) s ls.

End WithConfig.

(** A client on which [refreshToken] was never called. *)
Definition initial (st : gmap string string) (t : Z) : State :=
  {| c_store := st; c_now := t; refreshPromise := None; promises := [];
     handed := []; delivered := []; c_log := [] |}.

Definition is_fetch_event (ev : Event) : bool :=
  match ev with EvFetch _ _ _ => true | _ => false end.

(** Network calls made by the body of promise [p]. *)
Definition is_fetch_of (p : nat) (e : nat * Event) : bool :=
  bool_decide (e.1 = p) && is_fetch_event e.2.

Definition fetches_of (p : nat) (log : list (nat * Event)) : nat :=
  length (List.filter (is_fetch_of p) log).

Definition is_fetch_entry (e : nat * Event) : bool := is_fetch_event e.2.

(** All network calls made so far. *)
Definition network_calls (s : State) : nat :=
  length (List.filter is_fetch_entry (c_log s)).

(** Does [p] perform at most [n] network calls, whatever it is answered?
    (What it emits itself must not pass for one.) *)
Inductive uses_at_most {A : Type} : nat -> Prog A -> Prop :=
| um_Ret n a : uses_at_most n (Ret a)
| um_Throw n e : uses_at_most n (Throw e)
| um_StorageGet n key k :
    (forall v, uses_at_most n (k v)) -> uses_at_most n (StorageGet key k)
| um_StorageSet n key value k :
    uses_at_most n k -> uses_at_most n (StorageSet key value k)
| um_StorageRemove n key k :
    uses_at_most n k -> uses_at_most n (StorageRemove key k)
| um_DateNow n k :
    (forall t, uses_at_most n (k t)) -> uses_at_most n (DateNow k)
| um_Emit n ev k :
    is_fetch_event ev = false -> uses_at_most n k -> uses_at_most n (Emit ev k)
| um_Await n k : uses_at_most n k -> uses_at_most n (Await k)
| um_Fetch n site url init k :
    (forall r, uses_at_most n (k r)) ->
    uses_at_most (S n) (Fetch site url init k).

(** What is left of that allowance for a suspended body. *)
Definition budget (n : nat) (t : Task) : Prop :=
  match t with
  | Resumable k => uses_at_most n k
  | AwaitingNetwork k => forall r, uses_at_most n (k r)
  end.

(** Does [p] come to its end within [n] suspensions, whatever it is
    answered? *)
Inductive settles_within {A : Type} : nat -> Prog A -> Prop :=
| sw_Ret n a : settles_within n (Ret a)
| sw_Throw n e : settles_within n (Throw e)
| sw_StorageGet n key k :
    (forall v, settles_within n (k v)) -> settles_within n (StorageGet key k)
| sw_StorageSet n key value k :
    settles_within n k -> settles_within n (StorageSet key value k)
| sw_StorageRemove n key k :
    settles_within n k -> settles_within n (StorageRemove key k)
| sw_DateNow n k :
    (forall t, settles_within n (k t)) -> settles_within n (DateNow k)
| sw_Emit n ev k : settles_within n k -> settles_within n (Emit ev k)
| sw_Await n k : settles_within n k -> settles_within (S n) (Await k)
| sw_Fetch n site url init k :
    (forall r, settles_within n (k r)) ->
    settles_within (S n) (Fetch site url init k).

(** A suspended body that is at its end within [n] further
    suspensions once it continues. *)
Definition lasts (n : nat) (t : Task) : Prop :=
  match t with
  | Resumable k => settles_within n k
  | AwaitingNetwork k => forall r, settles_within n (k r)
  end.

(** The suspensions of the body of a refresh after its first one: the
    network call, the reading of the answer and three writes to the
    store. *)
Definition suspensions : nat := 5.

(** The scheduler lets the body of promise [p] run to its end: it is
    resumed at every [await] and its network call is answered [r].  (A
    label that is not enabled changes nothing.) *)
Definition finish (p : nat) (r : Error + Response) : list Label :=
  mjoin (replicate (S suspensions) [Resume p; Answer p r]).

(** Every pending body is at its end within [suspensions]. *)
Definition bounded (s : State) : Prop :=
  forall q task, promises s !! q = Some (Pending task) ->
                 lasts suspensions task.

(** What holds of every state the coordinator can reach. *)
Record Inv (s : State) : Prop := {
  inv_pending :
    forall q task, promises s !! q = Some (Pending task) ->
                   refreshPromise s = Some q;
  inv_current :
    match refreshPromise s with
    | Some p =>
        exists task n,
          promises s !! p = Some (Pending task) /\ budget n task /\
          fetches_of p (c_log s) + n <= 1 /\
          network_calls s + n <= length (promises s)
    | None => network_calls s <= length (promises s)
    end;
  inv_fetches : forall q, fetches_of q (c_log s) <= 1;
  inv_fresh :
    forall q, length (promises s) <= q -> fetches_of q (c_log s) = 0;
  inv_handed :
    forall i p, handed s !! i = Some p -> p < length (promises s);
  inv_delivered :
    forall i o, (i, o) ∈ delivered s ->
                exists p, handed s !! i = Some p /\
                          promises s !! p = Some (Settled o)
}.

End Coordinator.

(** ** A JavaScript [Map] with string keys

    The entries of a [Map] are kept in insertion order; deleting a key
    empties its entry where it stands ([None] below), setting an existing
    key replaces the value in place, setting a new key appends.  That is
    what makes [forEach] see the deletions made while it runs. *)

Section JsMap.

Context {V : Type}.

Fixpoint jm_get (key : string) (m : list (option (string * V))) : option V :=
  match m with
  | [] => None
  | Some (k, v) :: m' => if decide (k = key) then Some v else jm_get key m'
  | None :: m' => jm_get key m'
  end.

Fixpoint jm_set (key : string) (v : V) (m : list (option (string * V)))
  : list (option (string * V)) :=
  match m with
  | [] => [Some (key, v)]
  | Some (k, v0) :: m' =>
      if decide (k = key) then Some (k, v) :: m'
      else Some (k, v0) :: jm_set key v m'
  | None :: m' => None :: jm_set key v m'
  end.

Definition jm_kill (key : string) (e : option (string * V))
  : option (string * V) :=
  match e with
  | Some (k, v) => if decide (k = key) then None else Some (k, v)
  | None => None
  end.

Definition jm_delete (key : string) (m : list (option (string * V)))
  : list (option (string * V)) := jm_kill key <$> m.

(** The entries that are not emptied, in insertion order. *)
Definition jm_entries (m : list (option (string * V))) : list (string * V) :=
  omap id m.

Definition jm_size (m : list (option (string * V))) : nat :=
  length (jm_entries m).

Definition jm_clear (m : list (option (string * V)))
  : list (option (string * V)) := (fun _ => None) <$> m.

End JsMap.

(** ** [RealtimeModule] *)

Module Realtime.

Inductive SubscriptionEvent : Type := create | update | delete.

Definition event_name (e : SubscriptionEvent) : string :=
  match e with
  | create => "create"
  | update => "update"
  | delete => "delete"
  end.

Record SubscriptionPayload : Type := {
  action : SubscriptionEvent;
  p_collection : string;
  data : string;
  timestamp : string
}.

(** What an application callback does when it is called, as far as this
    module can tell: it calls the module, and it may throw.
    [Unsubscribe c i] is a call of the function returned by the
    [subscribe(c, _)] that generated callback id [i];
    [CallSubscribe c i name body] is a call of [subscribe(c, callback)]
    that is given the id [i], for a callback that does [body] when it is
    called in its turn; the other acts are calls of [disconnect],
    [onConnectionChange], [subscribeToExecution] and of the function
    [subscribeToExecution] returns.  A body is a finite tree: a callback
    that subscribes a copy of itself for ever, so that the dispatch it
    runs in never ends, has no body here.  A call of [connect()] is not
    among the acts: it suspends at line 178 before it has touched the
    socket or a registry, so what it does comes after the dispatch. *)
#[warnings="-register-all"] Inductive Act : Type :=
| Unsubscribe (collection callbackId : string)
| CallSubscribe (collection callbackId name : string) (body : list Act)
| CallDisconnect
| CallOnConnectionChange (name : string)
| CallSubscribeToExecution (id name : string)
| CallUnsubscribeFromExecution (id name : string)
| ThrowError.

Record SubscriptionCallback : Type := {
  cb_name : string;
  cb_body : list Act
}.

(** [interface Subscription]. *)
Record Subscription : Type := {
  collection : string;
  callbacks : list (option (string * SubscriptionCallback))
}.

(** The listeners this module registers on the socket: the eight of
    [connect] (lines 192-235), and one per collection and event
    (line 433). *)
Inductive Listener : Type :=
| OnConnect
| OnDisconnect
| OnConnectError
| OnReconnect
| OnReconnectAttempt
| OnConnected
| OnWorkflowUpdate
| OnWorkflowComplete
| OnCollection (collection : string).

(** The socket.io [Socket]: [on] appends a listener, [off(event)] drops
    every listener of that event, an incoming event calls the listeners
    registered for it in registration order. *)
Record Socket : Type := {
  connected : bool;
  listeners : list (string * Listener)
}.

(** Everything observable from outside. *)
Inductive Output : Type :=
| Emitted (event collection : string)     (* socket.emit(event, { collection }) *)
| EmittedJoin (executionId : string)      (* socket.emit("workflow:execution:join", ...) *)
| Delivered (callbackId name : string) (payload : SubscriptionPayload)
| DeliveredWorkflow (name executionId : string)
| ConnectionChange (name : string) (connected : bool)
| TransportClosed                          (* socket.disconnect() *)
| Console (level : string).

Record State : Type := {
  socket : option Socket;
  socketClient : bool;
  subscriptions : list (option (string * Subscription));
  workflowCallbacks : list (option (string * list string));
  connectionCallbacks : list string;
  reconnecting : bool;
  connectionPromise : bool;        (* is a connection attempt outstanding? *)
  out : list Output
}.

Definition initial : State :=
  {| socket := None; socketClient := false; subscriptions := [];
     workflowCallbacks := []; connectionCallbacks := [];
     reconnecting := false; connectionPromise := false; out := [] |}.

Definition with_socket (x : option Socket) (s : State) : State :=
  {| socket := x; socketClient := socketClient s;
     subscriptions := subscriptions s;
     workflowCallbacks := workflowCallbacks s;
     connectionCallbacks := connectionCallbacks s;
     reconnecting := reconnecting s;
     connectionPromise := connectionPromise s; out := out s |}.

Definition with_subscriptions (x : list (option (string * Subscription)))
           (s : State) : State :=
  {| socket := socket s; socketClient := socketClient s;
     subscriptions := x;
     workflowCallbacks := workflowCallbacks s;
     connectionCallbacks := connectionCallbacks s;
     reconnecting := reconnecting s;
     connectionPromise := connectionPromise s; out := out s |}.

Definition with_workflowCallbacks (x : list (option (string * list string)))
           (s : State) : State :=
  {| socket := socket s; socketClient := socketClient s;
     subscriptions := subscriptions s;
     workflowCallbacks := x;
     connectionCallbacks := connectionCallbacks s;
     reconnecting := reconnecting s;
     connectionPromise := connectionPromise s; out := out s |}.

Definition with_connectionCallbacks (x : list string) (s : State) : State :=
  {| socket := socket s; socketClient := socketClient s;
     subscriptions := subscriptions s;
     workflowCallbacks := workflowCallbacks s;
     connectionCallbacks := x;
     reconnecting := reconnecting s;
     connectionPromise := connectionPromise s; out := out s |}.

Definition with_reconnecting (x : bool) (s : State) : State :=
  {| socket := socket s; socketClient := socketClient s;
     subscriptions := subscriptions s;
     workflowCallbacks := workflowCallbacks s;
     connectionCallbacks := connectionCallbacks s;
     reconnecting := x;
     connectionPromise := connectionPromise s; out := out s |}.

Definition with_connectionPromise (x : bool) (s : State) : State :=
  {| socket := socket s; socketClient := socketClient s;
     subscriptions := subscriptions s;
     workflowCallbacks := workflowCallbacks s;
     connectionCallbacks := connectionCallbacks s;
     reconnecting := reconnecting s;
     connectionPromise := x; out := out s |}.

Definition say (o : list Output) (s : State) : State :=
  {| socket := socket s; socketClient := socketClient s;
     subscriptions := subscriptions s;
     workflowCallbacks := workflowCallbacks s;
     connectionCallbacks := connectionCallbacks s;
     reconnecting := reconnecting s;
     connectionPromise := connectionPromise s; out := out s ++ o |}.

(** Line 271: [this.socket?.connected ?? false]. *)
Definition isConnected (s : State) : bool :=
  match socket s with
  | Some sock => connected sock
  | None => false
  end.

(** [socket.on(event, listener)] and [socket.off(event)]. *)
Definition socket_on (event : string) (l : Listener) (sock : Socket) : Socket :=
  {| connected := connected sock; listeners := listeners sock ++ [(event, l)] |}.

Definition socket_off (event : string) (sock : Socket) : Socket :=
  {| connected := connected sock;
     listeners := List.filter (fun el => negb (bool_decide (el.1 = event)))
                              (listeners sock) |}.

Definition set_connected (b : bool) (sock : Socket) : Socket :=
  {| connected := b; listeners := listeners sock |}.

Definition collection_event (collection : string) (e : SubscriptionEvent)
  : string := collection +:+ ":" +:+ event_name e.

(** Lines 292-294. *)
Definition notifyConnectionChange (connected : bool) (s : State) : State :=
  say ((fun name => ConnectionChange name connected)
         <$> connectionCallbacks s) s.

(** Lines 411-419.  The acknowledgment only ever reaches the console. *)
Definition subscribeOnServer (collection : string) (s : State) : State :=
  if isConnected s then say [Emitted "subscribe" collection] s else s.

(** Lines 421-425. *)
Definition unsubscribeOnServer (collection : string) (s : State) : State :=
  if isConnected s then say [Emitted "unsubscribe" collection] s else s.

(** Lines 427-437. *)
Definition setupCollectionListeners (collection : string) (s : State)
  : State :=
  match socket s with
  | None => s
  | Some sock =>
      with_socket
        (Some (foldl (fun sk e =>
                        socket_on (collection_event collection e)
                                  (OnCollection collection) sk)
                     sock [create; update; delete])) s
  end.

(** Lines 439-447. *)
Definition removeCollectionListeners (collection : string) (s : State)
  : State :=
  match socket s with
  | None => s
  | Some sock =>
      with_socket
        (Some (foldl (fun sk e => socket_off (collection_event collection e) sk)
                     sock [create; update; delete])) s
  end.

(** Lines 317-346.  [callbackId] stands for the identifier line 326
    makes up from the clock and a random number. *)
Definition subscribe (collection callbackId : string)
           (callback : SubscriptionCallback) (s : State) : State :=
  let s := if isConnected s then s else say [Console "warn"] s in
  let '(subscription, s) :=
    match jm_get collection (subscriptions s) with
    | Some subscription => (subscription, s)
    | None =>
        let subscription := {| collection := collection; callbacks := [] |} in
        let s := with_subscriptions
                   (jm_set collection subscription (subscriptions s)) s in
        let s := subscribeOnServer collection s in
        let s := setupCollectionListeners collection s in
        (subscription, s)
    end in
  with_subscriptions
    (jm_set collection
       {| collection := Realtime.collection subscription;
          callbacks := jm_set callbackId callback (callbacks subscription) |}
       (subscriptions s)) s.

(** Lines 348-360: the function [subscribe] returns. *)
Definition unsubscribe (collection callbackId : string) (s : State) : State :=
  match jm_get collection (subscriptions s) with
  | Some sub =>
      let sub' := {| collection := Realtime.collection sub;
                     callbacks := jm_delete callbackId (callbacks sub) |} in
      let s := with_subscriptions
                 (jm_set collection sub' (subscriptions s)) s in
      if (jm_size (callbacks sub') =? 0)%nat then
        let s := unsubscribeOnServer collection s in
        let s := removeCollectionListeners collection s in
        with_subscriptions (jm_delete collection (subscriptions s)) s
      else s
  | None => s
  end.

(** Lines 486-515; a [Set] keeps one copy of a callback. *)
Definition subscribeToExecution (id name : string) (s : State) : State :=
  let s := if isConnected s then say [EmittedJoin id] s else s in
  let callbacks := default [] (jm_get id (workflowCallbacks s)) in
  let callbacks := if bool_decide (name ∈ callbacks) then callbacks
                   else callbacks ++ [name] in
  with_workflowCallbacks (jm_set id callbacks (workflowCallbacks s)) s.

Definition unsubscribeFromExecution (id name : string) (s : State) : State :=
  match jm_get id (workflowCallbacks s) with
  | Some cbs =>
      let cbs := List.filter (fun n => negb (bool_decide (n = name))) cbs in
      if (length cbs =? 0)%nat
      then with_workflowCallbacks (jm_delete id (workflowCallbacks s)) s
      else with_workflowCallbacks (jm_set id cbs (workflowCallbacks s)) s
  | None => s
  end.

(** Lines 285-290. *)
Definition onConnectionChange (name : string) (s : State) : State :=
  with_connectionCallbacks
    (if bool_decide (name ∈ connectionCallbacks s) then connectionCallbacks s
     else connectionCallbacks s ++ [name]) s.

(** Lines 259-266. *)
Definition disconnect (s : State) : State :=
  let s := match socket s with
           | Some _ => with_socket None (say [TransportClosed] s)
           | None => s
           end in
  let s := with_subscriptions (jm_clear (subscriptions s)) s in
  with_workflowCallbacks (jm_clear (workflowCallbacks s)) s.

(** One act of a callback. *)
Definition perform (a : Act) (s : State) : State :=
  match a with
  | Unsubscribe c i => unsubscribe c i s
  | CallSubscribe c i name body =>
      subscribe c i {| cb_name := name; cb_body := body |} s
  | CallDisconnect => disconnect s
  | CallOnConnectionChange name => onConnectionChange name s
  | CallSubscribeToExecution id name => subscribeToExecution id name s
  | CallUnsubscribeFromExecution id name => unsubscribeFromExecution id name s
  | ThrowError => s
  end.

(** [subscription.callbacks.forEach(...)], line 452, walks one [Map]
    object: the one the record of the collection held when the event
    arrived.  The registry holds that object as long as the record has
    not been deleted: [None] below.  A handle that empties the map
    deletes the record (line 357) and [disconnect()] clears the registry
    (line 264); from then on nothing reaches the object any more (a
    handle looks the record up by the name of the collection, lines
    349-350, and a later [subscribe] makes a new [Map], line 333), so it
    keeps the entries it has then: [Some m]. *)
Definition Walked : Type := option (list (option (string * SubscriptionCallback))).

(** The entries of the walked map. *)
Definition current (c : string) (wk : Walked) (s : State)
  : list (option (string * SubscriptionCallback)) :=
  match wk with
  | Some m => m
  | None =>
      match jm_get c (subscriptions s) with
      | Some sub => callbacks sub
      | None => []
      end
  end.

(** The walked map after act [a], done in state [s]. *)
Definition walked_after (c : string) (a : Act) (s : State) (wk : Walked)
  : Walked :=
  match wk with
  | Some m => Some m
  | None =>
      match a with
      | Unsubscribe c' i =>
          if decide (c' = c) then
            let m := jm_delete i (current c None s) in
            if (jm_size m =? 0)%nat then Some m else None
          else None
      | CallDisconnect => Some (current c None s)
      | _ => None
      end
  end.

(** Run the body of a callback of collection [c]; the flag says whether
    it threw. *)
Fixpoint run_acts (c : string) (acts : list Act) (wk : Walked) (s : State)
  : State * Walked * bool :=
  match acts with
  | [] => (s, wk, false)
  | ThrowError :: _ => (s, wk, true)
  | a :: rest => run_acts c rest (walked_after c a s wk) (perform a s)
  end.

(** Lines 453-457: one callback, inside its [try]/[catch]. *)
Definition invoke (c callbackId : string) (callback : SubscriptionCallback)
           (payload : SubscriptionPayload) (wk : Walked) (s : State)
  : State * Walked :=
  let s := say [Delivered callbackId (cb_name callback) payload] s in
  let '(s, wk, threw) := run_acts c (cb_body callback) wk s in
  (if threw then say [Console "error"] s else s, wk).

(** The calls of [subscribe] a body can make, those of the callbacks it
    subscribes included. *)
Fixpoint act_weight (a : Act) : nat :=
  match a with
  | CallSubscribe _ _ _ body =>
      S ((fix sum (l : list Act) : nat :=
            match l with
            | [] => 0
            | a :: l => act_weight a + sum l
            end) body)
  | _ => 0
  end.

Definition body_weight (body : list Act) : nat :=
  foldr (fun a n => act_weight a + n) 0 body.

(** One for every entry of a map, emptied or not, and one for every call
    of [subscribe] its callbacks can make: no walk visits more entries
    than that. *)
Definition entry_weight (e : option (string * SubscriptionCallback)) : nat :=
  match e with
  | Some (_, cb) => S (body_weight (cb_body cb))
  | None => 1
  end.

Definition map_weight (m : list (option (string * SubscriptionCallback)))
  : nat := foldr (fun e n => entry_weight e + n) 0 m.

Definition walk_fuel (m : list (option (string * SubscriptionCallback)))
  : nat := S (map_weight m).

(** [forEach], line 452: the entries are visited by position; an entry
    emptied before its turn is passed over, an entry added during the
    walk is visited in its turn; the walk ends at the end of the map.
    The map is read again at every step because the callbacks can change
    it.  [fuel] bounds the number of steps. *)
Fixpoint forEach_from (fuel i : nat) (c : string)
         (payload : SubscriptionPayload) (wk : Walked) (s : State) : State :=
  match fuel with
  | 0 => s
  | S fuel' =>
      match current c wk s !! i with
      | None => s
      | Some None => forEach_from fuel' (S i) c payload wk s
      | Some (Some (callbackId, callback)) =>
          let '(s, wk) := invoke c callbackId callback payload wk s in
          forEach_from fuel' (S i) c payload wk s
      end
  end.

(** Lines 449-460. *)
Definition handleCollectionEvent (collection : string)
           (payload : SubscriptionPayload) (s : State) : State :=
  match jm_get collection (subscriptions s) with
  | Some subscription =>
      forEach_from (walk_fuel (callbacks subscription)) 0 collection payload
                   None s
  | None => s
  end.

(** Lines 462-467. *)
Definition resubscribeAll (s : State) : State :=
  foldl (fun s e => setupCollectionListeners e.1 (subscribeOnServer e.1 s))
        s (jm_entries (subscriptions s)).

(** Lines 517-529.  A workflow callback is known by its name only: that
    it was called is recorded, what it does when it is called is not. *)
Definition handleWorkflowUpdate (executionId : string) (s : State) : State :=
  match jm_get executionId (workflowCallbacks s) with
  | Some callbacks =>
      say ((fun name => DeliveredWorkflow name executionId) <$> callbacks) s
  | None => s
  end.

(** Lines 163-249, up to the point where the socket has been created,
    its eight listeners registered and [socket.connect()] called; the
    promise settles when the transport reports back.  The code creates
    the socket after the [await] of line 178; here that is one step with
    the checks of lines 165-174, so nothing happens to the module in
    between. *)
Definition connect (s : State) : State :=
  if connectionPromise s then s
  else if isConnected s then s
  else if negb (socketClient s) then s        (* ensureSocketClient throws *)
  else
    with_connectionPromise true
      (with_socket
         (Some {| connected := false;
                  listeners :=
                    [("connect", OnConnect); ("disconnect", OnDisconnect);
                     ("connect_error", OnConnectError);
                     ("reconnect", OnReconnect);
                     ("reconnect_attempt", OnReconnectAttempt);
                     ("connected", OnConnected);
                     ("workflow:execution:update", OnWorkflowUpdate);
                     ("workflow:execution:complete", OnWorkflowComplete)] |})
         s).

(** What comes with an incoming event. *)
Inductive Arg : Type :=
| NoArg
| WithPayload (payload : SubscriptionPayload)
| WithExecution (executionId : string).

(** The bodies of the listeners, lines 192-235 and 433-435. *)
Definition listener_body (l : Listener) (arg : Arg) (s : State) : State :=
  match l with
  | OnConnect =>
      let s := say [Console "log"] s in
      let s := with_reconnecting false s in
      let s := notifyConnectionChange true s in
      with_connectionPromise false s               (* resolve() *)
  | OnDisconnect =>
      let s := say [Console "log"] s in
      notifyConnectionChange false s
  | OnConnectError =>
      let s := say [Console "error"] s in
      if reconnecting s then s
      else with_connectionPromise false s          (* reject(error) *)
  | OnReconnect =>
      let s := say [Console "log"] s in
      let s := with_reconnecting false s in
      let s := resubscribeAll s in
      notifyConnectionChange true s
  | OnReconnectAttempt => with_reconnecting true s
  | OnConnected => say [Console "log"] s
  | OnWorkflowUpdate | OnWorkflowComplete =>
      match arg with
      | WithExecution id => handleWorkflowUpdate id s
      | _ => s
      end
  | OnCollection collection =>
      match arg with
      | WithPayload payload => handleCollectionEvent collection payload s
      | _ => s
      end
  end.

(** The transport reports [event] to the socket.  The socket's own flag
    follows the transport (up on connect and reconnect, down on
    disconnect); then the listeners registered for [event] when it
    arrives are called in order.  Which events a transport reports, and
    in which order, is not decided here: [Receive] takes any. *)
Definition receive (event : string) (arg : Arg) (s : State) : State :=
  match socket s with
  | None => s
  | Some sock =>
      let sock :=
        if bool_decide (event = "connect") || bool_decide (event = "reconnect")
        then set_connected true sock
        else if bool_decide (event = "disconnect")
             then set_connected false sock
             else sock in
      let s := with_socket (Some sock) s in
      foldl (fun s el =>
               if bool_decide (el.1 = event) then listener_body el.2 arg s
               else s)
            s (listeners sock)
  end.

(** What the application and the transport can do to the module. *)
Inductive Op : Type :=
| SetSocketClient
| Connect
| Disconnect
| Subscribe (collection callbackId : string) (callback : SubscriptionCallback)
| CallHandle (collection callbackId : string)
| OnConnectionChange (name : string)
| SubscribeToExecution (id name : string)
| UnsubscribeFromExecution (id name : string)
| Receive (event : string) (arg : Arg).

Definition with_socketClient (s : State) : State :=
  {| socket := socket s; socketClient := true;
     subscriptions := subscriptions s;
     workflowCallbacks := workflowCallbacks s;
     connectionCallbacks := connectionCallbacks s;
     reconnecting := reconnecting s;
     connectionPromise := connectionPromise s; out := out s |}.

Definition apply_op (op : Op) (s : State) : State :=
  match op with
  | SetSocketClient => with_socketClient s
  | Connect => connect s
  | Disconnect => disconnect s
  | Subscribe c i cb => subscribe c i cb s
  | CallHandle c i => unsubscribe c i s
  | OnConnectionChange name => onConnectionChange name s
  | SubscribeToExecution id name => subscribeToExecution id name s
  | UnsubscribeFromExecution id name => unsubscribeFromExecution id name s
  | Receive event arg => receive event arg s
  end.

Definition run (ops : list Op) (s : State) : State :=
  foldl (fun s op => apply_op op s) s ops.

(** *** Reading a state *)

(** The subscribe and unsubscribe intents sent to the server. *)
Definition messages (o : list Output) : list (string * string) :=
  omap (fun x => match x with
                 | Emitted event collection => Some (event, collection)
                 | _ => None
                 end) o.

(** The callback ids an event was delivered to, one per delivery. *)
Definition deliveries (o : list Output) : list string :=
  omap (fun x => match x with
                 | Delivered callbackId _ _ => Some callbackId
                 | _ => None
                 end) o.

(** The three transport listeners of a collection. *)
Definition collection_listeners (c : string) : list (string * Listener) :=
  (fun e => (collection_event c e, OnCollection c)) <$> [create; update; delete].

Definition is_listener_of (c : string) (el : string * Listener) : bool :=
  bool_decide (el.1 ∈ collection_event c <$> [create; update; delete]).

(** A socket with the listeners of [c] attached, or detached. *)
Definition attached (c : string) (sock : option Socket) : option Socket :=
  (fun sk => {| connected := connected sk;
                listeners := listeners sk ++ collection_listeners c |})
    <$> sock.

Definition detached (c : string) (sock : option Socket) : option Socket :=
  (fun sk => {| connected := connected sk;
                listeners := List.filter (fun el => negb (is_listener_of c el))
                                         (listeners sk) |})
    <$> sock.

(** *** A dispatch, read off the map it walks *)

(** What an act does to the walked map; [linked] says whether the
    registry still holds that map. *)
Definition map_act (c : string) (a : Act)
           (ml : list (option (string * SubscriptionCallback)) * bool)
  : list (option (string * SubscriptionCallback)) * bool :=
  if ml.2 then
    match a with
    | Unsubscribe c' i =>
        if decide (c' = c) then
          (jm_delete i ml.1, negb (jm_size (jm_delete i ml.1) =? 0)%nat)
        else ml
    | CallSubscribe c' i name body =>
        if decide (c' = c)
        then (jm_set i {| cb_name := name; cb_body := body |} ml.1, true)
        else ml
    | CallDisconnect => (ml.1, false)
    | _ => ml
    end
  else ml.

Fixpoint map_acts (c : string) (acts : list Act)
         (ml : list (option (string * SubscriptionCallback)) * bool)
  : list (option (string * SubscriptionCallback)) * bool :=
  match acts with
  | [] => ml
  | ThrowError :: _ => ml
  | a :: rest => map_acts c rest (map_act c a ml)
  end.

(** [walk c i m linked called]: going through map [m] from position [i]
    to its end calls [called], in that order.  An emptied entry is
    passed over; an entry that is there when its turn comes is called,
    and what its body does to the map counts for the positions after
    it. *)
Inductive walk (c : string)
  : nat -> list (option (string * SubscriptionCallback)) -> bool ->
    list (string * SubscriptionCallback) -> Prop :=
| walk_end i m linked : m !! i = None -> walk c i m linked []
| walk_pass i m linked called :
    m !! i = Some None ->
    walk c (S i) m linked called -> walk c i m linked called
| walk_call i m linked callbackId callback called :
    m !! i = Some (Some (callbackId, callback)) ->
    walk c (S i) (map_acts c (cb_body callback) (m, linked)).1
                 (map_acts c (cb_body callback) (m, linked)).2 called ->
    walk c i m linked ((callbackId, callback) :: called).

(** The walked map and the registry agree with a map [ml.1] that is
    linked to the registry or not ([ml.2]). *)
Definition sim (c : string) (s : State) (wk : Walked)
           (ml : list (option (string * SubscriptionCallback)) * bool) : Prop :=
  current c wk s = ml.1
  /\ (ml.2 = true <-> wk = None)
  /\ (wk = None -> is_Some (jm_get c (subscriptions s))).

(** The acts of a body that are reached: those before it throws. *)
Fixpoint reached (acts : list Act) : list Act :=
  match acts with
  | [] => []
  | ThrowError :: _ => []
  | a :: rest => a :: reached rest
  end.

(** An act of the callback registered under [i] in collection [c] that
    neither calls the handle of another callback of [c] nor subscribes
    to [c]. *)
Definition leaves_the_others (c i : string) (a : Act) : Prop :=
  match a with
  | Unsubscribe c' t => c' = c -> t = i
  | CallSubscribe c' _ _ _ => c' <> c
  | _ => True
  end.

(** Is a callback registered under this identifier in this collection? *)
Definition registered (c i : string) (s : State)
  : option SubscriptionCallback :=
  jm_get c (subscriptions s) ≫= fun sub => jm_get i (callbacks sub).

(** The listeners that an incoming [event] reaches. *)
Definition reached_by (event : string) (sock : Socket) : list Listener :=
  (List.filter (fun el => bool_decide (el.1 = event)) (listeners sock)).*2.

(** An act that does not subscribe under an identifier ruled out by
    [allowed], and neither do the callbacks it subscribes. *)
Fixpoint act_allowed (allowed : string -> string -> Prop) (a : Act) : Prop :=
  match a with
  | CallSubscribe c i _ body =>
      allowed c i /\
      (fix all (l : list Act) : Prop :=
         match l with
         | [] => True
         | a :: l => act_allowed allowed a /\ all l
         end) body
  | _ => True
  end.

Definition body_allowed (allowed : string -> string -> Prop)
           (body : list Act) : Prop := Forall (act_allowed allowed) body.

(** An operation that subscribes only under an identifier [top] lets
    through, with a callback that subscribes only under identifiers
    [nested] lets through. *)
Definition op_meets (top nested : string -> string -> Prop) (op : Op) : Prop :=
  match op with
  | Subscribe c i cb => top c i /\ body_allowed nested (cb_body cb)
  | _ => True
  end.

(** An operation that does not subscribe under an identifier ruled out
    by [allowed], by itself or by the callback it registers. *)
Definition op_allowed (allowed : string -> string -> Prop) : Op -> Prop :=
  op_meets allowed allowed.

(** An operation whose callback does not subscribe under an identifier
    ruled out by [allowed]. *)
Definition op_callbacks_allowed (allowed : string -> string -> Prop)
  : Op -> Prop := op_meets (fun _ _ => True) allowed.

(** The callbacks of a map, and of the registry, subscribe only where
    [allowed] lets them. *)
Definition map_allowed (allowed : string -> string -> Prop)
           (m : list (option (string * SubscriptionCallback))) : Prop :=
  forall i cb, Some (i, cb) ∈ m -> body_allowed allowed (cb_body cb).

Definition registry_allowed (allowed : string -> string -> Prop)
           (s : State) : Prop :=
  forall c sub, jm_get c (subscriptions s) = Some sub ->
                map_allowed allowed (callbacks sub).

(** Does a string contain a colon?  Every collection event name does. *)
Fixpoint has_colon (s : string) : bool :=
  match s with
  | EmptyString => false
  | String a s' => Ascii.eqb a ":"%char || has_colon s'
  end.

(** A property that only looks at the registry. *)
Definition keeps_registry (P : State -> Prop) : Prop :=
  forall s s', subscriptions s' = subscriptions s -> P s -> P s'.

(** Every record of the registry has at least one callback. *)
Definition nonempty_records (s : State) : Prop :=
  forall c sub, jm_get c (subscriptions s) = Some sub ->
                0 < jm_size (callbacks sub).

(** The listener of [connect] is the only one a transport disconnect
    reaches. *)
Definition disconnect_listener_only (s : State) : Prop :=
  forall sock, socket s = Some sock -> reached_by "disconnect" sock = [OnDisconnect].

End Realtime.

(** ** Concrete runs *)

Module Scenario.
Import Storage.

(** A header-mode client with automatic refresh and a one-second
    timeout. *)
Definition jwt_config : HttpClientConfig :=
  {| baseUrl := "https://api.example.com"; authMode := Jwt; timeout := 1000;
     autoRefresh := true; credentials := "same-origin"; headers := ∅;
     token := None; tenantId := None;
     onAuthError := true; onTokenRefresh := true |}.

(** The same client with a static token configured. *)
Definition static_token_config : HttpClientConfig :=
  {| baseUrl := "https://api.example.com"; authMode := Jwt; timeout := 1000;
     autoRefresh := true; credentials := "same-origin"; headers := ∅;
     token := Some "service-token"; tenantId := None;
     onAuthError := true; onTokenRefresh := true |}.

Definition refresh_data (tok : string) (seconds : option Z) : Json :=
  {| j_token := tok; j_refreshToken := None; j_expiresIn := seconds;
     j_message := None; j_error := None; j_details := None |}.

Definition answer (ms : Z) (st : Z) (j : option Json) : NetReply :=
  {| delay := ms;
     reply := Some {| status := st; statusText := "-";
                      json := JObject <$> j |} |}.

Definition items : Json := refresh_data "items" None.

(** A signed-in session whose stored expiry is absent. *)
Definition signed_in : World :=
  {| store := {[ ACCESS_TOKEN := "old-token"; REFRESH_TOKEN := "refresh-1";
                 TENANT := "tenant-1" ]};
     now := 5000000; calls := 0; log := [] |}.

(** A signed-in session whose token expired long ago and which has no
    refresh token. *)
Definition expired_no_refresh : World :=
  {| store := {[ ACCESS_TOKEN := "stored-token"; TOKEN_EXPIRY := "1000" ]};
     now := 5000000; calls := 0; log := [] |}.

(** The server rejects the call, then hands out tokens that live for
    thirty seconds, then accepts the call. *)
Definition short_lived_tokens (n : nat) : NetReply :=
  match n with
  | 0 => answer 10 401 None
  | 1 => answer 10 200 (Some (refresh_data "token-2" (Some 30%Z)))
  | 2 => answer 10 200 (Some (refresh_data "token-3" (Some 30%Z)))
  | _ => answer 10 200 (Some items)
  end.

(** The server rejects every call it is sent. *)
Definition always_401 (n : nat) : NetReply := answer 10 401 None.

(** The server rejects the call, refreshes at once, and then takes fifty
    seconds to answer the retry. *)
Definition slow_retry (n : nat) : NetReply :=
  match n with
  | 0 => answer 10 401 None
  | 1 => answer 10 200 (Some (refresh_data "token-2" None))
  | _ => answer 50000 200 (Some items)
  end.

(** The server takes fifty seconds to answer anything. *)
Definition slow_server (n : nat) : NetReply := answer 50000 200 (Some items).

(** *** The realtime module *)

Import Realtime.

Definition quiet (name : string) : SubscriptionCallback :=
  {| cb_name := name; cb_body := [] |}.

(** A callback that unsubscribes the callback registered after it. *)
Definition unsubscribes_sibling : SubscriptionCallback :=
  {| cb_name := "first";
     cb_body := [Unsubscribe "products" "id-2"] |}.

(** A callback that unsubscribes itself and then throws. *)
Definition leaves_and_throws : SubscriptionCallback :=
  {| cb_name := "first";
     cb_body := [Unsubscribe "products" "id-1"; ThrowError] |}.

(** A callback that subscribes another callback to the same collection
    while it runs. *)
Definition subscribes_another : SubscriptionCallback :=
  {| cb_name := "first";
     cb_body := [CallSubscribe "products" "id-3" "late" []] |}.

(** A callback that disconnects the module and then calls the handle of
    the callback registered after it. *)
Definition disconnects : SubscriptionCallback :=
  {| cb_name := "first";
     cb_body := [CallDisconnect; Unsubscribe "products" "id-2"] |}.

Definition product_created : SubscriptionPayload :=
  {| action := create; p_collection := "products"; data := "{}";
     timestamp := "2024-01-01T00:00:00Z" |}.

(** A module whose socket is connected. *)
Definition online : State :=
  run [SetSocketClient; Connect; Receive "connect" NoArg] initial.

End Scenario.

(** ** [HttpClient]: request methods, configuration, error class

    The rest of [src/client.ts] and the constructor of [BaasixError]
    ([src/types.ts]). *)

Module HttpClient.

(** [types.ts] line 752: [this.isRetryable = status >= 500 || status === 429]. *)
Definition isRetryable (status : Z) : bool :=
  (500 <=? status)%Z || (status =? 429)%Z.

(** The [data] argument of [post], [patch] and [put], as far as they
    look at it: whether it is truthy, and the text [JSON.stringify]
    makes of it. *)
Inductive Data : Type :=
| Falsy                       (* undefined, null, 0, the empty string, false *)
| Truthy (json : string).

(** [{ ...options, body: data ? JSON.stringify(data) : undefined }] *)
Definition with_body (options : RequestOptions) (data : Data)
  : RequestOptions :=
  {| opt_timeout := opt_timeout options;
     opt_skipAuth := opt_skipAuth options;
     opt_rawResponse := opt_rawResponse options;
     opt_method := opt_method options;
     opt_headers := opt_headers options;
     opt_body := match data with
                 | Truthy json => Some (TextBody json)
                 | Falsy => None
                 end;
     opt_credentials := opt_credentials options;
     opt_signal := opt_signal options |}.

(** The body a call with this [data] is sent with. *)
Definition body_of (data : Data) : ReqBody :=
  match data with
  | Truthy json => TextBody json
  | Falsy => NoBody
  end.

Section WithConfig.

Variable config : HttpClientConfig.

(** Line 49. *)
Definition getBaseUrl : string := baseUrl config.

(** Lines 347-352. *)
Definition post (path : string) (data : Data) (options : RequestOptions)
  : Prog Value :=
  Client.request config "POST" path (with_body options data).

(** Lines 357-362. *)
Definition patch (path : string) (data : Data) (options : RequestOptions)
  : Prog Value :=
  Client.request config "PATCH" path (with_body options data).

(** Lines 367-372. *)
Definition put (path : string) (data : Data) (options : RequestOptions)
  : Prog Value :=
  Client.request config "PUT" path (with_body options data).

(** Lines 377-379. *)
Definition delete (path : string) (options : RequestOptions) : Prog Value :=
  Client.request config "DELETE" path options.

End WithConfig.

(** [Partial<HttpClientConfig>]: the keys that are present.  The two
    optional fields can be present and [undefined]. *)
Record PartialConfig : Type := {
  p_baseUrl : option string;
  p_authMode : option AuthMode;
  p_timeout : option Z;
  p_autoRefresh : option bool;
  p_credentials : option string;
  p_headers : option (gmap string string);
  p_token : option (option string);
  p_tenantId : option (option string);
  p_onAuthError : option bool;
  p_onTokenRefresh : option bool
}.

Definition no_change : PartialConfig :=
  {| p_baseUrl := None; p_authMode := None; p_timeout := None;
     p_autoRefresh := None; p_credentials := None; p_headers := None;
     p_token := None; p_tenantId := None; p_onAuthError := None;
     p_onTokenRefresh := None |}.

(** Lines 42-44: [this.config = { ...this.config, ...config }]. *)
Definition updateConfig (config : HttpClientConfig) (p : PartialConfig)
  : HttpClientConfig :=
  {| baseUrl := default (baseUrl config) (p_baseUrl p);
     authMode := default (authMode config) (p_authMode p);
     timeout := default (timeout config) (p_timeout p);
     autoRefresh := default (autoRefresh config) (p_autoRefresh p);
     credentials := default (credentials config) (p_credentials p);
     headers := default (headers config) (p_headers p);
     token := default (token config) (p_token p);
     tenantId := default (tenantId config) (p_tenantId p);
     onAuthError := default (onAuthError config) (p_onAuthError p);
     onTokenRefresh := default (onTokenRefresh config) (p_onTokenRefresh p) |}.

End HttpClient.

(** ** Reading what a program logs and returns *)

(** Against the network [net], [p] logs only events that satisfy [P],
    and a value it returns satisfies [Q]. *)
Definition logs_only {A : Type} (net : nat -> NetReply)
           (P : Event -> Prop) (Q : A -> Prop) (p : Prog A) : Prop :=
  forall w,
    exists evs,
      log (exec net p w).2 = log w ++ evs
      /\ Forall P evs
      /\ match (exec net p w).1 with
         | inr a => Q a
         | inl _ => True
         end.

(** The events a refresh logs. *)
Definition of_refresh (ev : Event) : Prop :=
  ev = EvRefreshBody \/ refresh_ev ev = true.

(** Headers that agree with the configured ones except, possibly, on
    [Authorization]. *)
Definition configured_headers (config : HttpClientConfig)
           (h : gmap string string) : Prop :=
  forall k, k <> "Authorization" -> h !! k = base_headers config !! k.

(** A network call of [request(method, path, options)], the original
    attempt or the retry, carries what this request is: its URL, and
    the method, body and credentials of [options] where the caller set
    them, otherwise the method given, no body and the configured
    credentials; its headers are the caller's when there are some,
    otherwise the configured ones with the credential of the moment. *)
Definition is_attempt_of (config : HttpClientConfig) (method url : string)
           (options : RequestOptions) (ev : Event) : Prop :=
  match ev with
  | EvFetch RefreshEndpoint _ _ => True
  | EvFetch _ u init =>
      u = url
      /\ f_method init = default method (opt_method options)
      /\ f_body init = default NoBody (opt_body options)
      /\ f_credentials init
         = default (credentials config) (opt_credentials options)
      /\ match opt_headers options with
         | Some h => f_headers init = h
         | None => configured_headers config (f_headers init)
         end
  | _ => True
  end.

(** A network call other than a refresh is made with this method and
    this body. *)
Definition carries (method : string) (body : ReqBody) (ev : Event) : Prop :=
  match ev with
  | EvFetch RefreshEndpoint _ _ => True
  | EvFetch _ _ init => f_method init = method /\ f_body init = body
  | _ => True
  end.

(** The events of a request that makes one network call and nothing
    else. *)
Definition single_call (evs : list Event) : Prop :=
  exists u init,
    evs = [EvFetch Original u init]
    \/ (exists st, evs = [EvFetch Original u init; EvResponse Original st])
    \/ evs = [EvFetch Original u init; EvCancelled Original].

Definition is_cancelled_original (e : Event) : bool :=
  match e with EvCancelled Original => true | _ => false end.

(** The store after a refresh that returned [tokens], lines 151-160. *)
Definition refreshed_store (tokens : AuthTokens) (st : gmap string string)
  : gmap string string :=
  let st := <[Storage.ACCESS_TOKEN := t_accessToken tokens]> st in
  let st := match t_refreshToken tokens with
            | Some r => if truthy (Some r)
                        then <[Storage.REFRESH_TOKEN := r]> st else st
            | None => st
            end in
  match t_expiresAt tokens with
  | Some e => if truthy_num (Some e)
              then <[Storage.TOKEN_EXPIRY := toString e]> st else st
  | None => st
  end.

(** ** [AuthModule]: sessions

    [src/modules/auth.ts].  The module keeps the current user in a field
    of its own; the functions below take its value and return the new
    one beside their result.  When one of them throws, the field is what
    it was.  The module is wired as [index.ts] does it: on the client
    [config], with the client's authentication mode. *)

Module AuthModule.
Import Storage.

Section WithUser.

(** A value that can be held as the current user: anything but [null]
    and [undefined]. *)
Variable User : Type.
(** Its truthiness ([true] for every object). *)
Variable truthy_user : User -> bool.
(** [JSON.stringify] of it. *)
Variable JSON_stringify : User -> string.
(** [JSON.parse]: [None] when it throws, [Some None] for [null]. *)
Variable JSON_parse : string -> option (option User).
(** The fields [user] and [data] of a response body, which the HTTP
    client itself does not read.  Of [data] it matters whether it is
    [null], [Some None], or not there at all, [None]. *)
Variable body_user : Json -> option User.
Variable body_data : Json -> option (option User).

Variable config : HttpClientConfig.

(** [AuthResponse], as it arrives: a field that the body lacks is
    [undefined]. *)
Record AuthResponse : Type := {
  r_token : option string;
  r_refreshToken : option string;
  r_expiresIn : option Z;
  r_user : option User
}.

(** What [client.post<AuthResponse>] resolved to, read as an
    [AuthResponse]; the empty object of a 204 has none of the fields,
    and no field of [null] can be read. *)
Definition as_AuthResponse (v : Value) : option AuthResponse :=
  match v with
  | VData j =>
      Some {| r_token := Some (j_token j); r_refreshToken := j_refreshToken j;
              r_expiresIn := j_expiresIn j; r_user := body_user j |}
  | VEmptyObject | VResponse _ =>
      Some {| r_token := None; r_refreshToken := None; r_expiresIn := None;
              r_user := None |}
  | VNull => None
  end.

(** [response.data] of what [client.get<{ data: User }>] resolved to,
    for a response that is not [null]. *)
Definition response_data (v : Value) : option (option User) :=
  match v with
  | VData j => body_data j
  | VEmptyObject | VResponse _ | VNull => None
  end.

(** [JSON.stringify] of a value that can be [null]. *)
Definition stringify (v : option User) : string :=
  match v with
  | Some u => JSON_stringify u
  | None => "null"
  end.

Definition truthy_opt (u : option User) : bool :=
  match u with
  | Some u => truthy_user u
  | None => false
  end.

(** [storage.set(key, value)] with a value that can be [undefined]: the
    memory adapter then holds [undefined] under the key, and [get]
    answers [null] for it as for a key that is not there. *)
Definition storage_set_opt (key : string) (value : option string)
  : Prog unit :=
  match value with
  | Some s => storage_set key s
  | None => storage_remove key
  end.

(** Lines 84-87; the result is the new current user. *)
Definition emitAuthStateChange (event : string) (user : option User)
  : Prog (option User) :=
  let* _ := emit (EvAuthStateChange event) in Ret user.

(** Lines 92-110. *)
Definition storeTokens (response : AuthResponse) : Prog unit :=
  let* _ :=
    if is_jwt (authMode config) then
      let* _ := await (storage_set_opt ACCESS_TOKEN (r_token response)) in
      let* _ :=
        match r_refreshToken response with
        | Some r => when (truthy (Some r)) (await (storage_set REFRESH_TOKEN r))
        | None => Ret tt
        end in
      match r_expiresIn response with
      | Some e =>
          if truthy_num (Some e) then
            let* now := date_now in
            let expiresAt := (now + e * 1000)%Z in
            await (storage_set TOKEN_EXPIRY (toString expiresAt))
          else Ret tt
      | None => Ret tt
      end
    else Ret tt in
  match r_user response with
  | Some u => when (truthy_user u) (await (storage_set USER (JSON_stringify u)))
  | None => Ret tt
  end.

(** Lines 115-122. *)
Definition clearAuth : Prog (option User) :=
  let* _ := Auth.clearAuth in Ret None.

(** Lines 166-181; [credentials] is the JSON text of the object that
    is posted.  The result and the new current user. *)
Definition login (credentials : string)
  : Prog (AuthResponse * option User) :=
  let* v := await (HttpClient.post config "/auth/login"
                     (HttpClient.Truthy credentials)
                     {| opt_timeout := None; opt_skipAuth := true;
                        opt_rawResponse := false; opt_method := None;
                        opt_headers := None; opt_body := None;
                        opt_credentials := None; opt_signal := false |}) in
  match as_AuthResponse v with
  | None => Throw TypeError             (* [response.token], [response.user] *)
  | Some response =>
      let* _ := await (storeTokens response) in
      let* user := emitAuthStateChange "SIGNED_IN" (r_user response) in
      Ret (response, user)
  end.

(** Lines 191-200. *)
Definition logout : Prog (option User) :=
  let* _ := Auth.logout config in Ret None.

(** Lines 211-224; the result and the new current user. *)
Definition getUser : Prog (option User * option User) :=
  catch
    (let* response := await (Client.get config "/auth/me" no_options) in
     match response with
     | VNull => Throw TypeError                       (* [response.data] *)
     | _ =>
         let data := response_data response in
         let* _ := await (storage_set_opt USER (stringify <$> data)) in
         Ret (default None data, default None data)
     end)
    (fun error =>
       match error with
       | BaasixError _ status _ _ =>
           if (status =? 401)%Z then
             let* user := await clearAuth in Ret (None, user)
           else Throw error
       | _ => Throw error
       end).

(** Lines 234-250. *)
Definition getCachedUser (currentUser : option User)
  : Prog (option User * option User) :=
  if truthy_opt currentUser then Ret (currentUser, currentUser)
  else
    let* userJson := await (storage_get USER) in
    match userJson with
    | Some text =>
        if truthy (Some text) then
          match JSON_parse text with
          | Some user => Ret (user, user)
          | None => Ret (None, currentUser)
          end
        else Ret (None, currentUser)
    | None => Ret (None, currentUser)
    end.

(** Lines 262-281. *)
Definition isAuthenticated (currentUser : option User)
  : Prog (bool * option User) :=
  if negb (is_jwt (authMode config)) then
    let* r := await (getCachedUser currentUser) in
    Ret (bool_decide (is_Some r.1), r.2)
  else
    let* token := await (storage_get ACCESS_TOKEN) in
    if negb (truthy token) then Ret (false, currentUser)
    else
      let* expiry := await (storage_get TOKEN_EXPIRY) in
      match expiry with
      | Some text =>
          if truthy (Some text) then
            let* now := date_now in
            if match parseInt text with
               | Some e => (e <=? now)%Z
               | None => false
               end
            then
              let* refreshToken := await (storage_get REFRESH_TOKEN) in
              Ret (truthy refreshToken, currentUser)
            else Ret (true, currentUser)
          else Ret (true, currentUser)
      | None => Ret (true, currentUser)
      end.

(** Lines 291-296. *)
Definition getToken : Prog (option string) :=
  if negb (is_jwt (authMode config)) then Ret None
  else await (storage_get ACCESS_TOKEN).

(** Lines 306-308. *)
Definition setToken (token : string) : Prog unit :=
  await (storage_set ACCESS_TOKEN token).

(** [AuthState]; [isLoading] and [error] are constant. *)
Record AuthState : Type := {
  user : option User;
  s_isAuthenticated : bool
}.

(** Lines 502-512. *)
Definition getState (currentUser : option User)
  : Prog (AuthState * option User) :=
  let* a := await (isAuthenticated currentUser) in
  let* u := await (getCachedUser a.2) in
  Ret ({| user := u.1; s_isAuthenticated := a.1 |}, u.2).

(** Lines 523-531. *)
Definition initialize (currentUser : option User)
  : Prog (AuthState * option User) :=
  let* s := await (getState currentUser) in
  let state := s.1 in
  if s_isAuthenticated state && truthy_opt (user state) then
    let* current := emitAuthStateChange "SIGNED_IN" (user state) in
    Ret (state, current)
  else Ret (state, s.2).

End WithUser.

End AuthModule.

(** *** Reading a run of the session functions *)

(** Is this failure a [BaasixError] with status 401? *)
Definition is_unauthorized (e : Error) : bool :=
  match e with
  | BaasixError _ status _ _ => (status =? 401)%Z
  | _ => false
  end.

Definition is_auth_state_change (e : Event) : bool :=
  match e with EvAuthStateChange _ => true | _ => false end.

(** The keys under which a session is stored. *)
Definition session_keys : list string :=
  [Storage.ACCESS_TOKEN; Storage.REFRESH_TOKEN; Storage.TOKEN_EXPIRY;
   Storage.USER; Storage.TENANT].

(** ** [LocalStorageAdapter]

    [src/storage/localStorage.ts].  The browser's [localStorage] is a
    list of keys and values in the order [key(i)] enumerates them;
    [None] stands for an environment without it.  Of its operations
    only [setItem] throws, when the browser refuses the write (the
    quota is exceeded, or storage is disabled). *)

Module LocalStorageAdapter.

Definition getItem (key : string) (ls : list (string * string))
  : option string :=
  snd <$> List.find (fun kv => bool_decide (kv.1 = key)) ls.

Fixpoint setItem (key value : string) (ls : list (string * string))
  : list (string * string) :=
  match ls with
  | [] => [(key, value)]
  | (k, v) :: ls' =>
      if decide (k = key) then (k, value) :: ls'
      else (k, v) :: setItem key value ls'
  end.

Definition removeItem (key : string) (ls : list (string * string))
  : list (string * string) :=
  List.filter (fun kv => negb (bool_decide (kv.1 = key))) ls.

(** [localStorage.key(i)] *)
Definition key (i : nat) (ls : list (string * string)) : option string :=
  fst <$> ls !! i.

(** [s.startsWith(p)] *)
Definition startsWith (s p : string) : bool := String.prefix p s.

Section WithPrefix.

(** [this.prefix], ["baasix_"] unless the constructor is given
    another. *)
Variable prefix : string.

(** Does the browser accept [setItem(key, value)] on this store?  When
    it does not, [setItem] throws a [QuotaExceededError]. *)
Variable accepts : string -> string -> list (string * string) -> bool.

(** Lines 24-30. *)
Definition getKey (key : string) : string :=
  if startsWith key prefix then key else prefix +:+ key.

(** Lines 32-42. *)
Definition get (key : string) (env : option (list (string * string)))
  : option string :=
  match env with
  | None => None
  | Some ls => getItem (getKey key) ls
  end.

(** Lines 44-53; a write the browser refuses is caught, the console is
    warned and the store is as it was. *)
Definition set (key value : string) (env : option (list (string * string)))
  : option (list (string * string)) :=
  match env with
  | None => None
  | Some ls =>
      if accepts (getKey key) value ls
      then Some (setItem (getKey key) value ls)
      else Some ls
  end.

(** Lines 55-64. *)
Definition remove (key : string) (env : option (list (string * string)))
  : option (list (string * string)) :=
  match env with
  | None => None
  | Some ls => Some (removeItem (getKey key) ls)
  end.

(** Lines 66-82: the keys that start with the prefix are collected by
    index, then removed one by one. *)
Definition clear (env : option (list (string * string)))
  : option (list (string * string)) :=
  match env with
  | None => None
  | Some ls =>
      let keysToRemove :=
        omap (fun i => match key i ls with
                       | Some k => if startsWith k prefix then Some k else None
                       | None => None
                       end)
             (seq 0 (length ls)) in
      Some (foldl (fun ls k => removeItem k ls) ls keysToRemove)
  end.

End WithPrefix.

End LocalStorageAdapter.

(** ** [Baasix]: the SDK instance

    [src/index.ts]. *)

Module Baasix.

(** [BaasixConfig], without the storage adapter and the socket
    settings; an absent field is [None]. *)
Record BaasixConfig : Type := {
  url : string;
  c_authMode : option AuthMode;
  c_token : option string;
  c_headers : option (gmap string string);
  c_timeout : option Z;
  c_autoRefresh : option bool;
  c_credentials : option string;
  c_tenantId : option string;
  c_onAuthStateChange : bool     (* is a listener given? *)
}.

Definition with_url (u : string) (c : BaasixConfig) : BaasixConfig :=
  {| url := u; c_authMode := c_authMode c; c_token := c_token c;
     c_headers := c_headers c; c_timeout := c_timeout c;
     c_autoRefresh := c_autoRefresh c; c_credentials := c_credentials c;
     c_tenantId := c_tenantId c;
     c_onAuthStateChange := c_onAuthStateChange c |}.

(** The instance: its normalized configuration and its HTTP client. *)
Record Instance : Type := {
  i_url : string;
  i_authMode : AuthMode;
  i_onAuthStateChange : bool;
  httpClient : HttpClientConfig
}.

Definition with_httpClient (h : HttpClientConfig) (b : Instance) : Instance :=
  {| i_url := i_url b; i_authMode := i_authMode b;
     i_onAuthStateChange := i_onAuthStateChange b; httpClient := h |}.

(** Line 103: [config.url.replace(/\/$/, "")]. *)
Fixpoint strip_trailing_slash (s : string) : string :=
  match s with
  | EmptyString => EmptyString
  | String a EmptyString => if Ascii.eqb a "/" then EmptyString else s
  | String a s' => String a (strip_trailing_slash s')
  end.

(** Lines 96-167. *)
Definition constructor (config : BaasixConfig) : Error + Instance :=
  if negb (truthy (Some (url config))) then
    inl (OtherError "Baasix SDK: url is required")
  else
    let normalizedUrl := strip_trailing_slash (url config) in
    let authMode := default Jwt (c_authMode config) in
    let timeout := match c_timeout config with
                   | Some t => if truthy_num (Some t) then t else 30000%Z
                   | None => 30000%Z
                   end in
    let autoRefresh := match c_autoRefresh config with
                       | Some false => false
                       | _ => true
                       end in
    let credentials :=
      match c_credentials config with
      | Some c => if truthy (Some c) then c
                  else if is_jwt authMode then "same-origin" else "include"
      | None => if is_jwt authMode then "same-origin" else "include"
      end in
    inr {| i_url := normalizedUrl; i_authMode := authMode;
           i_onAuthStateChange := c_onAuthStateChange config;
           httpClient :=
             {| baseUrl := normalizedUrl; authMode := authMode;
                timeout := timeout; autoRefresh := autoRefresh;
                credentials := credentials;
                headers := default ∅ (c_headers config);
                token := c_token config; tenantId := c_tenantId config;
                onAuthError := true; onTokenRefresh := true |} |}.

(** [Partial<BaasixConfig>], as far as [configure] reads it. *)
Record PartialBaasixConfig : Type := {
  u_headers : option (gmap string string);
  u_tenantId : option string;
  u_token : option string;
  u_timeout : option Z
}.

(** [{ headers }], [{ tenantId }], [{ token }], [{ timeout }]: the
    one-key objects handed to [updateConfig]. *)
Definition only_headers (h : gmap string string) : HttpClient.PartialConfig :=
  {| HttpClient.p_baseUrl := None; HttpClient.p_authMode := None;
     HttpClient.p_timeout := None; HttpClient.p_autoRefresh := None;
     HttpClient.p_credentials := None; HttpClient.p_headers := Some h;
     HttpClient.p_token := None; HttpClient.p_tenantId := None;
     HttpClient.p_onAuthError := None; HttpClient.p_onTokenRefresh := None |}.

Definition only_tenantId (t : option string) : HttpClient.PartialConfig :=
  {| HttpClient.p_baseUrl := None; HttpClient.p_authMode := None;
     HttpClient.p_timeout := None; HttpClient.p_autoRefresh := None;
     HttpClient.p_credentials := None; HttpClient.p_headers := None;
     HttpClient.p_token := None; HttpClient.p_tenantId := Some t;
     HttpClient.p_onAuthError := None; HttpClient.p_onTokenRefresh := None |}.

Definition only_token (t : option string) : HttpClient.PartialConfig :=
  {| HttpClient.p_baseUrl := None; HttpClient.p_authMode := None;
     HttpClient.p_timeout := None; HttpClient.p_autoRefresh := None;
     HttpClient.p_credentials := None; HttpClient.p_headers := None;
     HttpClient.p_token := Some t; HttpClient.p_tenantId := None;
     HttpClient.p_onAuthError := None; HttpClient.p_onTokenRefresh := None |}.

Definition only_timeout (t : Z) : HttpClient.PartialConfig :=
  {| HttpClient.p_baseUrl := None; HttpClient.p_authMode := None;
     HttpClient.p_timeout := Some t; HttpClient.p_autoRefresh := None;
     HttpClient.p_credentials := None; HttpClient.p_headers := None;
     HttpClient.p_token := None; HttpClient.p_tenantId := None;
     HttpClient.p_onAuthError := None; HttpClient.p_onTokenRefresh := None |}.

(** [this.httpClient.updateConfig(p)] *)
Definition update (p : HttpClient.PartialConfig) (b : Instance) : Instance :=
  with_httpClient (HttpClient.updateConfig (httpClient b) p) b.

(** Lines 255-268. *)
Definition configure (config : PartialBaasixConfig) (b : Instance)
  : Instance :=
  let b := match u_headers config with
           | Some h => update (only_headers h) b
           | None => b
           end in
  let b := match u_tenantId config with
           | Some t => update (only_tenantId (Some t)) b
           | None => b
           end in
  let b := if truthy (u_token config)
           then update (only_token (u_token config)) b else b in
  match u_timeout config with
  | Some t => if truthy_num (Some t) then update (only_timeout t) b else b
  | None => b
  end.

(** Lines 278-281: the instance after the call, and what is awaited. *)
Definition setTenant (tenantId : string) (b : Instance)
  : Instance * Prog unit :=
  (update (only_tenantId (Some tenantId)) b,
   await (storage_set Storage.TENANT tenantId)).

(** Lines 293-296. *)
Definition clearTenant (b : Instance) : Instance * Prog unit :=
  (update (only_tenantId None) b,
   await (storage_remove Storage.TENANT)).

(** Lines 286-288. *)
Definition getTenant : Prog (option string) :=
  await (storage_get Storage.TENANT).

(** Lines 301-310. *)
Definition getUrl (b : Instance) : string := i_url b.
Definition getAuthMode (b : Instance) : AuthMode := i_authMode b.

(** What the constructor fixes once and for all. *)
Definition fixed_part (h : HttpClientConfig)
  : string * AuthMode * bool * string :=
  (baseUrl h, authMode h, autoRefresh h, credentials h).

End Baasix.

(** ** [ItemsModule]: reordering

    [src/modules/items.ts], lines 698-744. *)

Module ItemsModule.

Section WithCollection.

Variable config : HttpClientConfig.
(** [this.collection] *)
Variable collection : string.
(** [JSON.stringify({ item, to, mode })] *)
Variable JSON_move : string -> string -> string -> string.

Definition sort_url : string := "/utils/sort/" +:+ collection.

(** Lines 710-720; [mode] is ["before"] when it is not given. *)
Definition sortItem (itemId targetItemId : string) (mode : option string)
  : Prog unit :=
  let mode := default "before" mode in
  let* _ := await (HttpClient.post config sort_url
                     (HttpClient.Truthy (JSON_move itemId targetItemId mode))
                     no_options) in
  Ret tt.

(** The loop of lines 737-743, from index [i], with [todo] rounds to
    go. *)
Fixpoint reorder_from (todo i : nat) (orderedIds : list string) : Prog unit :=
  match todo with
  | 0 => Ret tt
  | S todo' =>
      match orderedIds !! i, orderedIds !! (i - 1) with
      | Some item, Some to =>
          let* _ := await (HttpClient.post config sort_url
                             (HttpClient.Truthy (JSON_move item to "after"))
                             no_options) in
          reorder_from todo' (S i) orderedIds
      | _, _ => Ret tt
      end
  end.

(** Lines 735-744. *)
Definition reorder (orderedIds : list string) : Prog unit :=
  reorder_from (length orderedIds - 1) 1 orderedIds.

(** The moves [reorder] asks for: each identifier after the one before
    it, in order. *)
Fixpoint moves (orderedIds : list string) : list ReqBody :=
  match orderedIds with
  | to :: (item :: _) as rest =>
      TextBody (JSON_move item to "after") :: moves rest
  | _ => []
  end.

End WithCollection.

End ItemsModule.

(** The URLs and the bodies of the original attempts in a log. *)
Definition original_calls (evs : list Event) : list (string * ReqBody) :=
  omap (fun e => match e with
                 | EvFetch Original u init => Some (u, f_body init)
                 | _ => None
                 end) evs.

(** ** [normalizeSort]

    The sort helper of the SDK's utilities. *)

Module SortUtil.

(** [SortDirection] *)
Inductive SortDirection : Type := asc | desc | ASC | DESC.

(** [direction.toLowerCase()] *)
Definition toLowerCase (d : SortDirection) : string :=
  match d with
  | asc | ASC => "asc"
  | desc | DESC => "desc"
  end.

(** [Sort | undefined] *)
Inductive Sort : Type :=
| Undefined
| Text (s : string)
| Fields (l : list string)                          (* ['-createdAt', 'name'] *)
| Columns (l : list (string * SortDirection))       (* [{ column, order }] *)
| Directions (entries : list (string * SortDirection)). (* { name: 'asc' } *)

(** [s.includes(":")] *)
Fixpoint includes_colon (s : string) : bool :=
  match s with
  | EmptyString => false
  | String a s' => Ascii.eqb a ":"%char || includes_colon s'
  end.

(** [l.join(",")] *)
Definition join (l : list string) : string := String.concat "," l.

(** The callback of the [map] over an array of strings. *)
Definition field_entry (s : string) : string :=
  match s with
  | String "-"%char rest => rest +:+ ":desc"
  | _ => if includes_colon s then s else s +:+ ":asc"
  end.

Definition normalizeSort (sort : Sort) : option string :=
  match sort with
  | Undefined => None
  | Text s => if truthy (Some s) then Some s else None
  | Fields [] | Columns [] | Directions [] => None
  | Columns l =>
      Some (join ((fun s => s.1 +:+ ":" +:+ toLowerCase s.2) <$> l))
  | Fields l => Some (join (field_entry <$> l))
  | Directions entries =>
      Some (join ((fun e => e.1 +:+ ":" +:+ toLowerCase e.2) <$> entries))
  end.

(** A result of [normalizeSort] handed back to it. *)
Definition again (r : option string) : Sort :=
  match r with
  | Some s => Text s
  | None => Undefined
  end.

End SortUtil.

(** ** [RealtimeChannel]

    [src/modules/realtime.ts], lines 551-641.  A handler is known by
    its name and by whether it throws when it is called; handlers are
    taken not to subscribe or unsubscribe anything themselves. *)

Module RealtimeChannel.
Import Realtime.

(** The events [on] can be given. *)
Inductive ChannelEvent : Type := INSERT | UPDATE | DELETE | Star.

(** Lines 591-602; [None] stands for ["*"]. *)
Definition mapEvent (event : ChannelEvent) : option SubscriptionEvent :=
  match event with
  | INSERT => Some create
  | UPDATE => Some update
  | DELETE => Some delete
  | Star => None
  end.

Record Handler : Type := {
  h_name : string;
  h_throws : bool
}.

Record Channel : Type := {
  ch_collection : string;
  handlers : list (option (string * list Handler));
  unsubscribeFn : option string   (* the id the subscription was given *)
}.

(** Lines 551-553 and 559-568. *)
Definition channel (collection : string) : Channel :=
  {| ch_collection := collection; handlers := []; unsubscribeFn := None |}.

Definition with_handlers (h : list (option (string * list Handler)))
           (ch : Channel) : Channel :=
  {| ch_collection := ch_collection ch; handlers := h;
     unsubscribeFn := unsubscribeFn ch |}.

(** Lines 604-609. *)
Definition addHandler (event : SubscriptionEvent) (callback : Handler)
           (ch : Channel) : Channel :=
  let ch := match jm_get (event_name event) (handlers ch) with
            | Some _ => ch
            | None => with_handlers (jm_set (event_name event) [] (handlers ch)) ch
            end in
  with_handlers
    (jm_set (event_name event)
       (default [] (jm_get (event_name event) (handlers ch)) ++ [callback])
       (handlers ch)) ch.

(** Lines 576-589. *)
Definition on (event : ChannelEvent) (callback : Handler) (ch : Channel)
  : Channel :=
  match mapEvent event with
  | None => foldl (fun ch e => addHandler e callback ch) ch
                  [create; update; delete]
  | Some e => addHandler e callback ch
  end.

(** What the channel does with a payload: a handler was called, or the
    console was told that one threw. *)
Inductive Handled : Type :=
| Called (name : string) (payload : SubscriptionPayload)
| HandlerError.

(** Lines 615-626: the function the channel subscribes with. *)
Definition dispatch (ch : Channel) (payload : SubscriptionPayload)
  : list Handled :=
  match jm_get (event_name (action payload)) (handlers ch) with
  | Some handlers =>
      handlers ≫= fun handler =>
        Called (h_name handler) payload
        :: (if h_throws handler then [HandlerError] else [])
  | None => []
  end.


(** What calling one handler inside its [try]/[catch] leaves behind. *)
Definition call (payload : SubscriptionPayload) (handler : Handler)
  : list Handled :=
  Called (h_name handler) payload
  :: (if h_throws handler then [HandlerError] else []).

(** The handlers registered for an action. *)
Definition handlers_for (a : SubscriptionEvent) (ch : Channel) : list Handler :=
  default [] (jm_get (event_name a) (handlers ch)).

(** The channel's function as the realtime module holds it. *)
Definition subscriber : SubscriptionCallback :=
  {| cb_name := "channel"; cb_body := [] |}.

(** Lines 614-629; [callbackId] is the id [realtime.subscribe] makes
    up. *)
Definition subscribe (callbackId : string) (ch : Channel) (s : State)
  : Channel * State :=
  ({| ch_collection := ch_collection ch; handlers := handlers ch;
      unsubscribeFn := Some callbackId |},
   Realtime.subscribe (ch_collection ch) callbackId subscriber s).

(** Lines 634-640. *)
Definition unsubscribe (ch : Channel) (s : State) : Channel * State :=
  let s := match unsubscribeFn ch with
           | Some callbackId => Realtime.unsubscribe (ch_collection ch) callbackId s
           | None => s
           end in
  ({| ch_collection := ch_collection ch; handlers := jm_clear (handlers ch);
      unsubscribeFn := None |}, s).

(** Does a registration made with [event] concern this action? *)
Definition concerns (event : ChannelEvent) (a : SubscriptionEvent) : bool :=
  match mapEvent event with
  | None => true
  | Some e => String.eqb (event_name e) (event_name a)
  end.

End RealtimeChannel.

(** *** Reading the workflow registry *)

(** Every record of the workflow registry holds at least one callback,
    and none twice. *)
Definition workflow_sets (s : Realtime.State) : Prop :=
  forall id cbs, jm_get id (Realtime.workflowCallbacks s) = Some cbs ->
                 NoDup cbs /\ cbs <> [].

(** ** More concrete runs *)

Module MoreScenario.
Import Storage Scenario.

(** A call to a public endpoint. *)
Definition public : RequestOptions :=
  {| opt_timeout := None; opt_skipAuth := true; opt_rawResponse := false;
     opt_method := None; opt_headers := None; opt_body := None;
     opt_credentials := None; opt_signal := false |}.

(** The server hands out tokens that live for an hour. *)
Definition hour_long_tokens (n : nat) : NetReply :=
  answer 10 200 (Some (refresh_data "token-2" (Some 3600%Z))).

(** The tokens that come back from it, ten milliseconds after
    [signed_in]. *)
Definition hour_long : AuthTokens :=
  {| t_accessToken := "token-2"; t_refreshToken := None;
     t_expiresIn := Some 3600%Z; t_expiresAt := Some 8600010%Z |}.

(** Users that are their own JSON text. *)
Definition stringify_text (u : string) : string := u.
Definition parse_text (s : string) : option (option string) := Some (Some s).
Definition always_truthy (u : string) : bool := true.

(** What a login answered: a token good for an hour. *)
Definition signed_in_response : AuthModule.AuthResponse string :=
  {| AuthModule.r_token := Some "token-9";
     AuthModule.r_refreshToken := None;
     AuthModule.r_expiresIn := Some 3600%Z;
     AuthModule.r_user := Some "{}" |}.

(** The configuration of an SDK instance. *)
Definition sdk_config : Baasix.BaasixConfig :=
  {| Baasix.url := "https://api.example.com";
     Baasix.c_authMode := None; Baasix.c_token := Some "service-token";
     Baasix.c_headers := None; Baasix.c_timeout := Some 0%Z;
     Baasix.c_autoRefresh := None; Baasix.c_credentials := None;
     Baasix.c_tenantId := None; Baasix.c_onAuthStateChange := false |}.

(** The instance it builds. *)
Definition sdk : Baasix.Instance :=
  {| Baasix.i_url := "https://api.example.com"; Baasix.i_authMode := Jwt;
     Baasix.i_onAuthStateChange := false;
     Baasix.httpClient :=
       {| baseUrl := "https://api.example.com"; authMode := Jwt;
          timeout := 30000; autoRefresh := true;
          credentials := "same-origin"; headers := ∅;
          token := Some "service-token"; tenantId := None;
          onAuthError := true; onTokenRefresh := true |} |}.

(** Attempts to turn the timeout and the token off. *)
Definition switch_off : Baasix.PartialBaasixConfig :=
  {| Baasix.u_headers := None; Baasix.u_tenantId := None;
     Baasix.u_token := Some EmptyString; Baasix.u_timeout := Some 0%Z |}.

End MoreScenario.
(** ** Equations of [exec] *)

Section ExecFacts.

Variable net : nat -> NetReply.

Lemma exec_bind {A B : Type} (p : Prog A) (f : A -> Prog B) (w : World) :
  exec net (bind p f) w =
  match exec net p w with
  | (inr a, w') => exec net (f a) w'
  | (inl e, w') => (inl e, w')
  end.
Proof.
  revert w. induction p as [a|e|key k IH|key v k IH|key k IH|k IH|ev k IH|k IH|site url init k IH];
    intros w; simpl; auto.
  destruct (do_fetch net site url init w) as [r w']. apply IH.
Qed.

Lemma exec_catch {A : Type} (p : Prog A) (h : Error -> Prog A) (w : World) :
  exec net (catch p h) w =
  match exec net p w with
  | (inr a, w') => (inr a, w')
  | (inl e, w') => exec net (h e) w'
  end.
Proof.
  revert w. induction p as [a|e|key k IH|key v k IH|key k IH|k IH|ev k IH|k IH|site url init k IH];
    intros w; simpl; auto.
  destruct (do_fetch net site url init w) as [r w']. apply IH.
Qed.

Lemma exec_await {A : Type} (p : Prog A) (w : World) :
  exec net (await p) w = exec net p w.
Proof.
  unfold await. rewrite exec_bind.
  destruct (exec net p w) as [[e|a] w']; reflexivity.
Qed.

End ExecFacts.

(** ** What the client's functions do to the world *)

Lemma count_app f (l1 l2 : list Event) :
  count f (l1 ++ l2) = (count f l1 + count f l2)%nat.
Proof. unfold count. rewrite List.filter_app, length_app. reflexivity. Qed.

Lemma count_cons f e (l : list Event) :
  count f (e :: l) = ((if f e then 1 else 0) + count f l)%nat.
Proof. unfold count. simpl. destruct (f e); reflexivity. Qed.

Lemma count_nil f : count f [] = 0%nat.
Proof. reflexivity. Qed.

Lemma count_refresh_evs f (l : list Event) :
  (forall e, refresh_ev e = true -> f e = false) ->
  forallb refresh_ev l = true -> count f l = 0%nat.
Proof.
  intros Hf. induction l as [|e l IH]; simpl; [reflexivity|].
  intros [He Hl]%andb_prop. rewrite count_cons, (Hf e He), IH; auto.
Qed.

Section ClientFacts.

Variable net : nat -> NetReply.
Variable config : HttpClientConfig.

Lemma exec_isTokenExpired w :
  exec net Client.isTokenExpired w = (inr (token_expired w), w).
Proof.
  unfold Client.isTokenExpired, token_expired, Storage.get. simpl.
  unfold Storage.get.
  destruct (store w !! Storage.TOKEN_EXPIRY) as [s|]; simpl; [|reflexivity].
  destruct (String.eqb s EmptyString); simpl; [reflexivity|].
  destruct (parseInt s); reflexivity.
Qed.

Lemma exec_getAccessToken w :
  exec net (Client.getAccessToken config) w
  = (inr (resolve_token config (store w)), w).
Proof.
  unfold Client.getAccessToken, resolve_token.
  destruct (truthy (token config)); [reflexivity|].
  destruct (negb (is_jwt (authMode config))); reflexivity.
Qed.

(** A refresh starts by announcing itself, then only talks to the
    refresh endpoint; when it fails the store is as it was. *)
Lemma exec_refreshToken w :
  exists rest,
    log (exec net (Client.refreshToken config) w).2
    = log w ++ EvRefreshBody :: rest
    /\ forallb refresh_ev rest = true
    /\ match (exec net (Client.refreshToken config) w).1 with
       | inl _ => store (exec net (Client.refreshToken config) w).2 = store w
       | inr _ => True
       end.
Proof.
  unfold Client.refreshToken, Client.refresh_body.
  cbn [bind exec emit await storage_get fetch].
  destruct (negb (truthy _) && _).
  { exists []. repeat split. }
  cbn [bind exec]. unfold do_fetch. cbn [f_signal].
  destruct (reply (net _)) as [resp|]; cbn [bind exec].
  2:{ simpl. rewrite <- app_assoc. eexists. repeat split. }
  destruct (negb (ok resp)); cbn [bind exec].
  { simpl. rewrite <- !app_assoc. eexists. repeat split. }
  unfold read_json. cbn [bind exec]. destruct (json resp) as [[|j]|]; cbn [bind exec].
  1,3:(simpl; rewrite <- !app_assoc; eexists; repeat split).
  cbn [date_now bind exec await storage_set t_accessToken t_refreshToken t_expiresAt].
  destruct (j_refreshToken j) as [r|];
    [cbn [when truthy]; destruct (negb (String.eqb r EmptyString))|];
    cbn [bind exec await storage_set];
    (destruct (truthy_num (j_expiresIn j));
     [destruct (j_expiresIn j) as [x|]; cbn [fmap option_fmap option_map];
      [cbn [when truthy_num];
       match goal with |- context [negb (?a =? 0)%Z] =>
         destruct (negb (a =? 0)%Z) end|]|]);
    cbn [bind exec await storage_set];
    destruct (onTokenRefresh config); simpl;
    rewrite <- ?app_assoc; simpl; eexists; repeat split.
Qed.

End ClientFacts.

Section ClientFacts2.

Variable net : nat -> NetReply.
Variable config : HttpClientConfig.

Lemma exec_buildHeaders_skip w :
  exec net (Client.buildHeaders config true) w = (inr (base_headers config), w).
Proof. reflexivity. Qed.

(** [buildHeaders({ skipAuth: false })]: in header mode, refresh first
    when the token is expiring and refresh is automatic, whatever that
    refresh returns, then attach the token read afterwards. *)
Lemma exec_buildHeaders w :
  exec net (Client.buildHeaders config false) w =
  if is_jwt (authMode config) then
    let w1 := if autoRefresh config && token_expired w
              then (exec net (Client.refreshToken config) w).2 else w in
    (inr (auth_headers config (store w1)), w1)
  else (inr (base_headers config), w).
Proof.
  unfold Client.buildHeaders. fold (base_headers config).
  destruct (is_jwt (authMode config)) eqn:Hj; [|reflexivity].
  cbn [negb]. rewrite exec_bind.
  assert (Hexp : exec net (if autoRefresh config then await Client.isTokenExpired else Ret false) w
                 = (inr (autoRefresh config && token_expired w), w)).
  { destruct (autoRefresh config); [|reflexivity].
    rewrite exec_await, exec_isTokenExpired. reflexivity. }
  rewrite Hexp. rewrite exec_bind.
  assert (Htok : forall w1, exec net (let* token := await (Client.getAccessToken config) in
        Ret match token with
         | Some t => if truthy (Some t) then <["Authorization":="Bearer " +:+ t]> (base_headers config) else base_headers config
         | None => base_headers config end) w1 = (inr (auth_headers config (store w1)), w1)).
  { intros w1. rewrite exec_bind, exec_await, exec_getAccessToken. reflexivity. }
  destruct (autoRefresh config && token_expired w); cbn [when].
  - rewrite exec_catch, exec_bind, exec_await.
    destruct (exec net (Client.refreshToken config) w) as [[e|t] w1]; cbn [exec snd]; apply Htok.
  - cbn [exec]. apply Htok.
Qed.
End ClientFacts2.

Lemma refresh_evs_quiet (rest : list Event) :
  forallb refresh_ev rest = true ->
  num_refreshes rest = 0 /\ num_fetches Original rest = 0 /\
  num_fetches Retry rest = 0 /\ num_auth_errors rest = 0 /\
  (forall e, e ∈ rest -> refresh_ev e = true).
Proof.
  intros H. repeat split;
    try (apply count_refresh_evs; [intros [] He; try discriminate He; try reflexivity|exact H]).
  - destruct site; try discriminate He; reflexivity.
  - destruct site; try discriminate He; reflexivity.
  - intros e He. rewrite forallb_forall in H. apply H. apply list_elem_of_In. exact He.
Qed.

Section RequestFacts.

Variable net : nat -> NetReply.
Variable config : HttpClientConfig.

Lemma exec_parseError resp w :
  if null_body resp
  then exec net (Client.parseError resp) w = (inl TypeError, w)
  else exists m c d,
         exec net (Client.parseError resp) w
         = (inr (BaasixError m (status resp) c d), w).
Proof.
  unfold Client.parseError, read_json, null_body. cbn [catch bind exec].
  destruct (json resp) as [[|j]|]; cbn [catch bind exec]; eauto.
Qed.

Lemma exec_fetch site url init w :
  exec net (fetch site url init) w = do_fetch net site url init w.
Proof.
  unfold fetch. cbn [exec].
  destruct (do_fetch net site url init w) as [[e|r] w']; reflexivity.
Qed.

Lemma do_fetch_cases site url init w :
  let r := (do_fetch net site url init w).1 in
  let w' := (do_fetch net site url init w).2 in
  store w' = store w /\
  ((exists resp, r = inr resp /\
      log w' = log w ++ [EvFetch site url init; EvResponse site (status resp)])
   \/ ((exists m, r = inl (OtherError m)) /\ log w' = log w ++ [EvFetch site url init])
   \/ (r = inl AbortError /\ (exists d, f_signal init = SigTimeout d) /\
       log w' = log w ++ [EvFetch site url init; EvCancelled site])).
Proof.
  unfold do_fetch. cbn zeta.
  assert (Hans : forall w1 : World, store w1 = store w -> log w1 = log w ++ [EvFetch site url init] ->
    let a := match reply (net (calls w)) with
    | Some resp => (inr resp, add_log (EvResponse site (status resp)) w1)
    | None => (inl (OtherError "Failed to fetch"), w1) end in
    store a.2 = store w /\
    ((exists resp, a.1 = inr resp /\ log a.2 = log w ++ [EvFetch site url init; EvResponse site (status resp)])
     \/ ((exists m, a.1 = inl (OtherError m)) /\ log a.2 = log w ++ [EvFetch site url init])
     \/ (a.1 = @inl Error Response AbortError /\ (exists d, f_signal init = SigTimeout d) /\
          log a.2 = log w ++ [EvFetch site url init; EvCancelled site]))).
  { intros w1 Hs Hl. destruct (reply (net (calls w))) as [resp|]; cbn.
    - split; [exact Hs|]. left. exists resp. split; [reflexivity|].
      rewrite Hl, <- app_assoc. reflexivity.
    - split; [exact Hs|]. right. left. split; [eauto|exact Hl]. }
  destruct (f_signal init) as [|d|] eqn:Hsig;
    [apply Hans; reflexivity| |apply Hans; reflexivity].
  destruct (d <=? _)%Z; [|apply Hans; reflexivity].
  cbn. split; [reflexivity|]. right. right.
  split; [reflexivity|]. split; [eauto|]. rewrite <- app_assoc. reflexivity.
Qed.

(** The headers come back with the log grown by at most one refresh. *)
Lemma buildHeaders_cases w :
  let w' := (exec net (Client.buildHeaders config false) w).2 in
  (exec net (Client.buildHeaders config false) w).1
    = inr (built_headers config (store w'))
  /\ (w' = w \/
      exists rest, log w' = log w ++ EvRefreshBody :: rest
                   /\ forallb refresh_ev rest = true).
Proof.
  rewrite exec_buildHeaders. unfold built_headers.
  destruct (is_jwt (authMode config)); cbn; [|auto].
  destruct (autoRefresh config && token_expired w); cbn; [|auto].
  split; [reflexivity|]. right.
  destruct (exec_refreshToken net config w) as (rest & H1 & H2 & _). eauto.
Qed.

End RequestFacts.

Ltac count_simpl :=
  unfold num_refreshes, num_fetches, num_auth_errors in *;
  repeat (rewrite ?count_app, ?count_cons, ?count_nil in * );
  cbn [is_refresh_start is_fetch_at is_auth_error] in *;
  repeat match goal with
  | |- context [bool_decide (?a = ?b)] =>
      let v := eval vm_compute in (bool_decide (a = b)) in
      change (bool_decide (a = b)) with v
  | H : context [bool_decide (?a = ?b)] |- _ =>
      let v := eval vm_compute in (bool_decide (a = b)) in
      change (bool_decide (a = b)) with v in H
  end.

Ltac norm_app :=
  repeat first [progress rewrite <- app_assoc | progress cbn [app]].

Ltac mem_cases :=
  repeat match goal with
  | H : _ ∈ _ :: _ |- _ => apply elem_of_cons in H; destruct H as [H|H]
  | H : _ ∈ _ ++ _ |- _ => apply elem_of_app in H; destruct H as [H|H]
  | H : _ ∈ [] |- _ => apply elem_of_nil in H; destruct H
  | H : ?e ∈ ?rest, Q : forall e, e ∈ ?rest -> refresh_ev e = true |- _ =>
      apply Q in H; discriminate H
  | H : ?e ∈ ?rest,
    Q : forall e, e ∈ ?rest -> is_refresh_start e = true \/ refresh_ev e = true
    |- _ => apply Q in H; destruct H as [H|H]; discriminate H
  | H : @eq Event _ _ |- _ => first [discriminate H | injection H as ?; subst]
  end.

Section RetryFacts.

Variable net : nat -> NetReply.
Variable config : HttpClientConfig.

(** Lines 284-297 and 305-318: what is made of a response. *)
Lemma exec_deliver (rawResponse : bool) resp w :
  exists r,
    exec net
      (if negb (ok resp) then
         let* e := await (Client.parseError resp) in Throw e
       else if rawResponse then Ret (VResponse resp)
       else if (status resp =? 204)%Z then Ret VEmptyObject
       else let* j := read_json resp in Ret (parsed j)) w = (r, w)
    /\ (ok resp = false ->
          if null_body resp then r = inl TypeError
          else exists m c d, r = inl (BaasixError m (status resp) c d))
    /\ (failed r -> ok resp = true -> exists m, r = inl (OtherError m)).
Proof.
  destruct (ok resp) eqn:Hok; cbn [negb].
  - destruct rawResponse; [eexists; repeat split; [discriminate|intros []]|].
    destruct (status resp =? 204)%Z; [eexists; repeat split; [discriminate|intros []]|].
    unfold read_json. cbn [bind exec].
    destruct (json resp); cbn [bind exec]; eexists; repeat split;
      try discriminate; try (intros []); eauto.
  - rewrite exec_bind, exec_await.
    pose proof (exec_parseError net resp w) as Hp.
    destruct (null_body resp).
    + rewrite Hp. cbn [exec]. eexists; repeat split; eauto; discriminate.
    + destruct Hp as (m & c & d & ->). cbn [exec].
      eexists; repeat split; eauto; discriminate.
Qed.

Lemma exec_auth_error_handler (e : Error) w :
  exec net (let* _ := when (onAuthError config) (emit EvAuthError) in
            @Throw Value e) w
  = (inl e, if onAuthError config then add_log EvAuthError w else w).
Proof. destruct (onAuthError config); reflexivity. Qed.

Lemma refresh_and_retry_trace method url opts w :
  let res := (exec net (Client.refresh_and_retry config method url opts) w).1 in
  let w' := (exec net (Client.refresh_and_retry config method url opts) w).2 in
  exists evs,
    log w' = log w ++ evs /\
    head evs = Some EvRefreshBody /\
    num_fetches Original evs = 0 /\
    1 <= num_refreshes evs <= 2 /\
    num_fetches Retry evs <= 1 /\
    (failed (exec net (Client.refreshToken config) w).1 ->
       num_fetches Retry evs = 0 /\ num_refreshes evs = 1) /\
    (~ failed (exec net (Client.refreshToken config) w).1 ->
       num_fetches Retry evs = 1) /\
    (num_fetches Retry evs = 0 -> failed res) /\
    (failed res -> num_auth_errors evs = handler_runs config) /\
    (EvResponse Retry 401 ∈ evs ->
       (exists m c d, res = inl (BaasixError m 401 c d))
       \/ res = inl TypeError) /\
    (forall u init, EvFetch Retry u init ∈ evs -> opt_headers opts = None ->
       f_headers init = built_headers config (store w')) /\
    (forall u init d, EvFetch Retry u init ∈ evs -> f_signal init <> SigTimeout d) /\
    (forall e, (exec net (Client.refreshToken config) w).1 = inl e ->
       res = inl e).
Proof.
  unfold Client.refresh_and_retry. rewrite exec_catch, exec_bind, exec_await.
  destruct (exec_refreshToken net config w) as (rest & Hlog1 & Hrest & Hst).
  destruct (refresh_evs_quiet rest Hrest) as (Q1 & Q2 & Q3 & Q4 & Q5).
  destruct (exec net (Client.refreshToken config) w) as [[e|t] w1] eqn:E1;
    cbn [fst snd] in *.
  - (* the refresh failed *)
    rewrite exec_auth_error_handler. cbn [fst snd].
    exists (EvRefreshBody :: rest ++ (if onAuthError config then [EvAuthError] else [])).
    unfold handler_runs.
    destruct (onAuthError config); cbn [add_log log failed];
      rewrite Hlog1, <- ?app_assoc; cbn [app]; count_simpl.
    all: rewrite ?app_nil_r, Q1, Q2, Q3, Q4.
    all: repeat split; auto; try lia.
    all: intros; mem_cases; try congruence.
  - (* the refresh succeeded: headers are rebuilt, then one retry *)
    rewrite exec_bind, exec_await.
    destruct (buildHeaders_cases net config w1) as [Hh Hw2].
    destruct (exec net (Client.buildHeaders config false) w1) as [[e2|h] w2];
      cbn [fst snd] in *; [discriminate Hh|]. injection Hh as ->.
    assert (Hlog2 : exists evs2, log w2 = log w ++ EvRefreshBody :: rest ++ evs2
              /\ num_refreshes evs2 <= 1 /\ num_fetches Original evs2 = 0
              /\ num_fetches Retry evs2 = 0 /\ num_auth_errors evs2 = 0
              /\ (forall e, e ∈ evs2 -> is_refresh_start e = true \/ refresh_ev e = true)).
    { destruct Hw2 as [->|(rest2 & Hl2 & Hr2)].
      - exists []. rewrite app_nil_r. repeat split; auto. intros e He. inversion He.
      - destruct (refresh_evs_quiet rest2 Hr2) as (R1 & R2 & R3 & R4 & R5).
        exists (EvRefreshBody :: rest2). rewrite Hl2, Hlog1, <- app_assoc.
        count_simpl. rewrite R1, R2, R3, R4. repeat split; auto.
        intros e [->|He]%elem_of_cons; auto. }
    destruct Hlog2 as (evs2 & Hlog2 & S1 & S2 & S3 & S4 & S5). clear Hw2.
    rewrite exec_bind, exec_fetch.
    match goal with |- context [do_fetch net Retry url ?i w2] => set (init := i) end.
    assert (Hinit : opt_headers opts = None ->
                    f_headers init = built_headers config (store w2)).
    { intros Hn. subst init. cbn. rewrite Hn. cbn. apply (left_id_L ∅ (∪)). }
    assert (Hsig : forall d, f_signal init <> SigTimeout d).
    { intros d. subst init. cbn. destruct (opt_signal opts); discriminate. }
    destruct (do_fetch_cases net Retry url init w2) as [Hs3 Hf].
    clearbody init.
    destruct (do_fetch net Retry url init w2) as [[e3|resp] w3]; cbn [fst snd] in *.
    + (* the retry got no response *)
      rewrite exec_auth_error_handler. cbn [fst snd].
      assert (Hl3 : log w3 = log w2 ++ [EvFetch Retry url init]).
      { destruct Hf as [(r & Hr & _)|[[_ Hl]|(_ & (d & Hd) & _)]];
          [discriminate Hr|exact Hl|destruct (Hsig d Hd)]. }
      exists (EvRefreshBody :: rest ++ evs2 ++ [EvFetch Retry url init]
                ++ (if onAuthError config then [EvAuthError] else [])).
      unfold handler_runs.
      destruct (onAuthError config); cbn [add_log log failed store];
        rewrite Hl3, Hlog2; norm_app; count_simpl;
        rewrite ?app_nil_r, Q1, Q2, Q3, Q4, S2, S3, S4; cbn [store].
      all: repeat split; auto; try lia; try (intros []; fail).
      all: intros; mem_cases; rewrite ?Hs3; auto; try congruence.

    + (* the retry got a response *)
      assert (Hl3 : log w3 = log w2 ++
                      [EvFetch Retry url init; EvResponse Retry (status resp)]).
      { destruct Hf as [(r & Hr & Hl)|[[(m & Hm) _]|(Hm & _)]];
          [injection Hr as <-; exact Hl|discriminate Hm|discriminate Hm]. }
      destruct (exec_deliver (opt_rawResponse opts) resp w3) as (r & -> & Hbad & Hok).
      assert (H401 : status resp = 401%Z ->
                     (exists m c d, r = inl (BaasixError m 401 c d))
                     \/ r = inl TypeError).
      { intros H4.
        assert (Hno : ok resp = false) by (unfold ok; rewrite H4; reflexivity).
        specialize (Hbad Hno). destruct (null_body resp); [auto|].
        destruct Hbad as (m & c & d & ->). rewrite H4. eauto. }
      destruct r as [e4|v].
      * rewrite exec_auth_error_handler. cbn [fst snd].
        exists (EvRefreshBody :: rest ++ evs2
                  ++ [EvFetch Retry url init; EvResponse Retry (status resp)]
                  ++ (if onAuthError config then [EvAuthError] else [])).
        unfold handler_runs.
        destruct (onAuthError config); cbn [add_log log failed store];
          rewrite Hl3, Hlog2; norm_app; count_simpl;
          rewrite ?app_nil_r, Q1, Q2, Q3, Q4, S2, S3, S4; cbn [store].
        all: repeat split; auto; try lia; try (intros []; fail).
        all: intros; mem_cases; rewrite ?Hs3; auto; try congruence.
      * exists (EvRefreshBody :: rest ++ evs2
                  ++ [EvFetch Retry url init; EvResponse Retry (status resp)]).
        cbn [fst snd failed]. rewrite Hl3, Hlog2; norm_app; count_simpl;
          rewrite ?app_nil_r, Q1, Q2, Q3, Q4, S2, S3, S4; cbn [store].
        repeat split; auto; try lia; try (intros []; fail).
        all: intros; mem_cases; rewrite ?Hs3; auto; try congruence.
Qed.
End RetryFacts.

Section PipelineTheorems.

Variable net : nat -> NetReply.
Variable config : HttpClientConfig.

Lemma exec_surface (e : Error) w :
  exists e', exec net (Client.surface e) w = (inl e', w)
             /\ (forall m s c d, e = BaasixError m s c d -> e' = e).
Proof.
  destruct e; cbn; eexists; (split; [reflexivity|]); intros; try discriminate; auto.
Qed.

Lemma failed_dec {A : Type} (r : Error + A) : failed r \/ ~ failed r.
Proof. destruct r; cbn; auto. Qed.

Lemma exec_original_attempt method path opts w :
  exec net (original_attempt config method path opts) w
  = match exec net (Client.buildHeaders config (opt_skipAuth opts)) w with
    | (inl e, w1) => (inl e, w1)
    | (inr headers, w1) =>
        do_fetch net Original (Client.buildUrl config path)
          (Client.spread opts
             {| f_method := method;
                f_headers := default ∅ (opt_headers opts) ∪ headers;
                f_body := NoBody;
                f_credentials := credentials config;
                f_signal :=
                  SigTimeout
                    (now w1 +
                     match opt_timeout opts with
                     | Some t => if truthy_num (Some t) then t else timeout config
                     | None => timeout config
                     end) |}) w1
    end.
Proof.
  unfold original_attempt. rewrite exec_bind, exec_await.
  destruct (exec net (Client.buildHeaders config (opt_skipAuth opts)) w)
    as [[e|h] w1]; [reflexivity|].
  cbn [date_now bind exec]. apply exec_fetch.
Qed.

Lemma exec_surface_eq (e : Error) w :
  exec net (Client.surface e) w = (inl (surfaced e), w).
Proof. destruct e; reflexivity. Qed.

(** What one call of [request] leaves in the log, when authentication is
    not skipped and automatic refresh is enabled. *)
Lemma request_trace method path opts w :
  autoRefresh config = true -> opt_skipAuth opts = false ->
  let first := exec net (original_attempt config method path opts) w in
  let res := (exec net (Client.request config method path opts) w).1 in
  let w' := (exec net (Client.request config method path opts) w).2 in
  exists evs,
    log w' = log w ++ evs /\
    num_fetches Original evs = 1 /\
    num_fetches Retry evs <= 1 /\
    (forall resp, first.1 = inr resp -> status resp = 401%Z ->
       let refresh := (exec net (Client.refreshToken config) first.2).1 in
       exists pre post,
         log first.2 = log w ++ pre /\
         evs = pre ++ post /\
         last pre = Some (EvResponse Original 401) /\
         num_fetches Retry pre = 0 /\
         head post = Some EvRefreshBody /\
         (forall e, refresh = inl e ->
            num_refreshes post = 1 /\ num_fetches Retry post = 0 /\
            res = inl (surfaced e) /\
            num_auth_errors post = handler_runs config) /\
         (~ failed refresh ->
            1 <= num_refreshes post <= 2 /\ num_fetches Retry post = 1)) /\
    (EvResponse Retry 401 ∈ evs ->
       ((exists m c d, res = inl (BaasixError m 401 c d))
        \/ res = inl (surfaced TypeError)) /\
       num_auth_errors evs = handler_runs config) /\
    (forall u init, EvFetch Retry u init ∈ evs -> opt_headers opts = None ->
       f_headers init = built_headers config (store w')) /\
    (forall u init d, EvFetch Retry u init ∈ evs -> f_signal init <> SigTimeout d).
Proof.
  intros Hauto Hskip. cbv zeta.
  rewrite exec_original_attempt.
  unfold Client.request. rewrite Hskip, Hauto.
  rewrite exec_bind, exec_await.
  destruct (buildHeaders_cases net config w) as [Hh Hw1].
  destruct (exec net (Client.buildHeaders config false) w) as [[e0|h] w1];
    cbn [fst snd] in *; [discriminate Hh|]. injection Hh as ->.
  assert (Hlog1 : exists evs0, log w1 = log w ++ evs0
            /\ num_fetches Original evs0 = 0
            /\ num_fetches Retry evs0 = 0 /\ num_auth_errors evs0 = 0
            /\ (forall e, e ∈ evs0 -> is_refresh_start e = true \/ refresh_ev e = true)).
  { destruct Hw1 as [->|(rest & Hl & Hr)].
    - exists []. rewrite app_nil_r. repeat split; auto. intros e He. inversion He.
    - destruct (refresh_evs_quiet rest Hr) as (R1 & R2 & R3 & R4 & R5).
      exists (EvRefreshBody :: rest). rewrite Hl.
      count_simpl. rewrite R2, R3, R4. repeat split; auto.
      intros e [->|He]%elem_of_cons; auto. }
  destruct Hlog1 as (evs0 & Hlog1 & S2 & S3 & S4 & S5). clear Hw1.
  cbn [date_now bind exec]. rewrite exec_catch, exec_bind, exec_fetch.
  match goal with |- context [do_fetch net Original ?u ?i w1] =>
    set (url := u); set (init := i) end.
  destruct (do_fetch_cases net Original url init w1) as [Hs2 Hf].
  clearbody init.
  destruct (do_fetch net Original url init w1) as [[e1|resp] w2]; cbn [fst snd] in *.
  - (* no response to the original attempt *)
    rewrite exec_surface_eq. cbn [fst snd].
    destruct Hf as [(r & Hr & _)|[[_ Hl]|(_ & _ & Hl)]]; [discriminate Hr| |].
    + exists (evs0 ++ [EvFetch Original url init]).
      rewrite Hl, Hlog1. norm_app. count_simpl. rewrite S2, S3.
      repeat split; auto; intros; mem_cases; try discriminate.
    + exists (evs0 ++ [EvFetch Original url init; EvCancelled Original]).
      rewrite Hl, Hlog1. norm_app. count_simpl. rewrite S2, S3.
      repeat split; auto; intros; mem_cases; try discriminate.
  - assert (Hl2 : log w2 = log w1 ++
                    [EvFetch Original url init; EvResponse Original (status resp)]).
    { destruct Hf as [(r & Hr & Hl)|[[(m & Hm) _]|(Hm & _)]];
        [injection Hr as <-; exact Hl|discriminate Hm|discriminate Hm]. }
    cbn [negb andb]. rewrite andb_true_r.
    destruct (status resp =? 401)%Z eqn:H401.
    + (* 401: refresh, then retry *)
      apply Z.eqb_eq in H401. cbn [andb].
      destruct (refresh_and_retry_trace net config method url opts w2)
        as (evsr & Hlr & T1 & T2 & T3 & T4 & T5 & T6 & T7 & T8 & T9 & T10 & T11 & T12).
      assert (Hres : exists res,
                (let (s, w') := exec net (Client.refresh_and_retry config method url opts) w2 in
                 match s with
                 | inl e => exec net (Client.surface e) w'
                 | inr a => (inr a, w')
                 end)
                = (res, (exec net (Client.refresh_and_retry config method url opts) w2).2)
                /\ res = match (exec net (Client.refresh_and_retry config method url opts) w2).1 with
                         | inl e => inl (surfaced e)
                         | inr a => inr a
                         end).
      { destruct (exec net (Client.refresh_and_retry config method url opts) w2)
          as [[e2|v] w3]; cbn [fst snd]; [rewrite exec_surface_eq|]; eauto. }
      destruct Hres as (res & -> & Hres). cbn [fst snd].
      set (rr := exec net (Client.refresh_and_retry config method url opts) w2) in *.
      exists (evs0 ++ [EvFetch Original url init; EvResponse Original 401] ++ evsr).
      rewrite Hlr, Hl2, Hlog1, H401. norm_app. count_simpl. rewrite S2, S3, S4.
      rewrite T2. split; [reflexivity|]. split; [reflexivity|]. split; [lia|].
      split; [|split; [|split]].
      * intros resp' Heq _. injection Heq as <-.
        exists (evs0 ++ [EvFetch Original url init; EvResponse Original 401]), evsr.
        norm_app. count_simpl. rewrite S3.
        split; [reflexivity|]. split; [reflexivity|].
        split; [rewrite last_app; reflexivity|].
        split; [reflexivity|]. split; [exact T1|]. split.
        -- intros e He.
           assert (Hfail : failed (exec net (Client.refreshToken config) w2).1)
             by (rewrite He; exact I).
           destruct (T5 Hfail) as [A B].
           rewrite Hres, (T12 e He).
           repeat split; auto.
        -- intros Hok. split; [exact T3|]. apply T6. exact Hok.
      * intros Hin.
        assert (Hin' : EvResponse Retry 401 ∈ evsr) by (mem_cases; exact Hin).
        destruct (T9 Hin') as [(m & c & d & Heq)|Heq].
        -- rewrite Hres, Heq. split; [left; eauto|]. apply T8. rewrite Heq. exact I.
        -- rewrite Hres, Heq. split; [right; reflexivity|]. apply T8. rewrite Heq. exact I.
      * intros u i Hin Hn. mem_cases. apply (T10 u i); auto.
      * intros u i d Hin. mem_cases. apply (T11 u i); auto.
    + (* any other status *)
      apply Z.eqb_neq in H401. cbn [andb].
      destruct (exec_deliver net (opt_rawResponse opts) resp w2) as (r & -> & _ & _).
      assert (Hfin : exists res,
                (let (s, w') := (r, w2) in
                 match s with
                 | inl e => exec net (Client.surface e) w'
                 | inr a => (inr a, w')
                 end) = (res, w2)).
      { destruct r as [e|v]; [|eauto]. rewrite exec_surface_eq. eauto. }
      destruct Hfin as (res & ->). cbn [fst snd].
      exists (evs0 ++ [EvFetch Original url init; EvResponse Original (status resp)]).
      rewrite Hl2, Hlog1. norm_app. count_simpl. rewrite S2, S3.
      repeat split; auto; intros; mem_cases; congruence.
Qed.

(** C2, as amended.  With authentication not skipped and automatic
    refresh enabled, a request makes the original attempt once and at
    most one retry.  When the original attempt is answered 401, what
    follows starts with a call of [refreshToken], and the outcome of
    that refresh decides the rest: if it fails there is no retry and no
    further refresh, the request fails with that failure as the outer
    [catch] surfaces it, and the authentication-lost handler runs once
    (when one is registered); if it succeeds the headers are rebuilt
    (which may start one more refresh, so one or two refreshes follow
    the 401) and the call is retried exactly once, with the rebuilt
    headers when the caller passed none of its own.  A 401 on the retry
    is not retried: the request fails, with status 401 or, when the
    body of that answer is [null], as a network error, and the handler
    runs exactly once (when one is registered). *)
Theorem request_401_refreshes_then_retries_once method path opts w :
  autoRefresh config = true -> opt_skipAuth opts = false ->
  let first := exec net (original_attempt config method path opts) w in
  let res := (exec net (Client.request config method path opts) w).1 in
  let w' := (exec net (Client.request config method path opts) w).2 in
  exists evs,
    log w' = log w ++ evs /\
    num_fetches Original evs = 1 /\
    num_fetches Retry evs <= 1 /\
    (forall resp, first.1 = inr resp -> status resp = 401%Z ->
       let refresh := (exec net (Client.refreshToken config) first.2).1 in
       exists pre post,
         log first.2 = log w ++ pre /\
         evs = pre ++ post /\
         last pre = Some (EvResponse Original 401) /\
         num_fetches Retry pre = 0 /\
         head post = Some EvRefreshBody /\
         (forall e, refresh = inl e ->
            num_refreshes post = 1 /\ num_fetches Retry post = 0 /\
            res = inl (surfaced e) /\
            num_auth_errors post = handler_runs config) /\
         (~ failed refresh ->
            1 <= num_refreshes post <= 2 /\ num_fetches Retry post = 1)) /\
    (EvResponse Retry 401 ∈ evs ->
       ((exists m c d, res = inl (BaasixError m 401 c d))
        \/ res = inl (surfaced TypeError)) /\
       num_auth_errors evs = handler_runs config) /\
    (forall u init, EvFetch Retry u init ∈ evs -> opt_headers opts = None ->
       f_headers init = built_headers config (store w')).
Proof.
  intros Hauto Hskip.
  destruct (request_trace method path opts w Hauto Hskip)
    as (evs & H1 & H2 & H3 & H4 & H5 & H6 & _).
  exists evs. auto 10.
Qed.

(** The retry of [request] is issued without the controller's signal:
    whatever the options, no retry in the log carries a deadline. *)
Lemma retry_carries_no_deadline method path opts w :
  autoRefresh config = true -> opt_skipAuth opts = false ->
  forall d, SigTimeout d ∉
    fetch_signals Retry
      (drop (length (log w))
         (log (exec net (Client.request config method path opts) w).2)).
Proof.
  intros Hauto Hskip d.
  destruct (request_trace method path opts w Hauto Hskip)
    as (evs & H1 & _ & _ & _ & _ & _ & H7).
  cbv zeta in H1. rewrite H1, drop_app_length.
  unfold fetch_signals. rewrite list_elem_of_omap.
  intros ([] & Hin & Heq); try discriminate.
  destruct (bool_decide _) eqn:Hs in Heq; [|discriminate].
  apply bool_decide_eq_true in Hs. subst. injection Heq as Heq.
  exact (H7 _ _ _ Hin Heq).
Qed.

Lemma do_fetch_log site url init w :
  exists tail,
    log (do_fetch net site url init w).2 = log w ++ EvFetch site url init :: tail.
Proof.
  destruct (do_fetch_cases net site url init w)
    as [_ [(r & _ & H)|[[_ H]|(_ & _ & H)]]]; rewrite H; eauto.
Qed.

Lemma exec_log_extends {A : Type} (p : Prog A) w :
  exists evs, log (exec net p w).2 = log w ++ evs.
Proof.
  revert w.
  induction p as [a|e|key k IH|key v k IH|key k IH|k IH|ev k IH|k IH|site url init k IH];
    intros w; cbn [exec].
  - exists []. cbn. rewrite app_nil_r. reflexivity.
  - exists []. cbn. rewrite app_nil_r. reflexivity.
  - apply IH.
  - destruct (IH (set_store (Storage.set key v) w)) as (evs & ->). eauto.
  - destruct (IH (set_store (Storage.remove key) w)) as (evs & ->). eauto.
  - apply IH.
  - destruct (IH (add_log ev w)) as (evs & ->). cbn. rewrite <- app_assoc. eauto.
  - apply IH.
  - destruct (do_fetch_log site url init w) as (tail & Hl).
    destruct (do_fetch net site url init w) as [r w1]. cbn [snd] in Hl.
    destruct (IH r w1) as (evs & ->). rewrite Hl, <- app_assoc. eauto.
Qed.

Lemma parseInt_truthy s e : parseInt s = Some e -> truthy (Some s) = true.
Proof. destruct s; [discriminate|reflexivity]. Qed.

(** C7, as amended.  In header mode with authentication not skipped and
    automatic refresh enabled, when the stored expiry [e] satisfies
    [now >= e - 60000] the request first runs a refresh; whatever that
    refresh returns, the original network call is then made, and (for a
    caller that passes no headers of its own) it carries the headers built
    from the store as the refresh left it: the static token if one is
    configured, otherwise the stored access token.  A failed refresh
    leaves the store as it was. *)
Theorem request_refreshes_expiring_token_first method path opts w s e :
  authMode config = Jwt -> autoRefresh config = true ->
  opt_skipAuth opts = false ->
  store w !! Storage.TOKEN_EXPIRY = Some s -> parseInt s = Some e ->
  (e - 60000 <= now w)%Z ->
  let r1 := (exec net (Client.refreshToken config) w).1 in
  let w1 := (exec net (Client.refreshToken config) w).2 in
  let w' := (exec net (Client.request config method path opts) w).2 in
  exists rest1 init rest2,
    log w1 = log w ++ EvRefreshBody :: rest1 /\
    forallb refresh_ev rest1 = true /\
    log w' = log w1 ++ EvFetch Original (Client.buildUrl config path) init :: rest2 /\
    (opt_headers opts = None ->
       f_headers init = auth_headers config (store w1)) /\
    (failed r1 -> store w1 = store w).
Proof.
  intros Hjwt Hauto Hskip Hexp Hparse Hle. cbn zeta.
  destruct (exec_refreshToken net config w) as (rest1 & Hl1 & Hr1 & Hst).
  assert (Hexpired : token_expired w = true).
  { unfold token_expired. rewrite Hexp, (parseInt_truthy s e Hparse), Hparse.
    cbn. apply Z.leb_le. lia. }
  unfold Client.request. rewrite Hskip, exec_bind, exec_await, exec_buildHeaders.
  rewrite Hjwt, Hauto, Hexpired. cbn [is_jwt andb].
  set (w1 := (exec net (Client.refreshToken config) w).2) in *.
  cbn [date_now bind exec catch fetch].
  match goal with |- context [do_fetch net Original ?u ?i w1] =>
    set (init := i);
    destruct (do_fetch_log Original u init w1) as (tail & Hl2);
    destruct (do_fetch net Original u init w1) as [r w2] end.
  cbn [snd] in Hl2.
  match goal with |- context [exec net ?p w2] =>
    destruct (exec_log_extends p w2) as (evs & Hev) end.
  exists rest1, init, (tail ++ evs).
  split; [exact Hl1|]. split; [exact Hr1|].
  split; [rewrite Hev, Hl2, <- app_assoc; reflexivity|]. split.
  - intros Hn. cbn. rewrite Hn. cbn. apply (left_id_L ∅ (∪)).
  - destruct (exec net (Client.refreshToken config) w).1; [auto|intros []].
Qed.

End PipelineTheorems.

(** ** The refresh coordinator: one refresh at a time *)

Module CoordinatorFacts.
Import Coordinator.

Lemma fetches_of_snoc q p ev (l : list (nat * Event)) :
  fetches_of q (l ++ [(p, ev)])
  = fetches_of q l + (if is_fetch_of q (p, ev) then 1 else 0).
Proof.
  unfold fetches_of. rewrite List.filter_app, length_app. cbn [List.filter].
  destruct (is_fetch_of q (p, ev)); reflexivity.
Qed.

Lemma network_calls_snoc p ev (s : State) :
  network_calls (record p ev s)
  = network_calls s + (if is_fetch_entry (p, ev) then 1 else 0).
Proof.
  unfold network_calls. cbn [record c_log].
  rewrite List.filter_app, length_app. cbn [List.filter].
  destruct (is_fetch_entry (p, ev)); reflexivity.
Qed.

Lemma is_fetch_of_other q p ev : q <> p -> is_fetch_of q (p, ev) = false.
Proof.
  intros Hne. unfold is_fetch_of. cbn [fst].
  rewrite bool_decide_eq_false_2; [reflexivity|congruence].
Qed.

Lemma is_fetch_of_entry p ev : is_fetch_of p (p, ev) = is_fetch_entry (p, ev).
Proof.
  unfold is_fetch_of, is_fetch_entry. cbn [fst snd].
  rewrite bool_decide_eq_true_2; reflexivity.
Qed.

(** What running a body to its next suspension changes. *)
Lemma advance_spec p k n :
  uses_at_most n k ->
  forall s,
    let pr := (advance p k s).1 in
    let s' := (advance p k s).2 in
    refreshPromise s' = refreshPromise s /\ promises s' = promises s /\
    handed s' = handed s /\ delivered s' = delivered s /\
    (forall q, q <> p -> fetches_of q (c_log s') = fetches_of q (c_log s)) /\
    exists m,
      fetches_of p (c_log s') + m = fetches_of p (c_log s) + n /\
      network_calls s' + m = network_calls s + n /\
      match pr with Pending task => budget m task | Settled _ => True end.
Proof.
  induction 1 as [n a|n e|n key k H IH|n key v k H IH|n key k H IH|n k H IH
                  |n ev k Hev H IH|n k H|n site url init k H IH];
    intros s; cbn [advance fst snd].
  - repeat split; auto. exists n. auto.
  - repeat split; auto. exists n. auto.
  - apply IH.
  - apply (IH (with_store (Storage.set key v) s)).
  - apply (IH (with_store (Storage.remove key) s)).
  - apply IH.
  - destruct (IH (record p ev s)) as (A & B & C & D & E & m & F & G & I).
    split; [exact A|]. split; [exact B|]. split; [exact C|]. split; [exact D|].
    split.
    + intros q Hq. rewrite (E q Hq). cbn [record c_log].
      rewrite fetches_of_snoc, (is_fetch_of_other q p ev Hq). lia.
    + cbn [record c_log] in F. rewrite fetches_of_snoc in F.
      rewrite network_calls_snoc in G. rewrite is_fetch_of_entry in F.
      unfold is_fetch_entry in F, G. cbn [snd] in F, G. rewrite Hev in F, G.
      exists m. split; [lia|]. split; [lia|]. exact I.
  - repeat split; auto. exists n. auto.
  - repeat split; auto; cbn [record c_log].
    + intros q Hq. rewrite fetches_of_snoc, (is_fetch_of_other q p _ Hq). lia.
    + exists n. rewrite fetches_of_snoc, is_fetch_of_entry.
      change (network_calls _) with (network_calls (record p (EvFetch site url init) s)) at 1.
      rewrite network_calls_snoc. cbn [is_fetch_entry is_fetch_event snd].
      split; [lia|]. split; [lia|]. exact H.
Qed.

Lemma um_mono {A : Type} n (p : Prog A) :
  uses_at_most n p -> forall m, n <= m -> uses_at_most m p.
Proof.
  induction 1; intros m' Hle; try (constructor; auto; fail).
  destruct m' as [|m']; [lia|]. constructor. intros r.
  match goal with IH : forall r m, _ -> _ |- _ => apply IH end. lia.
Qed.

Lemma um_bind {A B : Type} n m k (p : Prog A) (f : A -> Prog B) :
  k = n + m ->
  uses_at_most n p -> (forall a, uses_at_most m (f a)) ->
  uses_at_most k (bind p f).
Proof.
  intros -> Hp Hf. induction Hp; cbn [bind]; try (constructor; auto; fail).
  apply (um_mono m); [apply Hf|lia].
Qed.

Ltac budget_step :=
  match goal with
  | |- uses_at_most _ (Ret _) => apply um_Ret
  | |- uses_at_most _ (Throw _) => apply um_Throw
  | |- uses_at_most _ (StorageGet _ _) => apply um_StorageGet; intros
  | |- uses_at_most _ (StorageSet _ _ _) => apply um_StorageSet
  | |- uses_at_most _ (StorageRemove _ _) => apply um_StorageRemove
  | |- uses_at_most _ (DateNow _) => apply um_DateNow; intros
  | |- uses_at_most _ (Emit _ _) => apply um_Emit; [reflexivity|]
  | |- uses_at_most _ (Await _) => apply um_Await
  | |- uses_at_most _ (Fetch _ _ _ _) => apply um_Fetch; intros
  | |- uses_at_most _ (if ?c then _ else _) => destruct c
  | |- uses_at_most _ (match ?x with _ => _ end) => destruct x
  | |- uses_at_most 1 (bind (fetch _ _ _) _) =>
      apply (um_bind 1 0); [reflexivity| |intros]
  | |- uses_at_most ?n (bind _ _) =>
      apply (um_bind 0 n); [reflexivity| |intros]
  | |- _ => progress unfold await, when, emit, storage_get, storage_set,
              date_now, read_json, fetch
  end.

Section Invariant.

Variable config : HttpClientConfig.

(** The body suspends at its first [await], before any network call, and
    from there makes at most one. *)
Lemma refresh_body_suspends p s :
  exists k,
    advance p (Client.refresh_body config) s
    = (Pending (Resumable k), record p EvRefreshBody s)
    /\ uses_at_most 1 k.
Proof.
  unfold Client.refresh_body. cbn [bind emit await storage_get advance].
  eexists. split; [reflexivity|].
  repeat budget_step.
Qed.

Lemma Inv_initial st t : Inv (initial st t).
Proof.
  split; cbn; try (intros; discriminate); try (intros; reflexivity); auto.
  intros i o H. inversion H.
Qed.

Lemma Inv_continue p k task s :
  Inv s -> promises s !! p = Some (Pending task) ->
  (forall n, budget n task -> uses_at_most n k) ->
  Inv (continue p k s).
Proof.
  intros HI Hp Hk.
  pose proof (inv_pending s HI p task Hp) as Hcur.
  pose proof (inv_current s HI) as Hc. rewrite Hcur in Hc.
  destruct Hc as (task' & n0 & Hp' & Hb & Hf & Hn).
  rewrite Hp in Hp'. injection Hp' as <-.
  pose proof (advance_spec p k n0 (Hk n0 Hb) s) as Hadv.
  unfold continue. destruct (advance p k s) as [pr s1]. cbn [fst snd] in Hadv.
  destruct Hadv as (A & B & C & D & E & m & F & G & I).
  assert (Hlt : p < length (promises s)) by (eapply lookup_lt_Some; eauto).
  assert (Hlog : c_log (finally pr s1) = c_log s1) by (destruct pr; reflexivity).
  assert (Hpr : promises (finally pr s1) = promises s) by (destruct pr; cbn; auto).
  assert (Hha : handed (finally pr s1) = handed s) by (destruct pr; cbn; auto).
  assert (Hde : delivered (finally pr s1) = delivered s) by (destruct pr; cbn; auto).
  assert (Hrp : refreshPromise (finally pr s1)
                = match pr with Pending _ => Some p | Settled _ => None end).
  { destruct pr; cbn; [congruence|reflexivity]. }
  unfold network_calls in *.
  split; unfold network_calls;
    cbn [with_promises refreshPromise promises handed delivered c_log];
    rewrite ?Hlog, ?Hpr, ?Hha, ?Hde, ?Hrp, ?length_insert.
  - intros q t Hq. destruct (decide (q = p)) as [->|Hne].
    + rewrite list_lookup_insert_eq in Hq by exact Hlt. injection Hq as ->. reflexivity.
    + rewrite list_lookup_insert_ne in Hq by congruence.
      pose proof (inv_pending s HI q t Hq). congruence.
  - destruct pr as [t|o].
    + exists t, m. rewrite list_lookup_insert_eq by exact Hlt.
      split; [reflexivity|]. split; [exact I|]. lia.
    + lia.
  - intros q. destruct (decide (q = p)) as [->|Hne]; [lia|].
    rewrite (E q Hne). apply (inv_fetches s HI).
  - intros q Hq. rewrite (E q) by lia. apply (inv_fresh s HI). exact Hq.
  - apply (inv_handed s HI).
  - intros i o Hio. destruct (inv_delivered s HI i o Hio) as (q & Hq1 & Hq2).
    exists q. split; [exact Hq1|].
    rewrite list_lookup_insert_ne; [exact Hq2|]. congruence.
Qed.

Lemma Inv_step l s : Inv s -> Inv (step config l s).
Proof.
  intros HI. destruct l as [|p|p r|call|ms|key value|key]; cbn [step].
  - (* Call *)
    unfold refreshToken. destruct (refreshPromise s) as [p|] eqn:Hrp.
    + pose proof (inv_current s HI) as Hc. rewrite Hrp in Hc.
      destruct Hc as (task & n & Hp & Hrest).
      split; cbn [hand refreshPromise promises handed delivered c_log].
      * apply (inv_pending s HI).
      * apply (inv_current s HI).
      * apply (inv_fetches s HI).
      * apply (inv_fresh s HI).
      * intros i q Hi. apply lookup_app_Some in Hi as [Hi|[_ Hi]].
        -- apply (inv_handed s HI i q Hi).
        -- apply list_lookup_singleton_Some in Hi as [_ <-].
           eapply lookup_lt_Some; eauto.
      * intros i o Hio. destruct (inv_delivered s HI i o Hio) as (q & Hq1 & Hq2).
        exists q. split; [|exact Hq2]. apply lookup_app_l_Some. exact Hq1.
    + destruct (refresh_body_suspends (length (promises s)) s) as (k & -> & Hk).
      pose proof (inv_current s HI) as Hc. rewrite Hrp in Hc.
      cbn [finally].
      split; cbn [hand with_refreshPromise with_promises record
                  refreshPromise promises handed delivered c_log].
      * intros q t Hq. apply lookup_app_Some in Hq as [Hq|[Hge Hq]].
        -- pose proof (inv_pending s HI q t Hq). congruence.
        -- apply list_lookup_singleton_Some in Hq as [Hq _]. f_equal. lia.
      * exists (Resumable k), 1. rewrite lookup_app_r, Nat.sub_diag by lia.
        split; [reflexivity|]. split; [exact Hk|].
        rewrite fetches_of_snoc, is_fetch_of_entry, length_app. cbn.
        rewrite (inv_fresh s HI) by lia.
        unfold network_calls in *. cbn [c_log].
        rewrite List.filter_app, length_app. cbn. lia.
      * intros q. rewrite fetches_of_snoc.
        unfold is_fetch_of. cbn [snd is_fetch_event]. rewrite andb_false_r.
        rewrite Nat.add_0_r. apply (inv_fetches s HI).
      * intros q Hq. rewrite length_app in Hq. cbn in Hq. rewrite fetches_of_snoc.
        unfold is_fetch_of. cbn [snd is_fetch_event]. rewrite andb_false_r.
        rewrite Nat.add_0_r. apply (inv_fresh s HI). lia.
      * intros i q Hi. rewrite length_app. cbn.
        apply lookup_app_Some in Hi as [Hi|[_ Hi]].
        -- pose proof (inv_handed s HI i q Hi). lia.
        -- apply list_lookup_singleton_Some in Hi as [_ <-]. lia.
      * intros i o Hio. destruct (inv_delivered s HI i o Hio) as (q & Hq1 & Hq2).
        exists q. split; apply lookup_app_l_Some; assumption.
  - (* Resume *)
    destruct (promises s !! p) as [[[k|k]|o]|] eqn:Hp; try exact HI.
    apply (Inv_continue p k (Resumable k)); auto.
  - (* Answer *)
    destruct (promises s !! p) as [[[k|k]|o]|] eqn:Hp; try exact HI.
    apply (Inv_continue p (k r) (AwaitingNetwork k)); auto.
  - (* Return *)
    destruct (handed s !! call) as [p|] eqn:Hc; [|exact HI].
    destruct (promises s !! p) as [[t|o]|] eqn:Hp; try exact HI.
    destruct (has_returned call s); [exact HI|].
    split; cbn [deliver refreshPromise promises handed delivered c_log];
      try apply HI.
    intros i o' [Hio|Hio]%elem_of_app.
    + apply (inv_delivered s HI i o' Hio).
    + apply list_elem_of_singleton in Hio. injection Hio as -> ->. eauto.
  - split; apply HI.
  - split; apply HI.
  - split; apply HI.
Qed.

Lemma Inv_run ls s : Inv s -> Inv (run config ls s).
Proof.
  revert s. induction ls as [|l ls IH]; intros s HI; [exact HI|].
  cbn [run foldl]. apply IH. apply Inv_step. exact HI.
Qed.

(** *** Progress *)

Lemma sw_mono {A : Type} n (p : Prog A) :
  settles_within n p -> forall m, n <= m -> settles_within m p.
Proof.
  induction 1; intros m' Hle; try (constructor; auto; fail).
  - destruct m' as [|m']; [lia|]. constructor. apply IHsettles_within. lia.
  - destruct m' as [|m']; [lia|]. constructor. intros r.
    match goal with IH : forall r m, _ -> _ |- _ => apply IH end. lia.
Qed.

Lemma sw_bind {A B : Type} n m k (p : Prog A) (f : A -> Prog B) :
  k = n + m ->
  settles_within n p -> (forall a, settles_within m (f a)) ->
  settles_within k (bind p f).
Proof.
  intros -> Hp Hf. induction Hp; cbn [bind]; try (constructor; auto; fail).
  apply (sw_mono m); [apply Hf|lia].
Qed.

Lemma lasts_mono n m task : lasts n task -> n <= m -> lasts m task.
Proof.
  destruct task as [k|k]; cbn [lasts]; intros H Hle.
  - apply (sw_mono n); assumption.
  - intros r. apply (sw_mono n); auto.
Qed.

(** Running a body to its next suspension uses one of them up. *)
Lemma advance_lasts p k n :
  settles_within n k ->
  forall s,
    match (advance p k s).1 with
    | Settled _ => True
    | Pending task => exists m, n = S m /\ lasts m task
    end.
Proof.
  induction 1 as [n a|n e|n key k H IH|n key v k H IH|n key k H IH|n k H IH
                  |n ev k H IH|n k H IH|n site url init k H IH];
    intros s; cbn [advance fst]; auto; try apply IH.
  - exists n. auto.
  - exists n. auto.
Qed.

Ltac settle_step :=
  match goal with
  | |- settles_within _ (Ret _) => apply sw_Ret
  | |- settles_within _ (Throw _) => apply sw_Throw
  | |- settles_within _ (StorageGet _ _) => apply sw_StorageGet; intros
  | |- settles_within _ (StorageSet _ _ _) => apply sw_StorageSet
  | |- settles_within _ (StorageRemove _ _) => apply sw_StorageRemove
  | |- settles_within _ (DateNow _) => apply sw_DateNow; intros
  | |- settles_within _ (Emit _ _) => apply sw_Emit
  | |- settles_within (S _) (Await _) => apply sw_Await
  | |- settles_within (S _) (Fetch _ _ _ _) => apply sw_Fetch; intros
  | |- settles_within _ (if ?c then _ else _) => destruct c
  | |- settles_within _ (match ?x with _ => _ end) => destruct x
  | |- settles_within _ (bind (if ?c then _ else _) _) => destruct c
  | |- settles_within _ (bind (match ?x with _ => _ end) _) => destruct x
  | |- _ => progress cbn [bind t_accessToken t_refreshToken t_expiresIn
                          t_expiresAt]
  | |- _ => progress unfold await, when, emit, storage_get, storage_set,
              date_now, read_json, fetch
  end.





Lemma refresh_body_lasts p s :
  exists k,
    advance p (Client.refresh_body config) s
    = (Pending (Resumable k), record p EvRefreshBody s)
    /\ settles_within suspensions k.
Proof.
  unfold Client.refresh_body. cbn [bind emit await storage_get advance].
  eexists. split; [reflexivity|]. unfold suspensions.
  repeat settle_step.
Qed.



Lemma advance_frame p k : forall s,
  let s' := (advance p k s).2 in
  refreshPromise s' = refreshPromise s /\ promises s' = promises s /\
  handed s' = handed s /\ delivered s' = delivered s.
Proof.
  induction k as [a|e|key k IH|key v k IH|key k IH|k IH|ev k IH|k IH
                  |site url init k IH]; intros s; cbn [advance fst snd]; auto.
  - apply (IH (with_store (Storage.set key v) s)).
  - apply (IH (with_store (Storage.remove key) s)).
  - apply (IH (record p ev s)).
Qed.

(** What continuing the body of [p] changes. *)
Lemma continue_frame p k s :
  p < length (promises s) ->
  let s' := continue p k s in
  handed s' = handed s /\ delivered s' = delivered s
  /\ promises s' !! p = Some (advance p k s).1
  /\ match (advance p k s).1 with
     | Settled _ => refreshPromise s' = None
     | Pending _ => refreshPromise s' = refreshPromise s
     end.
Proof.
  intros Hlt. unfold continue.
  destruct (advance_frame p k s) as (A & B & C & D).
  destruct (advance p k s) as [pr s1]. cbn [fst snd] in *.
  assert (Hpr : promises (finally pr s1) = promises s) by (destruct pr; cbn; auto).
  cbn [with_promises refreshPromise promises handed delivered].
  rewrite Hpr, list_lookup_insert_eq by exact Hlt.
  destruct pr; cbn [finally with_refreshPromise refreshPromise handed delivered]; auto.
Qed.

(** One round of the scheduler on [p]: it is resumed if it waits at an
    [await] and answered if it waits for the network. *)
Lemma round_progress p r s task n :
  promises s !! p = Some (Pending task) -> lasts n task ->
  let s' := step config (Answer p r) (step config (Resume p) s) in
  handed s' = handed s /\ delivered s' = delivered s
  /\ ((exists o, promises s' !! p = Some (Settled o) /\ refreshPromise s' = None)
      \/ (exists task' m, promises s' !! p = Some (Pending task')
                          /\ n = S m /\ lasts m task')).
Proof.
  intros Hp Hl. assert (Hlt : p < length (promises s)) by (eapply lookup_lt_Some; eauto).
  cbn zeta.
  assert (Hcont : forall k s0, promises s0 !! p = Some (Pending task) ->
            settles_within n k ->
            let s1 := continue p k s0 in
            handed s1 = handed s0 /\ delivered s1 = delivered s0
            /\ ((exists o, promises s1 !! p = Some (Settled o) /\ refreshPromise s1 = None)
                \/ (exists task' m, promises s1 !! p = Some (Pending task')
                                    /\ n = S m /\ lasts m task'))).
  { intros k s0 Hp0 Hk. cbn zeta.
    assert (Hlt0 : p < length (promises s0)) by (eapply lookup_lt_Some; eauto).
    destruct (continue_frame p k s0 Hlt0) as (A & B & C & D).
    pose proof (advance_lasts p k n Hk s0) as E.
    split; [exact A|]. split; [exact B|].
    destruct ((advance p k s0).1) as [t|o]; [right|left]; eauto.
    destruct E as (m & -> & Hm). eauto. }
  destruct task as [k|k]; cbn [step lasts] in *; rewrite Hp.
  - (* waiting at an await *)
    destruct (Hcont k s Hp Hl) as (A & B & [(o & Ho & Hn)|(task' & m & Ht & -> & Hm)]).
    + rewrite Ho. rewrite A, B. split; [reflexivity|]. split; [reflexivity|].
      left. eauto.
    + rewrite Ht. destruct task' as [k'|k'].
      * rewrite A, B. split; [reflexivity|]. split; [reflexivity|]. right. eauto.
      * assert (Hlt1 : p < length (promises (continue p k s)))
          by (eapply lookup_lt_Some; eauto).
        destruct (continue_frame p (k' r) (continue p k s) Hlt1) as (A' & B' & C' & D').
        pose proof (advance_lasts p (k' r) m (Hm r) (continue p k s)) as E.
        rewrite A', B', A, B. split; [reflexivity|]. split; [reflexivity|].
        rewrite C'. destruct ((advance p (k' r) (continue p k s)).1) as [t|o].
        -- right. destruct E as (m' & -> & Hm'). exists t, (S m'). repeat split.
           apply (lasts_mono m'); [exact Hm'|lia].
        -- left. eauto.
  - (* waiting for the network *)
    rewrite Hp. apply (Hcont (k r) s Hp (Hl r)).
Qed.

Lemma round_settled p r s o :
  promises s !! p = Some (Settled o) ->
  step config (Answer p r) (step config (Resume p) s) = s.
Proof. intros Hp. cbn [step]. rewrite Hp. cbn [step]. rewrite Hp. reflexivity. Qed.

Lemma rounds_settled n p r s o :
  promises s !! p = Some (Settled o) ->
  run config (mjoin (replicate n [Resume p; Answer p r])) s = s.
Proof.
  intros Hp. induction n as [|n IH]; [reflexivity|].
  cbn [replicate mjoin list_join app]. cbn [run foldl].
  fold (run config (mjoin (replicate n [Resume p; Answer p r]))
          (step config (Answer p r) (step config (Resume p) s))).
  rewrite (round_settled p r s o Hp). exact IH.
Qed.

(** A pending body that the scheduler lets run settles, and its
    [finally] clears [refreshPromise]. *)
Lemma rounds_settle n : forall s p r task m,
  promises s !! p = Some (Pending task) -> lasts m task -> m <= n ->
  let s' := run config (mjoin (replicate (S n) [Resume p; Answer p r])) s in
  (exists o, promises s' !! p = Some (Settled o))
  /\ refreshPromise s' = None
  /\ handed s' = handed s /\ delivered s' = delivered s.
Proof.
  induction n as [|n IH]; intros s p r task m Hp Hl Hle; cbn zeta.
  - destruct (round_progress p r s task m Hp Hl)
      as (A & B & [(o & Ho & Hn)|(task' & m' & _ & -> & _)]); [|lia].
    cbn [replicate mjoin list_join app run foldl]. eauto.
  - change (mjoin (replicate (S (S n)) [Resume p; Answer p r]))
      with ([Resume p; Answer p r]
              ++ mjoin (replicate (S n) [Resume p; Answer p r])).
    unfold run. rewrite foldl_app. cbn [foldl].
    fold (run config (mjoin (replicate (S n) [Resume p; Answer p r]))
            (step config (Answer p r) (step config (Resume p) s))).
    destruct (round_progress p r s task m Hp Hl)
      as (A & B & [(o & Ho & Hn)|(task' & m' & Ht & -> & Hm)]).
    + rewrite (rounds_settled (S n) p r _ o Ho). eauto.
    + destruct (IH _ p r task' m' Ht Hm ltac:(lia)) as (C & D & E & F).
      rewrite E, F, A, B. auto.
Qed.

Lemma bounded_continue p k task s :
  bounded s -> promises s !! p = Some (Pending task) ->
  settles_within suspensions k ->
  bounded (continue p k s).
Proof.
  intros HB Hp Hk q t Hq.
  assert (Hlt : p < length (promises s)) by (eapply lookup_lt_Some; eauto).
  destruct (decide (q = p)) as [->|Hne].
  - destruct (continue_frame p k s Hlt) as (_ & _ & C & _).
    rewrite C in Hq. injection Hq as Hq.
    pose proof (advance_lasts p k _ Hk s) as E. rewrite Hq in E.
    destruct E as (m & Hm & Hl). apply (lasts_mono m); [exact Hl|lia].
  - apply (HB q). unfold continue in Hq.
    destruct (advance_frame p k s) as (_ & B & _).
    destruct (advance p k s) as [pr s1]. cbn [fst snd] in *.
    cbn [with_promises promises] in Hq.
    rewrite list_lookup_insert_ne in Hq by congruence.
    destruct pr; cbn [finally with_refreshPromise promises] in Hq; congruence.
Qed.

Lemma bounded_step l s : bounded s -> bounded (step config l s).
Proof.
  intros HB. destruct l as [|p|p r|call|ms|key value|key]; cbn [step]; try exact HB.
  - unfold refreshToken. destruct (refreshPromise s) as [p|]; [exact HB|].
    destruct (refresh_body_lasts (length (promises s)) s) as (k & -> & Hk).
    cbn [finally]. intros q t Hq.
    cbn [hand with_refreshPromise with_promises record promises] in Hq.
    apply lookup_app_Some in Hq as [Hq|[_ Hq]]; [exact (HB q t Hq)|].
    apply list_lookup_singleton_Some in Hq as [_ Heq]. injection Heq as <-.
    exact Hk.
  - destruct (promises s !! p) as [[[k|k]|o]|] eqn:Hp; try exact HB.
    apply (bounded_continue p k (Resumable k)); auto. exact (HB p _ Hp).
  - destruct (promises s !! p) as [[[k|k]|o]|] eqn:Hp; try exact HB.
    apply (bounded_continue p (k r) (AwaitingNetwork k)); auto.
    exact (HB p _ Hp r).
  - destruct (handed s !! call) as [p|]; [|exact HB].
    destruct (promises s !! p) as [[t|o]|]; try exact HB.
    destruct (has_returned call s); exact HB.
Qed.

Lemma bounded_run ls s : bounded s -> bounded (run config ls s).
Proof.
  revert s. induction ls as [|l ls IH]; intros s HB; [exact HB|].
  cbn [run foldl]. apply IH. apply bounded_step. exact HB.
Qed.

(** C1.  Whatever the callers, the scheduler and the network do:
    [refreshPromise] is set exactly while the one pending refresh is
    running; a call arriving then is handed that promise and starts
    nothing, while a call that finds it empty starts the body of a new
    refresh and is handed its promise; the body of a refresh makes at
    most one network call, so there are never more network calls than
    refreshes started; callers handed the same promise get the same
    outcome; once a caller has got its outcome the promise is settled
    and [refreshPromise] no longer points to it, whether the refresh
    succeeded or failed; and a pending refresh whose body is let run,
    with any answer from the network, settles and puts [refreshPromise]
    back to empty, after which every caller that was handed its promise
    gets that one outcome when its [await] completes. *)
Theorem concurrent_callers_share_one_refresh st t (ls : list Label) :
  let s := run config ls (initial st t) in
  (forall p, refreshPromise s = Some p <->
             exists task, promises s !! p = Some (Pending task))
  /\ (forall p, refreshPromise s = Some p -> step config Call s = hand p s)
  /\ (forall p, fetches_of p (c_log s) <= 1)
  /\ network_calls s <= length (promises s)
  /\ (forall i j p oi oj,
        handed s !! i = Some p -> handed s !! j = Some p ->
        (i, oi) ∈ delivered s -> (j, oj) ∈ delivered s -> oi = oj)
  /\ (forall i p o,
        handed s !! i = Some p -> (i, o) ∈ delivered s ->
        promises s !! p = Some (Settled o) /\ refreshPromise s <> Some p)
  /\ (refreshPromise s = None ->
      let p := length (promises s) in
      let s1 := step config Call s in
      refreshPromise s1 = Some p
      /\ handed s1 = handed s ++ [p]
      /\ (exists task, promises s1 !! p = Some (Pending task))
      /\ c_log s1 = c_log s ++ [(p, EvRefreshBody)])
  /\ (forall p r,
        refreshPromise s = Some p ->
        let s1 := run config (finish p r) s in
        exists o,
          promises s1 !! p = Some (Settled o)
          /\ refreshPromise s1 = None
          /\ forall i, handed s !! i = Some p ->
               (i ∉ (delivered s1).*1)
               /\ (i, o) ∈ delivered (step config (Return i) s1)).
Proof.
  cbn zeta. pose proof (Inv_run ls _ (Inv_initial st t)) as HI.
  assert (HB : bounded (run config ls (initial st t))).
  { apply bounded_run. intros q task Hq. discriminate Hq. }
  set (s := run config ls (initial st t)) in *.
  assert (Hcur : forall p, refreshPromise s = Some p ->
                           exists task, promises s !! p = Some (Pending task)).
  { intros p Hp. pose proof (inv_current s HI) as Hc. rewrite Hp in Hc.
    destruct Hc as (task & n & H & _). eauto. }
  assert (Hdel : forall i p o, handed s !! i = Some p -> (i, o) ∈ delivered s ->
                               promises s !! p = Some (Settled o)).
  { intros i p o Hi Hio. destruct (inv_delivered s HI i o Hio) as (q & Hq1 & Hq2).
    congruence. }
  split; [|split; [|split; [|split; [|split; [|split; [|split]]]]]].
  - intros p. split; [apply Hcur|].
    intros (task & Hp). apply (inv_pending s HI p task Hp).
  - intros p Hp. cbn [step]. unfold refreshToken. rewrite Hp. reflexivity.
  - apply (inv_fetches s HI).
  - pose proof (inv_current s HI) as Hc.
    destruct (refreshPromise s) as [q|];
      [destruct Hc as (task & m & _ & _ & _ & Hc); lia|exact Hc].
  - intros i j p oi oj Hi Hj Hio Hjo.
    pose proof (Hdel i p oi Hi Hio). pose proof (Hdel j p oj Hj Hjo). congruence.
  - intros i p o Hi Hio. split; [eapply Hdel; eauto|].
    intros Hp. destruct (Hcur p Hp) as (task & Htask).
    pose proof (Hdel i p o Hi Hio). congruence.
  - intros Hnone. cbn [step]. unfold refreshToken. rewrite Hnone.
    destruct (refresh_body_lasts (length (promises s)) s) as (k & -> & _).
    cbn [finally hand with_refreshPromise with_promises record
         refreshPromise promises handed c_log].
    split; [reflexivity|]. split; [reflexivity|]. split; [|reflexivity].
    exists (Resumable k). rewrite lookup_app_r, Nat.sub_diag by lia. reflexivity.
  - intros p r Hp. destruct (Hcur p Hp) as (task & Htask).
    destruct (rounds_settle suspensions s p r task suspensions Htask
                (HB p task Htask) (le_n _)) as ((o & Ho) & Hn & Hh & Hd).
    fold (finish p r) in Ho, Hn, Hh, Hd.
    set (s1 := run config (finish p r) s) in *.
    exists o. split; [exact Ho|]. split; [exact Hn|].
    intros i Hi.
    assert (Hnot : i ∉ (delivered s1).*1).
    { rewrite Hd. intros Hin. apply list_elem_of_fmap in Hin as ([i' o'] & -> & Hin).
      cbn [fst] in Hi. pose proof (Hdel i' p o' Hi Hin). congruence. }
    split; [exact Hnot|].
    cbn [step]. rewrite Hh, Hi, Ho. unfold has_returned.
    rewrite bool_decide_eq_false_2 by exact Hnot.
    cbn [deliver delivered]. apply elem_of_app. right. apply list_elem_of_here.
Qed.

End Invariant.
End CoordinatorFacts.

(** ** Facts about the JavaScript [Map] *)

Section JsMapFacts.

Context {V : Type}.
Implicit Types (m : list (option (string * V))) (k : string) (v : V).

Lemma jm_get_set_eq k v m : jm_get k (jm_set k v m) = Some v.
Proof.
  induction m as [|[[k0 v0]|] m IH]; cbn.
  - rewrite decide_True; reflexivity.
  - destruct (decide (k0 = k)) as [->|Hne]; cbn.
    + rewrite decide_True; reflexivity.
    + rewrite decide_False by exact Hne. exact IH.
  - exact IH.
Qed.

Lemma jm_get_set_ne k k' v m : k <> k' -> jm_get k' (jm_set k v m) = jm_get k' m.
Proof.
  intros Hne. induction m as [|[[k0 v0]|] m IH]; cbn.
  - rewrite decide_False by exact Hne. reflexivity.
  - destruct (decide (k0 = k)) as [->|Hne0]; cbn.
    + rewrite !decide_False by exact Hne. reflexivity.
    + destruct (decide (k0 = k')); [reflexivity|exact IH].
  - exact IH.
Qed.

Lemma jm_get_delete_eq k m : jm_get k (jm_delete k m) = None.
Proof.
  induction m as [|[[k0 v0]|] m IH]; cbn; [reflexivity| |exact IH].
  destruct (decide (k0 = k)) as [->|Hne]; cbn; [exact IH|].
  rewrite decide_False by exact Hne. exact IH.
Qed.

Lemma jm_get_delete_ne k k' m :
  k <> k' -> jm_get k' (jm_delete k m) = jm_get k' m.
Proof.
  intros Hne. induction m as [|[[k0 v0]|] m IH]; cbn; [reflexivity| |exact IH].
  destruct (decide (k0 = k)) as [->|Hne0]; cbn.
  - rewrite decide_False by exact Hne. exact IH.
  - destruct (decide (k0 = k')); [reflexivity|exact IH].
Qed.

Lemma jm_set_same k v m : jm_get k m = Some v -> jm_set k v m = m.
Proof.
  induction m as [|[[k0 v0]|] m IH]; cbn; [discriminate| |].
  - destruct (decide (k0 = k)) as [->|Hne].
    + intros [= ->]. reflexivity.
    + intros H. rewrite (IH H). reflexivity.
  - intros H. rewrite (IH H). reflexivity.
Qed.

Lemma jm_set_new k v m : jm_get k m = None -> jm_set k v m = m ++ [Some (k, v)].
Proof.
  induction m as [|[[k0 v0]|] m IH]; cbn; [reflexivity| |].
  - destruct (decide (k0 = k)) as [->|Hne]; [discriminate|].
    intros H. rewrite (IH H). reflexivity.
  - intros H. rewrite (IH H). reflexivity.
Qed.

Lemma jm_delete_absent k m : jm_get k m = None -> jm_delete k m = m.
Proof.
  induction m as [|[[k0 v0]|] m IH]; cbn; [reflexivity| |].
  - destruct (decide (k0 = k)) as [->|Hne]; [discriminate|].
    intros H. unfold jm_delete in IH. rewrite (IH H). reflexivity.
  - intros H. unfold jm_delete in IH. rewrite (IH H). reflexivity.
Qed.

Lemma jm_entries_clear m : jm_entries (jm_clear m) = [].
Proof. induction m as [|e m IH]; cbn; [reflexivity|exact IH]. Qed.

Lemma jm_get_clear k m : jm_get k (jm_clear m) = None.
Proof. induction m as [|e m IH]; cbn; [reflexivity|exact IH]. Qed.

Lemma jm_get_Some_size k v m : jm_get k m = Some v -> 0 < jm_size m.
Proof.
  unfold jm_size, jm_entries.
  induction m as [|[[k0 v0]|] m IH]; cbn; [discriminate| |exact IH]. lia.
Qed.

Lemma jm_size_0_get k m : jm_size m = 0 -> jm_get k m = None.
Proof.
  intros H. destruct (jm_get k m) as [v|] eqn:E; [|reflexivity].
  apply jm_get_Some_size in E. lia.
Qed.

Lemma jm_length_set_same k v v0 m :
  jm_get k m = Some v0 -> length (jm_set k v m) = length m.
Proof.
  induction m as [|[[k0 v1]|] m IH]; cbn; [discriminate| |].
  - destruct (decide (k0 = k)); [reflexivity|]. intros H. cbn. rewrite (IH H). reflexivity.
  - intros H. rewrite (IH H). reflexivity.
Qed.

End JsMapFacts.

(** ** The subscription registry *)

Module RealtimeFacts.
Import Realtime.

Lemma messages_app (a b : list Output) : messages (a ++ b) = messages a ++ messages b.
Proof. unfold messages. apply omap_app. Qed.

Lemma deliveries_app (a b : list Output) :
  deliveries (a ++ b) = deliveries a ++ deliveries b.
Proof. unfold deliveries. apply omap_app. Qed.

Lemma socket_setup c s : socket (setupCollectionListeners c s) = attached c (socket s).
Proof.
  unfold setupCollectionListeners, attached.
  destruct (socket s) as [sk|] eqn:E; [|rewrite E; reflexivity].
  cbn. unfold socket_on. cbn. rewrite <- !app_assoc. reflexivity.
Qed.

Lemma filter_filter_and {A} (f g : A -> bool) (l : list A) :
  List.filter f (List.filter g l) = List.filter (fun x => g x && f x) l.
Proof.
  induction l as [|x l IH]; cbn; [reflexivity|].
  destruct (g x); cbn; [destruct (f x)|]; rewrite IH; reflexivity.
Qed.

Lemma socket_remove c s :
  socket (removeCollectionListeners c s) = detached c (socket s).
Proof.
  unfold removeCollectionListeners, detached.
  destruct (socket s) as [sk|] eqn:E; [|rewrite E; reflexivity].
  cbn. unfold socket_off. cbn. f_equal. f_equal.
  rewrite !filter_filter_and. apply List.filter_ext. intros [n l].
  unfold is_listener_of. cbn [fst fmap list_fmap].
  apply eq_true_iff_eq.
  rewrite !andb_true_iff, !negb_true_iff, !bool_decide_eq_false.
  rewrite !elem_of_cons, elem_of_nil. tauto.
Qed.

Lemma setup_frame c s :
  subscriptions (setupCollectionListeners c s) = subscriptions s
  /\ out (setupCollectionListeners c s) = out s
  /\ workflowCallbacks (setupCollectionListeners c s) = workflowCallbacks s.
Proof. unfold setupCollectionListeners. destruct (socket s); auto. Qed.

Lemma remove_frame c s :
  subscriptions (removeCollectionListeners c s) = subscriptions s
  /\ out (removeCollectionListeners c s) = out s
  /\ workflowCallbacks (removeCollectionListeners c s) = workflowCallbacks s.
Proof. unfold removeCollectionListeners. destruct (socket s); auto. Qed.

Lemma subscribeOnServer_frame c s :
  subscriptions (subscribeOnServer c s) = subscriptions s
  /\ socket (subscribeOnServer c s) = socket s
  /\ out (subscribeOnServer c s)
     = out s ++ (if isConnected s then [Emitted "subscribe" c] else []).
Proof.
  unfold subscribeOnServer. destruct (isConnected s); cbn; auto.
  rewrite app_nil_r. auto.
Qed.

Lemma unsubscribeOnServer_frame c s :
  subscriptions (unsubscribeOnServer c s) = subscriptions s
  /\ socket (unsubscribeOnServer c s) = socket s
  /\ out (unsubscribeOnServer c s)
     = out s ++ (if isConnected s then [Emitted "unsubscribe" c] else []).
Proof.
  unfold unsubscribeOnServer. destruct (isConnected s); cbn; auto.
  rewrite app_nil_r. auto.
Qed.

Lemma warn_frame (s : State) :
  let s0 := if isConnected s then s else say [Console "warn"] s in
  subscriptions s0 = subscriptions s /\ socket s0 = socket s
  /\ isConnected s0 = isConnected s
  /\ messages (out s0) = messages (out s).
Proof.
  cbn zeta. destruct (isConnected s) eqn:E; cbn; auto.
  rewrite messages_app. cbn. rewrite app_nil_r. auto.
Qed.

Lemma isConnected_with_subscriptions x s :
  isConnected (with_subscriptions x s) = isConnected s.
Proof. reflexivity. Qed.

(** C5, as amended.  The first [subscribe(collection, callback)] creates
    the record with that one callback, sends one subscribe intent if the
    socket is connected and none otherwise, and attaches the collection's
    three listeners if there is a socket.  A later [subscribe] to the
    same collection (under an identifier not in use there) appends the
    callback, sends nothing and leaves the socket alone.  A handle
    removes its own callback and no other, in no other collection; when
    that empties the set the record is deleted, one unsubscribe intent is
    sent if the socket is connected and the listeners are detached;
    otherwise the record stays, nothing is sent and the socket is left
    alone. *)
Theorem subscribe_and_handle_keep_the_registry c i cb (s : State) :
  (jm_get c (subscriptions s) = None ->
   let s' := subscribe c i cb s in
   jm_get c (subscriptions s')
     = Some {| collection := c; callbacks := [Some (i, cb)] |}
   /\ messages (out s') = messages (out s) ++
                          (if isConnected s then [("subscribe", c)] else [])
   /\ socket s' = attached c (socket s))
  /\ (forall sub,
        jm_get c (subscriptions s) = Some sub ->
        jm_get i (callbacks sub) = None ->
        let s' := subscribe c i cb s in
        jm_get c (subscriptions s')
          = Some {| collection := collection sub;
                    callbacks := callbacks sub ++ [Some (i, cb)] |}
        /\ messages (out s') = messages (out s)
        /\ socket s' = socket s)
  /\ (forall sub,
        jm_get c (subscriptions s) = Some sub ->
        let s' := unsubscribe c i s in
        let rest := jm_delete i (callbacks sub) in
        jm_get i rest = None
        /\ (forall j, j <> i -> jm_get j rest = jm_get j (callbacks sub))
        /\ (forall c', c' <> c ->
              jm_get c' (subscriptions s') = jm_get c' (subscriptions s))
        /\ if (jm_size rest =? 0)%nat then
             jm_get c (subscriptions s') = None
             /\ messages (out s') = messages (out s) ++
                  (if isConnected s then [("unsubscribe", c)] else [])
             /\ socket s' = detached c (socket s)
           else
             jm_get c (subscriptions s')
               = Some {| collection := collection sub; callbacks := rest |}
             /\ messages (out s') = messages (out s)
             /\ socket s' = socket s).
Proof.
  split; [|split].
  - intros Hnone. cbn zeta. unfold subscribe.
    destruct (warn_frame s) as (W1 & W2 & W3 & W4).
    set (s0 := if isConnected s then s else say [Console "warn"] s) in *.
    rewrite W1, Hnone.
    cbn [callbacks collection jm_set with_subscriptions socket subscriptions out].
    match goal with |- context [setupCollectionListeners c ?x] =>
      destruct (setup_frame c x) as (A1 & A2 & _);
      pose proof (socket_setup c x) as A3 end.
    match goal with |- context [subscribeOnServer c ?x] =>
      destruct (subscribeOnServer_frame c x) as (B1 & B2 & B3) end.
    rewrite A1, A2, A3, B1, B2, B3, isConnected_with_subscriptions, W3.
    cbn [with_subscriptions socket subscriptions out].
    rewrite jm_get_set_eq, W2, messages_app, W4.
    split; [reflexivity|]. split; [|reflexivity].
    destruct (isConnected s); reflexivity.
  - intros sub Hsub Hfresh. cbn zeta. unfold subscribe.
    destruct (warn_frame s) as (W1 & W2 & W3 & W4).
    set (s0 := if isConnected s then s else say [Console "warn"] s) in *.
    rewrite W1, Hsub.
    cbn [with_subscriptions socket subscriptions out].
    rewrite jm_get_set_eq, (jm_set_new _ _ _ Hfresh). auto.
  - intros sub Hsub. cbn zeta. unfold unsubscribe. rewrite Hsub.
    split; [apply jm_get_delete_eq|].
    split; [intros j Hj; apply jm_get_delete_ne; congruence|].
    cbn [callbacks].
    destruct (jm_size (jm_delete i (callbacks sub)) =? 0)%nat.
    + match goal with |- context [removeCollectionListeners c ?x] =>
        destruct (remove_frame c x) as (A1 & A2 & _);
        pose proof (socket_remove c x) as A3 end.
      match goal with |- context [unsubscribeOnServer c ?x] =>
        destruct (unsubscribeOnServer_frame c x) as (B1 & B2 & B3) end.
      cbn [with_subscriptions socket subscriptions out].
      rewrite A1, A2, A3, B1, B2, B3, isConnected_with_subscriptions.
      cbn [with_subscriptions socket subscriptions out].
      split; [|split; [apply jm_get_delete_eq|split; [|reflexivity]]].
      * intros c' Hc'. rewrite jm_get_delete_ne, jm_get_set_ne by congruence.
        reflexivity.
      * rewrite messages_app. destruct (isConnected s); reflexivity.
    + cbn [with_subscriptions socket subscriptions out].
      split; [|split; [apply jm_get_set_eq|auto]].
      intros c' Hc'. apply jm_get_set_ne. congruence.
Qed.

(** *** The registry after subscribe and after a handle *)

Lemma jm_set_set {V} k (v1 v2 : V) m : jm_set k v2 (jm_set k v1 m) = jm_set k v2 m.
Proof.
  induction m as [|[[k0 v0]|] m IH]; cbn.
  - rewrite decide_True; reflexivity.
  - destruct (decide (k0 = k)) as [->|Hne]; cbn.
    + rewrite decide_True; reflexivity.
    + rewrite decide_False by exact Hne. rewrite IH. reflexivity.
  - rewrite IH. reflexivity.
Qed.

Lemma subscriptions_subscribe c i cb s :
  subscriptions (subscribe c i cb s)
  = jm_set c
      {| collection := c;
         callbacks :=
           jm_set i cb (match jm_get c (subscriptions s) with
                        | Some sub => callbacks sub
                        | None => []
                        end) |}
      (subscriptions s)
  \/ exists sub, jm_get c (subscriptions s) = Some sub /\
       subscriptions (subscribe c i cb s)
       = jm_set c {| collection := collection sub;
                     callbacks := jm_set i cb (callbacks sub) |}
               (subscriptions s).
Proof.
  unfold subscribe. destruct (warn_frame s) as (W1 & _).
  set (s0 := if isConnected s then s else say [Console "warn"] s) in *.
  rewrite W1. destruct (jm_get c (subscriptions s)) as [sub|] eqn:E.
  - right. exists sub. split; [reflexivity|].
    cbn [with_subscriptions subscriptions]. rewrite W1. reflexivity.
  - left. cbn [with_subscriptions subscriptions callbacks collection].
    match goal with |- context [setupCollectionListeners c ?x] =>
      destruct (setup_frame c x) as (A1 & _) end.
    match goal with |- context [subscribeOnServer c ?x] =>
      destruct (subscribeOnServer_frame c x) as (B1 & _) end.
    rewrite A1, B1. cbn [with_subscriptions subscriptions].
    apply jm_set_set.
Qed.

Lemma registered_subscribe c i cb c' j s :
  registered c' j (subscribe c i cb s)
  = if decide (c' = c /\ j = i) then Some cb else registered c' j s.
Proof.
  unfold registered.
  assert (H : exists col,
             subscriptions (subscribe c i cb s)
             = jm_set c {| collection := col;
                           callbacks := jm_set i cb
                             (match jm_get c (subscriptions s) with
                              | Some sub => callbacks sub
                              | None => []
                              end) |} (subscriptions s)).
  { destruct (subscriptions_subscribe c i cb s) as [H|(sub & E & H)];
      rewrite H; [eauto|]. rewrite E. eauto. }
  destruct H as (col & ->).
  destruct (decide (c' = c)) as [->|Hc].
  - rewrite jm_get_set_eq. cbn.
    destruct (decide (j = i)) as [->|Hj].
    + rewrite decide_True by auto. apply jm_get_set_eq.
    + rewrite decide_False by tauto. rewrite jm_get_set_ne by congruence.
      destruct (jm_get c (subscriptions s)); reflexivity.
  - rewrite decide_False by tauto. rewrite jm_get_set_ne by congruence. reflexivity.
Qed.

Lemma subscriptions_unsubscribe c i s :
  match jm_get c (subscriptions s) with
  | None => unsubscribe c i s = s
  | Some sub =>
      let sub' := {| collection := collection sub;
                     callbacks := jm_delete i (callbacks sub) |} in
      subscriptions (unsubscribe c i s)
      = if (jm_size (callbacks sub') =? 0)%nat
        then jm_delete c (jm_set c sub' (subscriptions s))
        else jm_set c sub' (subscriptions s)
  end.
Proof.
  unfold unsubscribe. destruct (jm_get c (subscriptions s)) as [sub|]; [|reflexivity].
  cbn zeta. destruct (jm_size _ =? 0)%nat; [|reflexivity].
  match goal with |- context [removeCollectionListeners c ?x] =>
    destruct (remove_frame c x) as (A1 & _) end.
  match goal with |- context [unsubscribeOnServer c ?x] =>
    destruct (unsubscribeOnServer_frame c x) as (B1 & _) end.
  cbn [with_subscriptions subscriptions]. rewrite A1, B1. reflexivity.
Qed.

Lemma registered_unsubscribe c i c' j s :
  registered c' j (unsubscribe c i s)
  = if decide (c' = c /\ j = i) then None else registered c' j s.
Proof.
  unfold registered. pose proof (subscriptions_unsubscribe c i s) as H.
  destruct (jm_get c (subscriptions s)) as [sub|] eqn:E.
  2:{ rewrite H. destruct (decide (c' = c /\ j = i)) as [[-> ->]|]; [|reflexivity].
      rewrite E. reflexivity. }
  cbn zeta in H. rewrite H. cbn [callbacks].
  destruct (decide (c' = c)) as [->|Hc].
  - rewrite E. cbn [mbind option_bind].
    destruct (jm_size (jm_delete i (callbacks sub)) =? 0)%nat eqn:Hsz.
    + rewrite jm_get_delete_eq. cbn.
      destruct (decide (c = c /\ j = i)) as [_|Hn]; [reflexivity|].
      apply Nat.eqb_eq in Hsz. pose proof (jm_size_0_get j _ Hsz) as H0.
      rewrite jm_get_delete_ne in H0; [auto|]. intros ->. tauto.
    + rewrite jm_get_set_eq. cbn.
      destruct (decide (c = c /\ j = i)) as [[_ ->]|Hn].
      * apply jm_get_delete_eq.
      * apply jm_get_delete_ne. intros ->. tauto.
  - rewrite decide_False by tauto.
    destruct (_ =? 0)%nat;
      rewrite ?jm_get_delete_ne, jm_get_set_ne by congruence; reflexivity.
Qed.


(** *** Dispatch *)

Lemma jm_delete_length {V} i (m : list (option (string * V))) :
  length (jm_delete i m) = length m.
Proof. unfold jm_delete. apply length_fmap. Qed.

Lemma unsubscribe_other c c' i s :
  c' <> c ->
  jm_get c (subscriptions (unsubscribe c' i s)) = jm_get c (subscriptions s).
Proof.
  intros Hne. unfold unsubscribe.
  destruct (jm_get c' (subscriptions s)) as [sub|] eqn:E; [|reflexivity].
  cbn [callbacks]. destruct (jm_size _ =? 0)%nat.
  - match goal with |- context [removeCollectionListeners c' ?x] =>
      destruct (remove_frame c' x) as (A1 & _) end.
    match goal with |- context [unsubscribeOnServer c' ?x] =>
      destruct (unsubscribeOnServer_frame c' x) as (B1 & _) end.
    cbn [with_subscriptions subscriptions]. rewrite A1, B1.
    cbn [with_subscriptions subscriptions].
    rewrite jm_get_delete_ne, jm_get_set_ne by congruence. reflexivity.
  - cbn [with_subscriptions subscriptions]. apply jm_get_set_ne. congruence.
Qed.

Lemma unsubscribe_deliveries c i s :
  deliveries (out (unsubscribe c i s)) = deliveries (out s).
Proof.
  unfold unsubscribe.
  destruct (jm_get c (subscriptions s)) as [sub|]; [|reflexivity].
  cbn [callbacks]. destruct (jm_size _ =? 0)%nat; [|reflexivity].
  match goal with |- context [removeCollectionListeners c ?x] =>
    destruct (remove_frame c x) as (_ & A2 & _) end.
  match goal with |- context [unsubscribeOnServer c ?x] =>
    destruct (unsubscribeOnServer_frame c x) as (_ & _ & B3) end.
  cbn [with_subscriptions out]. rewrite A2, B3, deliveries_app.
  cbn [with_subscriptions out]. destruct (isConnected _); cbn; apply app_nil_r.
Qed.


(** *** Bodies *)

Lemma Act_nested_ind (P : Act -> Prop) :
  (forall c i, P (Unsubscribe c i)) ->
  (forall c i name body, Forall P body -> P (CallSubscribe c i name body)) ->
  P CallDisconnect ->
  (forall name, P (CallOnConnectionChange name)) ->
  (forall id name, P (CallSubscribeToExecution id name)) ->
  (forall id name, P (CallUnsubscribeFromExecution id name)) ->
  P ThrowError ->
  forall a, P a.
Proof.
  intros H1 H2 H3 H4 H5 H6 H7. fix IH 1.
  intros [c i|c i name body| |name|id name|id name|];
    [apply H1| |exact H3|apply H4|apply H5|apply H6|exact H7].
  apply H2. revert body. fix IHb 1. intros [|a body]; constructor.
  - apply IH.
  - apply IHb.
Qed.

Lemma throws_dec (a : Act) : {a = ThrowError} + {a <> ThrowError}.
Proof. destruct a; (left; reflexivity) || (right; discriminate). Qed.

Lemma act_weight_subscribe c i name body :
  act_weight (CallSubscribe c i name body) = S (body_weight body).
Proof.
  reflexivity.
Qed.

Lemma act_allowed_subscribe allowed c i name body :
  act_allowed allowed (CallSubscribe c i name body)
  <-> allowed c i /\ body_allowed allowed body.
Proof.
  cbn [act_allowed]. unfold body_allowed.
  assert (H : (fix all (l : list Act) : Prop :=
                 match l with
                 | [] => True
                 | a :: l => act_allowed allowed a /\ all l
                 end) body <-> Forall (act_allowed allowed) body).
  { induction body as [|a body IH]; [split; auto|].
    rewrite Forall_cons, IH. reflexivity. }
  rewrite H. reflexivity.
Qed.

Lemma body_allowed_True body : body_allowed (fun _ _ => True) body.
Proof.
  unfold body_allowed. apply Forall_forall. intros a _. revert a.
  apply Act_nested_ind; try (intros; exact I).
  intros c i name body' H. apply act_allowed_subscribe. auto.
Qed.

(** *** What an act does to the registry *)

Lemma subscribe_other c c' i cb s :
  c' <> c ->
  jm_get c (subscriptions (subscribe c' i cb s)) = jm_get c (subscriptions s).
Proof.
  intros Hne.
  destruct (subscriptions_subscribe c' i cb s) as [E|(sub & _ & E)];
    rewrite E; apply jm_get_set_ne; exact Hne.
Qed.

Lemma subscribe_same c i cb s sub :
  jm_get c (subscriptions s) = Some sub ->
  jm_get c (subscriptions (subscribe c i cb s))
  = Some {| collection := collection sub;
            callbacks := jm_set i cb (callbacks sub) |}.
Proof.
  intros Hsub. unfold subscribe. destruct (warn_frame s) as (W1 & _).
  set (s0 := if isConnected s then s else say [Console "warn"] s) in *.
  rewrite W1, Hsub. cbn [with_subscriptions subscriptions].
  apply jm_get_set_eq.
Qed.

Lemma subscribe_deliveries c i cb s :
  deliveries (out (subscribe c i cb s)) = deliveries (out s).
Proof.
  unfold subscribe.
  set (s0 := if isConnected s then s else say [Console "warn"] s).
  assert (W : deliveries (out s0) = deliveries (out s)).
  { subst s0. destruct (isConnected s); [reflexivity|]. cbn [say out].
    rewrite deliveries_app. apply app_nil_r. }
  clearbody s0.
  destruct (jm_get c (subscriptions s0)); cbn [with_subscriptions out]; [exact W|].
  match goal with |- context [setupCollectionListeners c ?x] =>
    destruct (setup_frame c x) as (_ & A2 & _) end.
  match goal with |- context [subscribeOnServer c ?x] =>
    destruct (subscribeOnServer_frame c x) as (_ & _ & B3) end.
  rewrite A2, B3, deliveries_app. cbn [with_subscriptions out]. rewrite W.
  destruct (isConnected _); cbn; apply app_nil_r.
Qed.

Lemma subscriptions_disconnect s :
  subscriptions (disconnect s) = jm_clear (subscriptions s).
Proof. unfold disconnect. destruct (socket s); reflexivity. Qed.

Lemma disconnect_deliveries s :
  deliveries (out (disconnect s)) = deliveries (out s).
Proof.
  unfold disconnect. destruct (socket s); [|reflexivity].
  cbn [with_workflowCallbacks with_subscriptions with_socket say out].
  rewrite deliveries_app. apply app_nil_r.
Qed.

Lemma subscribeToExecution_frame id name s :
  subscriptions (subscribeToExecution id name s) = subscriptions s
  /\ socket (subscribeToExecution id name s) = socket s
  /\ deliveries (out (subscribeToExecution id name s)) = deliveries (out s).
Proof.
  unfold subscribeToExecution. destruct (isConnected s); cbn; auto.
  rewrite deliveries_app. cbn. rewrite app_nil_r. auto.
Qed.

Lemma unsubscribeFromExecution_frame id name s :
  subscriptions (unsubscribeFromExecution id name s) = subscriptions s
  /\ socket (unsubscribeFromExecution id name s) = socket s
  /\ out (unsubscribeFromExecution id name s) = out s.
Proof.
  unfold unsubscribeFromExecution. destruct (jm_get _ _); [|auto].
  destruct (_ =? 0)%nat; auto.
Qed.

Lemma perform_deliveries a s :
  deliveries (out (perform a s)) = deliveries (out s).
Proof.
  destruct a; cbn [perform].
  - apply unsubscribe_deliveries.
  - apply subscribe_deliveries.
  - apply disconnect_deliveries.
  - reflexivity.
  - apply subscribeToExecution_frame.
  - destruct (unsubscribeFromExecution_frame id name s) as (_ & _ & ->).
    reflexivity.
  - reflexivity.
Qed.

(** *** The walk and the map it reads *)

Lemma sim_registry c s s' wk ml :
  subscriptions s' = subscriptions s -> sim c s wk ml -> sim c s' wk ml.
Proof.
  intros E (A & B & C). unfold sim, current. rewrite E. auto.
Qed.

Lemma sim_perform c a s wk ml :
  a <> ThrowError -> sim c s wk ml ->
  sim c (perform a s) (walked_after c a s wk) (map_act c a ml).
Proof.
  intros Ha (A & B & C). destruct ml as [m linked]. cbn [fst snd] in *.
  destruct wk as [m0|].
  - assert (linked = false) as ->.
    { destruct linked; [|reflexivity]. destruct B as [B _].
      discriminate (B eq_refl). }
    cbn. unfold sim. cbn. split; [exact A|]. split; [exact B|]. discriminate.
  - assert (linked = true) as -> by (apply B; reflexivity).
    destruct (C eq_refl) as [sub Hsub].
    unfold current in A. rewrite Hsub in A. subst m.
    unfold map_act. cbn [fst snd walked_after].
    destruct a as [c' i|c' i name body| |name|id name|id name|];
      cbn [perform]; try congruence.
    + destruct (decide (c' = c)) as [->|Hne].
      * pose proof (subscriptions_unsubscribe c i s) as E. rewrite Hsub in E.
        cbn zeta in E. cbn [callbacks] in E.
        unfold current at 1 2. rewrite Hsub.
        destruct (jm_size (jm_delete i (callbacks sub)) =? 0)%nat eqn:Hsz.
        -- unfold sim. cbn. split; [reflexivity|]. split; [|discriminate].
           split; discriminate.
        -- unfold sim, current. rewrite E, jm_get_set_eq. cbn.
           split; [reflexivity|]. split; [tauto|eauto].
      * unfold sim, current. rewrite unsubscribe_other by exact Hne.
        rewrite Hsub. cbn. split; [reflexivity|]. split; [tauto|eauto].
    + destruct (decide (c' = c)) as [->|Hne].
      * unfold sim, current. rewrite (subscribe_same c i _ s sub Hsub). cbn.
        split; [reflexivity|]. split; [tauto|eauto].
      * unfold sim, current. rewrite subscribe_other by exact Hne.
        rewrite Hsub. cbn. split; [reflexivity|]. split; [tauto|eauto].
    + unfold sim, current. rewrite Hsub. cbn.
      split; [reflexivity|]. split; [|discriminate]. split; discriminate.
    + unfold sim, current. cbn. rewrite Hsub. cbn.
      split; [reflexivity|]. split; [tauto|eauto].
    + destruct (subscribeToExecution_frame id name s) as (E & _).
      unfold sim, current. rewrite E, Hsub. cbn.
      split; [reflexivity|]. split; [tauto|eauto].
    + destruct (unsubscribeFromExecution_frame id name s) as (E & _).
      unfold sim, current. rewrite E, Hsub. cbn.
      split; [reflexivity|]. split; [tauto|eauto].
Qed.

Lemma sim_run_acts c acts : forall s wk ml,
  sim c s wk ml ->
  sim c (run_acts c acts wk s).1.1 (run_acts c acts wk s).1.2
      (map_acts c acts ml)
  /\ deliveries (out (run_acts c acts wk s).1.1) = deliveries (out s).
Proof.
  induction acts as [|a acts IH]; intros s wk ml Hsim; [cbn; auto|].
  destruct (throws_dec a) as [->|Ha]; [cbn; auto|].
  assert (E : run_acts c (a :: acts) wk s
              = run_acts c acts (walked_after c a s wk) (perform a s))
    by (destruct a; try reflexivity; congruence).
  assert (E' : map_acts c (a :: acts) ml = map_acts c acts (map_act c a ml))
    by (destruct a; try reflexivity; congruence).
  rewrite E, E'.
  destruct (IH _ _ _ (sim_perform c a s wk ml Ha Hsim)) as [A B].
  split; [exact A|]. rewrite B. apply perform_deliveries.
Qed.

Lemma sim_invoke c k cb payload s wk ml :
  sim c s wk ml ->
  sim c (invoke c k cb payload wk s).1 (invoke c k cb payload wk s).2
      (map_acts c (cb_body cb) ml)
  /\ deliveries (out (invoke c k cb payload wk s).1) = deliveries (out s) ++ [k].
Proof.
  intros Hsim. unfold invoke.
  destruct (sim_run_acts c (cb_body cb)
              (say [Delivered k (cb_name cb) payload] s) wk ml) as [A B].
  { eapply sim_registry; [|exact Hsim]. reflexivity. }
  destruct (run_acts c (cb_body cb) wk _) as [[s1 wk1] threw].
  cbn [fst snd] in *.
  assert (Hd : deliveries (out s1) = deliveries (out s) ++ [k]).
  { rewrite B. cbn [say out]. rewrite deliveries_app. reflexivity. }
  destruct threw; [|auto]. split.
  - eapply sim_registry; [|exact A]. reflexivity.
  - cbn [say out]. rewrite deliveries_app, Hd. cbn. apply app_nil_r.
Qed.

(** *** The walk ends *)

Lemma map_weight_cons e m : map_weight (e :: m) = entry_weight e + map_weight m.
Proof. reflexivity. Qed.

Lemma map_weight_lookup i e m :
  m !! i = Some e ->
  map_weight (drop i m) = entry_weight e + map_weight (drop (S i) m).
Proof. intros H. rewrite (drop_S _ _ _ H). reflexivity. Qed.

Lemma map_weight_delete k m : forall j,
  map_weight (drop j (jm_delete k m)) <= map_weight (drop j m).
Proof.
  induction m as [|e m IH]; intros [|j]; cbn [drop jm_delete fmap list_fmap];
    try (cbn; lia).
  - rewrite !map_weight_cons. specialize (IH 0). rewrite !drop_0 in IH.
    unfold jm_delete in IH.
    assert (entry_weight (jm_kill k e) <= entry_weight e).
    { destruct e as [[k0 v]|]; cbn; [|lia]. destruct (decide (k0 = k)); cbn; lia. }
    lia.
  - apply IH.
Qed.

Lemma map_weight_set k v m : forall j,
  map_weight (drop j (jm_set k v m))
  <= map_weight (drop j m) + S (body_weight (cb_body v)).
Proof.
  induction m as [|e m IH]; intros j.
  - destruct j; cbn [jm_set drop]; rewrite ?drop_nil, ?map_weight_cons;
      cbn [map_weight foldr entry_weight]; lia.
  - destruct e as [[k0 v0]|]; cbn [jm_set].
    + destruct (decide (k0 = k)) as [->|Hne].
      * destruct j; cbn [drop]; [|lia]. rewrite !map_weight_cons.
        cbn [entry_weight]. lia.
      * destruct j; cbn [drop]; [|apply IH]. rewrite !map_weight_cons.
        specialize (IH 0). rewrite !drop_0 in IH. lia.
    + destruct j; cbn [drop]; [|apply IH]. rewrite !map_weight_cons.
      specialize (IH 0). rewrite !drop_0 in IH. lia.
Qed.

Lemma map_act_weight c a ml j :
  map_weight (drop j (map_act c a ml).1)
  <= map_weight (drop j ml.1) + act_weight a.
Proof.
  unfold map_act. destruct ml as [m [|]]; cbn [fst snd]; [|lia].
  destruct a as [c' i|c' i name body| |name|id name|id name|];
    cbn [fst snd]; try lia.
  - destruct (decide (c' = c)); cbn [fst]; [|lia].
    pose proof (map_weight_delete i m j). lia.
  - rewrite act_weight_subscribe.
    destruct (decide (c' = c)); cbn [fst]; [|lia].
    apply (map_weight_set i {| cb_name := name; cb_body := body |}).
Qed.

Lemma map_acts_weight c acts : forall ml j,
  map_weight (drop j (map_acts c acts ml).1)
  <= map_weight (drop j ml.1) + body_weight acts.
Proof.
  induction acts as [|a acts IH]; intros ml j; [cbn; lia|].
  destruct (throws_dec a) as [->|Ha]; [cbn; lia|].
  assert (E' : map_acts c (a :: acts) ml = map_acts c acts (map_act c a ml))
    by (destruct a; try reflexivity; congruence).
  rewrite E'. cbn [body_weight foldr]. fold (body_weight acts).
  pose proof (IH (map_act c a ml) j). pose proof (map_act_weight c a ml j). lia.
Qed.

Lemma walk_fun c i m linked called :
  walk c i m linked called ->
  forall called', walk c i m linked called' -> called' = called.
Proof.
  induction 1 as [i m linked Hi|i m linked called Hi _ IH
                 |i m linked k cb called Hi _ IH];
    intros called' H'; inversion H'; subst; try congruence.
  - apply IH. assumption.
  - assert (Heq : Some (k, cb) = Some (callbackId, callback)) by congruence.
    injection Heq as <- <-. f_equal. apply IH. assumption.
Qed.

(** With fuel for the weight of what is left of the map, the walk comes
    to the end of the map, and more fuel changes nothing. *)
Lemma forEach_from_walk c payload : forall n i s wk ml,
  sim c s wk ml ->
  map_weight (drop i ml.1) < n ->
  exists called s',
    walk c i ml.1 ml.2 called
    /\ (forall fuel, map_weight (drop i ml.1) < fuel ->
                     forEach_from fuel i c payload wk s = s')
    /\ deliveries (out s') = deliveries (out s) ++ called.*1.
Proof.
  induction n as [|n IH]; intros i s wk ml Hsim Hn; [lia|].
  pose proof Hsim as (Hcur & _).
  destruct (ml.1 !! i) as [[[k cb]|]|] eqn:Hi.
  - pose proof (map_weight_lookup _ _ _ Hi) as Hw. cbn [entry_weight] in Hw.
    destruct (sim_invoke c k cb payload s wk ml Hsim) as [Hsim' Hd].
    pose proof (map_acts_weight c (cb_body cb) ml (S i)) as Hle.
    destruct (IH (S i) _ _ _ Hsim') as (called & s' & Hwalk & Hfuel & Hout); [lia|].
    exists ((k, cb) :: called), s'. split; [|split].
    + destruct ml as [m linked]. apply walk_call; assumption.
    + intros [|fuel] Hf; [lia|]. cbn [forEach_from]. rewrite Hcur, Hi.
      destruct (invoke c k cb payload wk s) as [s1 wk1] eqn:Einv.
      cbn [fst snd] in *. apply Hfuel. lia.
    + rewrite Hout, Hd, <- app_assoc. reflexivity.
  - pose proof (map_weight_lookup _ _ _ Hi) as Hw. cbn [entry_weight] in Hw.
    destruct (IH (S i) s wk ml Hsim) as (called & s' & Hwalk & Hfuel & Hout); [lia|].
    exists called, s'. split; [|split].
    + apply walk_pass; assumption.
    + intros [|fuel] Hf; [lia|]. cbn [forEach_from]. rewrite Hcur, Hi.
      apply Hfuel. lia.
    + exact Hout.
  - exists [], s. split; [|split].
    + apply walk_end. exact Hi.
    + intros [|fuel] Hf; [reflexivity|]. cbn [forEach_from]. rewrite Hcur, Hi.
      reflexivity.
    + cbn. rewrite app_nil_r. reflexivity.
Qed.

(** *** Callbacks that leave the others alone *)

Lemma jm_delete_drop {V} k (m : list (option (string * V))) j :
  drop j (jm_delete k m) = jm_delete k (drop j m).
Proof. unfold jm_delete. symmetry. apply fmap_drop. Qed.

Lemma jm_delete_not_key {V} k (m : list (option (string * V))) :
  k ∉ (jm_entries m).*1 -> jm_delete k m = m.
Proof.
  induction m as [|[[k0 v]|] m IH]; cbn; [reflexivity| |].
  - intros H. rewrite not_elem_of_cons in H. destruct H as [H1 H2].
    rewrite decide_False by congruence. unfold jm_delete in IH.
    rewrite (IH H2). reflexivity.
  - intros H. unfold jm_delete in IH. rewrite (IH H). reflexivity.
Qed.

Lemma map_acts_leaves c k acts : forall m linked j,
  Forall (leaves_the_others c k) (reached acts) ->
  k ∉ (jm_entries (drop j m)).*1 ->
  drop j (map_acts c acts (m, linked)).1 = drop j m.
Proof.
  induction acts as [|a acts IH]; intros m linked j Hall Hk; [reflexivity|].
  destruct (throws_dec a) as [->|Ha]; [reflexivity|].
  assert (E' : map_acts c (a :: acts) (m, linked)
               = map_acts c acts (map_act c a (m, linked)))
    by (destruct a; try reflexivity; congruence).
  assert (Er : reached (a :: acts) = a :: reached acts)
    by (destruct a; try reflexivity; congruence).
  rewrite Er in Hall. apply Forall_cons in Hall as [Hone Hall].
  assert (Hstep : drop j (map_act c a (m, linked)).1 = drop j m).
  { unfold map_act. cbn [fst snd]. destruct linked; [|reflexivity].
    destruct a as [c' i|c' i name body| |name|id name|id name|];
      cbn [fst]; try reflexivity.
    - destruct (decide (c' = c)) as [Hc|Hc]; [|reflexivity]. cbn [fst].
      cbn in Hone. rewrite (Hone Hc), jm_delete_drop.
      apply jm_delete_not_key. exact Hk.
    - cbn in Hone. rewrite decide_False by exact Hone. reflexivity. }
  rewrite E'. destruct (map_act c a (m, linked)) as [m1 linked1].
  cbn [fst] in Hstep. rewrite (IH m1 linked1 j Hall); [exact Hstep|].
  rewrite Hstep. exact Hk.
Qed.

Lemma walk_leaves c i m linked called :
  walk c i m linked called ->
  (forall k cb, Some (k, cb) ∈ drop i m ->
                Forall (leaves_the_others c k) (reached (cb_body cb))) ->
  NoDup (jm_entries (drop i m)).*1 ->
  called = jm_entries (drop i m).
Proof.
  induction 1 as [i m linked Hi|i m linked called Hi _ IH
                 |i m linked k cb called Hi _ IH]; intros Hall Hnd.
  - rewrite drop_ge by (apply lookup_ge_None; exact Hi). reflexivity.
  - rewrite (drop_S _ _ _ Hi) in *. cbn. apply IH.
    + intros k cb Hin. apply Hall. right. exact Hin.
    + exact Hnd.
  - rewrite (drop_S _ _ _ Hi) in *. cbn in Hnd |- *.
    apply NoDup_cons in Hnd as [Hk Hnd].
    pose proof (map_acts_leaves c k (cb_body cb) m linked (S i)
                  (Hall k cb ltac:(left)) Hk) as Hsame.
    rewrite Hsame in IH. f_equal. apply IH.
    + intros k' cb' Hin. apply Hall. right. exact Hin.
    + exact Hnd.
Qed.


(** *** Callbacks that subscribe only where they may *)

Lemma elem_of_jm_set {V} k (v : V) (m : list (option (string * V))) x :
  Some x ∈ jm_set k v m -> Some x ∈ m \/ x = (k, v).
Proof.
  induction m as [|[[k0 v0]|] m IH]; cbn.
  - intros [H|H]%elem_of_cons; [right; congruence|inversion H].
  - destruct (decide (k0 = k)) as [->|Hne].
    + intros [H|H]%elem_of_cons; [right; congruence|left; right; exact H].
    + intros [H|H]%elem_of_cons; [left; rewrite H; left|].
      destruct (IH H); [left; right; assumption|right; assumption].
  - intros [H|H]%elem_of_cons; [discriminate|].
    destruct (IH H); [left; right; assumption|right; assumption].
Qed.

Lemma elem_of_jm_delete {V} k (m : list (option (string * V))) x :
  Some x ∈ jm_delete k m -> Some x ∈ m.
Proof.
  unfold jm_delete. intros (e & He & Hin)%list_elem_of_fmap.
  destruct e as [[k0 v0]|]; cbn in He; [|discriminate].
  destruct (decide (k0 = k)); [discriminate|]. rewrite He. exact Hin.
Qed.

Lemma map_allowed_set A k v m :
  body_allowed A (cb_body v) -> map_allowed A m -> map_allowed A (jm_set k v m).
Proof.
  intros Hv Hm i cb Hin. apply elem_of_jm_set in Hin as [Hin|Heq].
  - eapply Hm. exact Hin.
  - injection Heq as -> ->. exact Hv.
Qed.

Lemma map_allowed_delete A k m :
  map_allowed A m -> map_allowed A (jm_delete k m).
Proof. intros Hm i cb Hin. eapply Hm, elem_of_jm_delete, Hin. Qed.

Lemma map_allowed_nil A : map_allowed A [].
Proof. intros i cb H. inversion H. Qed.

Lemma registry_allowed_eq A s s' :
  subscriptions s' = subscriptions s ->
  registry_allowed A s -> registry_allowed A s'.
Proof. unfold registry_allowed. intros ->. auto. Qed.

Lemma registry_allowed_True s : registry_allowed (fun _ _ => True) s.
Proof. intros c sub _ i cb _. apply body_allowed_True. Qed.

Lemma registry_allowed_subscribe A c i cb s :
  body_allowed A (cb_body cb) ->
  registry_allowed A s -> registry_allowed A (subscribe c i cb s).
Proof.
  intros Hcb Hs c' sub' Hget. destruct (decide (c' = c)) as [->|Hne].
  - destruct (jm_get c (subscriptions s)) as [sub|] eqn:E.
    + rewrite (subscribe_same c i cb s sub E) in Hget. injection Hget as <-.
      cbn [callbacks]. apply map_allowed_set; [exact Hcb|]. apply (Hs c sub E).
    + destruct (subscriptions_subscribe c i cb s) as [H|(sub & H & _)];
        [|congruence].
      rewrite H, jm_get_set_eq, E in Hget. injection Hget as <-.
      cbn [callbacks]. apply (map_allowed_set A i cb []); [exact Hcb|].
      apply map_allowed_nil.
  - rewrite subscribe_other in Hget by congruence. apply (Hs c' sub' Hget).
Qed.

Lemma registry_allowed_unsubscribe A c i s :
  registry_allowed A s -> registry_allowed A (unsubscribe c i s).
Proof.
  intros Hs c' sub' Hget. pose proof (subscriptions_unsubscribe c i s) as E.
  destruct (jm_get c (subscriptions s)) as [sub|] eqn:Hc.
  2:{ rewrite E in Hget. apply (Hs c' sub' Hget). }
  cbn zeta in E. rewrite E in Hget. cbn [callbacks] in Hget.
  destruct (decide (c' = c)) as [->|Hne].
  - destruct (jm_size _ =? 0)%nat.
    + rewrite jm_get_delete_eq in Hget. discriminate.
    + rewrite jm_get_set_eq in Hget. injection Hget as <-. cbn [callbacks].
      apply map_allowed_delete, (Hs c sub Hc).
  - apply (Hs c'). destruct (_ =? 0)%nat;
      rewrite ?jm_get_delete_ne, jm_get_set_ne in Hget by congruence; exact Hget.
Qed.

Lemma registry_allowed_disconnect A s : registry_allowed A (disconnect s).
Proof.
  intros c sub Hget. rewrite subscriptions_disconnect, jm_get_clear in Hget.
  discriminate.
Qed.

Lemma registry_allowed_perform A a s :
  act_allowed A a -> registry_allowed A s -> registry_allowed A (perform a s).
Proof.
  intros Ha Hs. destruct a; cbn [perform].
  - apply registry_allowed_unsubscribe, Hs.
  - apply act_allowed_subscribe in Ha as [_ Hb].
    apply registry_allowed_subscribe; assumption.
  - apply registry_allowed_disconnect.
  - exact Hs.
  - eapply registry_allowed_eq; [|exact Hs]. apply subscribeToExecution_frame.
  - eapply registry_allowed_eq; [|exact Hs]. apply unsubscribeFromExecution_frame.
  - exact Hs.
Qed.

Lemma walked_allowed A c a s wk :
  act_allowed A a -> registry_allowed A s ->
  map_allowed A (current c wk s) ->
  map_allowed A (current c (walked_after c a s wk) (perform a s)).
Proof.
  intros Ha Hs Hm.
  assert (Hreg : map_allowed A (current c None (perform a s))).
  { unfold current. destruct (jm_get c (subscriptions (perform a s))) eqn:E.
    - apply (registry_allowed_perform A a s Ha Hs c _ E).
    - apply map_allowed_nil. }
  destruct wk as [m|]; [exact Hm|]. cbn [walked_after].
  destruct a; try exact Hreg.
  - destruct (decide _); [|exact Hreg].
    destruct (_ =? 0)%nat; [|exact Hreg]. cbn [current].
    apply map_allowed_delete, Hm.
  - exact Hm.
Qed.


(** *** What every operation preserves *)

Section Preservation.

Variable P : State -> Prop.
Variables top allowed : string -> string -> Prop.

Hypothesis P_say : forall o s, P s -> P (say o s).
Hypothesis P_reconnecting : forall b s, P s -> P (with_reconnecting b s).
Hypothesis P_connectionPromise :
  forall b s, P s -> P (with_connectionPromise b s).
Hypothesis P_socketClient : forall s, P s -> P (with_socketClient s).
Hypothesis P_connectionCallbacks :
  forall x s, P s -> P (with_connectionCallbacks x s).
Hypothesis P_workflowCallbacks :
  forall x s, P s -> P (with_workflowCallbacks x s).
Hypothesis P_flag :
  forall sock sock' s,
    socket s = Some sock -> listeners sock' = listeners sock ->
    P s -> P (with_socket (Some sock') s).
Hypothesis P_setup : forall c s, P s -> P (setupCollectionListeners c s).
Hypothesis P_subscribe :
  forall c i cb s, top c i \/ allowed c i -> P s -> P (subscribe c i cb s).
Hypothesis P_unsubscribe : forall c i s, P s -> P (unsubscribe c i s).
Hypothesis P_connect : forall s, P s -> P (connect s).
Hypothesis P_disconnect : forall s, P s -> P (disconnect s).

Local Abbreviation Q s := (P s /\ registry_allowed allowed s).

Lemma P_onConnectionChange name s : P s -> P (onConnectionChange name s).
Proof. intros Hs. unfold onConnectionChange. auto. Qed.

Lemma P_subscribeToExecution id name s : P s -> P (subscribeToExecution id name s).
Proof. intros Hs. unfold subscribeToExecution. destruct (isConnected s); auto. Qed.

Lemma P_unsubscribeFromExecution id name s :
  P s -> P (unsubscribeFromExecution id name s).
Proof.
  intros Hs. unfold unsubscribeFromExecution. destruct (jm_get _ _); auto.
  destruct (_ =? 0)%nat; auto.
Qed.

Lemma P_perform a s : act_allowed allowed a -> P s -> P (perform a s).
Proof.
  intros Ha Hs. destruct a; cbn [perform];
    auto using P_onConnectionChange, P_subscribeToExecution,
               P_unsubscribeFromExecution.
  apply act_allowed_subscribe in Ha as [Ha _]. auto.
Qed.

Lemma P_run_acts c acts : forall wk s,
  body_allowed allowed acts -> Q s ->
  map_allowed allowed (current c wk s) ->
  Q (run_acts c acts wk s).1.1
  /\ map_allowed allowed
       (current c (run_acts c acts wk s).1.2 (run_acts c acts wk s).1.1).
Proof.
  induction acts as [|a acts IH]; intros wk s Hall [Hs Hr] Hm; [cbn; auto|].
  destruct (throws_dec a) as [->|Ha]; [cbn; auto|].
  assert (E : run_acts c (a :: acts) wk s
              = run_acts c acts (walked_after c a s wk) (perform a s))
    by (destruct a; try reflexivity; congruence).
  rewrite E. apply Forall_cons in Hall as [H1 H2].
  apply IH; [exact H2| |apply walked_allowed; assumption].
  split; [apply P_perform; assumption|apply registry_allowed_perform; assumption].
Qed.

Lemma P_invoke c k cb payload wk s :
  body_allowed allowed (cb_body cb) -> Q s ->
  map_allowed allowed (current c wk s) ->
  Q (invoke c k cb payload wk s).1
  /\ map_allowed allowed
       (current c (invoke c k cb payload wk s).2 (invoke c k cb payload wk s).1).
Proof.
  intros Hb [Hs Hr] Hm. unfold invoke.
  destruct (P_run_acts c (cb_body cb) wk
              (say [Delivered k (cb_name cb) payload] s) Hb) as ([A B] & C).
  { split; [auto|]. eapply registry_allowed_eq; [|exact Hr]. reflexivity. }
  { exact Hm. }
  destruct (run_acts c (cb_body cb) wk _) as [[s1 wk1] threw].
  cbn [fst snd] in *. destruct threw; [|auto].
  split; [split; [auto|]|exact C].
  eapply registry_allowed_eq; [|exact B]. reflexivity.
Qed.

Lemma P_forEach_from c payload fuel : forall i wk s,
  Q s -> map_allowed allowed (current c wk s) ->
  Q (forEach_from fuel i c payload wk s).
Proof.
  induction fuel as [|fuel IH]; intros i wk s Hs Hm; cbn [forEach_from];
    [exact Hs|].
  destruct (current c wk s !! i) as [[[k cb]|]|] eqn:Hi; auto.
  assert (Hb : body_allowed allowed (cb_body cb)).
  { apply (Hm k cb). eapply list_elem_of_lookup_2. exact Hi. }
  destruct (P_invoke c k cb payload wk s Hb Hs Hm) as (A & C).
  destruct (invoke c k cb payload wk s) as [s1 wk1]. cbn [fst snd] in *.
  apply IH; assumption.
Qed.

Lemma P_handleCollectionEvent c payload s :
  Q s -> Q (handleCollectionEvent c payload s).
Proof.
  intros Hs. unfold handleCollectionEvent.
  destruct (jm_get c (subscriptions s)) as [sub|] eqn:E; [|exact Hs].
  apply P_forEach_from; [exact Hs|]. unfold current. rewrite E.
  apply (proj2 Hs c sub E).
Qed.

Lemma P_subscribeOnServer c s : P s -> P (subscribeOnServer c s).
Proof. intros Hs. unfold subscribeOnServer. destruct (isConnected s); auto. Qed.

Lemma P_resubscribeAll s : Q s -> Q (resubscribeAll s).
Proof.
  unfold resubscribeAll. generalize (jm_entries (subscriptions s)).
  intros l. revert s. induction l as [|e l IH]; intros s Hs; cbn [foldl]; auto.
  apply IH. destruct Hs as [Hs Hr]. split.
  - apply P_setup, P_subscribeOnServer, Hs.
  - eapply registry_allowed_eq; [|exact Hr].
    destruct (setup_frame e.1 (subscribeOnServer e.1 s)) as (-> & _).
    apply subscribeOnServer_frame.
Qed.

Lemma P_notify b s : P s -> P (notifyConnectionChange b s).
Proof. intros Hs. unfold notifyConnectionChange. auto. Qed.

Lemma P_handleWorkflowUpdate id s : P s -> P (handleWorkflowUpdate id s).
Proof. intros Hs. unfold handleWorkflowUpdate. destruct (jm_get _ _); auto. Qed.

Lemma subscriptions_handleWorkflowUpdate id s :
  subscriptions (handleWorkflowUpdate id s) = subscriptions s.
Proof. unfold handleWorkflowUpdate. destruct (jm_get _ _); reflexivity. Qed.

Lemma P_listener_body l arg s : Q s -> Q (listener_body l arg s).
Proof.
  intros Hs.
  destruct l; cbn [listener_body];
    try (destruct Hs as [Hs Hr]; split;
         [auto using P_notify
         |eapply registry_allowed_eq; [|exact Hr]; reflexivity]; fail).
  - destruct Hs as [Hs Hr]. destruct (reconnecting _); split; auto;
      (eapply registry_allowed_eq; [|exact Hr]; reflexivity).
  - assert (H1 : Q (resubscribeAll
                      (with_reconnecting false (say [Console "log"] s)))).
    { apply P_resubscribeAll. destruct Hs as [Hs Hr]. split; [auto|].
      eapply registry_allowed_eq; [|exact Hr]. reflexivity. }
    destruct H1 as [H1 H2]. split; [apply P_notify, H1|].
    eapply registry_allowed_eq; [|exact H2]. reflexivity.
  - destruct arg; auto. destruct Hs as [Hs Hr]. split.
    + apply P_handleWorkflowUpdate, Hs.
    + eapply registry_allowed_eq; [|exact Hr].
      apply subscriptions_handleWorkflowUpdate.
  - destruct arg; auto. destruct Hs as [Hs Hr]. split.
    + apply P_handleWorkflowUpdate, Hs.
    + eapply registry_allowed_eq; [|exact Hr].
      apply subscriptions_handleWorkflowUpdate.
  - destruct arg; auto using P_handleCollectionEvent.
Qed.

Lemma P_receive event arg s : Q s -> Q (receive event arg s).
Proof.
  intros Hs. unfold receive. destruct (socket s) as [sock|] eqn:E; [|exact Hs].
  match goal with |- context [with_socket (Some ?sk) s] =>
    assert (H0 : Q (with_socket (Some sk) s))
      by (split;
          [apply (P_flag sock); [exact E| |exact (proj1 Hs)];
           destruct (_ || _); [reflexivity|destruct (bool_decide _); reflexivity]
          |eapply registry_allowed_eq; [|exact (proj2 Hs)]; reflexivity]);
    generalize dependent (with_socket (Some sk) s);
    generalize (listeners sk) end.
  intros ls. induction ls as [|el ls IH]; intros s0 Hs0; cbn [foldl]; [exact Hs0|].
  apply IH. destruct (bool_decide _); auto using P_listener_body.
Qed.

Lemma P_apply_op op s : op_meets top allowed op -> Q s -> Q (apply_op op s).
Proof.
  intros Hop [Hs Hr].
  destruct op; cbn [apply_op]; try (apply P_receive; split; assumption).
  - split; [auto|]. eapply registry_allowed_eq; [|exact Hr]. reflexivity.
  - split; [auto|]. eapply registry_allowed_eq; [|exact Hr].
    unfold connect. destruct (connectionPromise s); [reflexivity|].
    destruct (isConnected s); [reflexivity|].
    destruct (negb (socketClient s)); reflexivity.
  - split; [auto|apply registry_allowed_disconnect].
  - destruct Hop as [Htop Hb]. split; [auto|].
    apply registry_allowed_subscribe; assumption.
  - split; [auto|apply registry_allowed_unsubscribe, Hr].
  - split; [apply P_onConnectionChange, Hs|].
    eapply registry_allowed_eq; [|exact Hr]. reflexivity.
  - split; [apply P_subscribeToExecution, Hs|].
    eapply registry_allowed_eq; [|exact Hr]. apply subscribeToExecution_frame.
  - split; [apply P_unsubscribeFromExecution, Hs|].
    eapply registry_allowed_eq; [|exact Hr]. apply unsubscribeFromExecution_frame.
Qed.

Lemma P_run ops :
  forall s, Forall (op_meets top allowed) ops -> Q s -> Q (run ops s).
Proof.
  induction ops as [|op ops IH]; intros s Hops Hs; [exact Hs|].
  apply Forall_cons in Hops as [Hop Hops]. cbn [run foldl].
  apply IH; [exact Hops|]. apply P_apply_op; assumption.
Qed.

End Preservation.


(** *** A handle called again *)

Lemma subscriptions_setup c s :
  subscriptions (setupCollectionListeners c s) = subscriptions s.
Proof. apply setup_frame. Qed.

Lemma subscriptions_connect s : subscriptions (connect s) = subscriptions s.
Proof.
  unfold connect. destruct (connectionPromise s); [reflexivity|].
  destruct (isConnected s); [reflexivity|].
  destruct (negb (socketClient s)); reflexivity.
Qed.

(** A property of the registry alone that subscribing (where allowed),
    calling a handle and disconnecting preserve holds after any run. *)
Lemma registry_property_run (P : State -> Prop) top allowed :
  keeps_registry P ->
  (forall c i cb s, top c i \/ allowed c i -> P s -> P (subscribe c i cb s)) ->
  (forall c i s, P s -> P (unsubscribe c i s)) ->
  (forall s, P s -> P (disconnect s)) ->
  forall ops s, Forall (op_meets top allowed) ops ->
                registry_allowed allowed s -> P s ->
                P (run ops s) /\ registry_allowed allowed (run ops s).
Proof.
  intros Hk Hsub Hunsub Hdis ops s Hops Hr Hs.
  apply (P_run P top allowed); auto;
    try (intros; eapply Hk; [|eassumption]; reflexivity).
  - intros c s0 H0. eapply Hk; [|exact H0]. apply subscriptions_setup.
  - intros s0 H0. eapply Hk; [|exact H0]. apply subscriptions_connect.
Qed.

Lemma every_op_meets_True ops :
  Forall (op_meets (fun _ _ => True) (fun _ _ => True)) ops.
Proof.
  apply Forall_forall. intros [] _; cbn; auto using body_allowed_True.
Qed.

Lemma nonempty_subscribe c i cb s :
  nonempty_records s -> nonempty_records (subscribe c i cb s).
Proof.
  intros H c' sub' Hget.
  destruct (decide (c' = c)) as [->|Hne].
  - apply (jm_get_Some_size i cb).
    pose proof (registered_subscribe c i cb c i s) as R. unfold registered in R.
    rewrite Hget in R. cbn in R. rewrite decide_True in R by auto. exact R.
  - apply (H c').
    destruct (subscriptions_subscribe c i cb s) as [E|(sub & _ & E)];
      rewrite E, jm_get_set_ne in Hget by congruence; exact Hget.
Qed.

Lemma nonempty_unsubscribe c i s :
  nonempty_records s -> nonempty_records (unsubscribe c i s).
Proof.
  intros H c' sub' Hget. pose proof (subscriptions_unsubscribe c i s) as E.
  destruct (jm_get c (subscriptions s)) as [sub|] eqn:Hc.
  2:{ rewrite E in Hget. apply (H c' sub' Hget). }
  cbn zeta in E. rewrite E in Hget. cbn [callbacks] in Hget.
  destruct (decide (c' = c)) as [->|Hne].
  - destruct (jm_size (jm_delete i (callbacks sub)) =? 0)%nat eqn:Hsz.
    + rewrite jm_get_delete_eq in Hget. discriminate.
    + rewrite jm_get_set_eq in Hget. injection Hget as <-. cbn [callbacks].
      apply Nat.eqb_neq in Hsz. lia.
  - apply (H c'). destruct (_ =? 0)%nat;
      rewrite ?jm_get_delete_ne, jm_get_set_ne in Hget by congruence; exact Hget.
Qed.

Lemma nonempty_disconnect s : nonempty_records (disconnect s).
Proof.
  intros c sub Hget. unfold disconnect in Hget. cbn in Hget.
  assert (E : forall s0 : State, subscriptions
             (match socket s0 with
              | Some _ => with_socket None (say [TransportClosed] s0)
              | None => s0
              end) = subscriptions s0) by (intros s0; destruct (socket s0); reflexivity).
  rewrite jm_get_clear in Hget. discriminate.
Qed.


Lemma nonempty_reachable ops : nonempty_records (run ops initial).
Proof.
  apply (registry_property_run nonempty_records (fun _ _ => True) (fun _ _ => True)).
  - intros s s' E H c sub Hget. rewrite E in Hget. apply (H c sub Hget).
  - intros. apply nonempty_subscribe. assumption.
  - intros. apply nonempty_unsubscribe. assumption.
  - intros. apply nonempty_disconnect.
  - apply every_op_meets_True.
  - apply registry_allowed_True.
  - intros c sub H. discriminate H.
Qed.

Lemma with_subscriptions_same s : with_subscriptions (subscriptions s) s = s.
Proof. destruct s. reflexivity. Qed.

Lemma unsubscribe_absent c i s :
  nonempty_records s -> registered c i s = None -> unsubscribe c i s = s.
Proof.
  intros Hne Habs. unfold registered in Habs. unfold unsubscribe.
  destruct (jm_get c (subscriptions s)) as [sub|] eqn:E; [|reflexivity].
  cbn in Habs. cbn [callbacks]. rewrite (jm_delete_absent _ _ Habs).
  pose proof (Hne c sub E) as Hsz.
  destruct (jm_size (callbacks sub) =? 0)%nat eqn:Hz;
    [apply Nat.eqb_eq in Hz; lia|].
  replace {| collection := collection sub; callbacks := callbacks sub |} with sub
    by (destruct sub; reflexivity).
  rewrite (jm_set_same _ _ _ E). apply with_subscriptions_same.
Qed.


(** C10.  Take any reachable state, call the handle of
    [subscribe(c, _)] whose callback id is [i], then let anything happen
    that does not subscribe to [c] under that same id again, be it the
    application or a callback that was registered before or is
    registered afterwards (others may subscribe and unsubscribe, the
    connection may drop and come back, events may arrive, the handle
    itself may be called).  The first call removes the callback
    registered under [(c, i)] and no other; calling the handle once more
    leaves the whole state as it is, so it removes nobody's callback and
    sends nothing. *)
Theorem handle_called_again_changes_nothing ops0 ops c i :
  Forall (op_callbacks_allowed (fun c' i' => ~ (c' = c /\ i' = i))) ops0 ->
  Forall (op_allowed (fun c' i' => ~ (c' = c /\ i' = i))) ops ->
  let s0 := run ops0 initial in
  let s1 := unsubscribe c i s0 in
  let s2 := run ops s1 in
  registered c i s1 = None
  /\ (forall c' j, ~ (c' = c /\ j = i) -> registered c' j s1 = registered c' j s0)
  /\ unsubscribe c i s2 = s2.
Proof.
  intros Hops0 Hops. cbn zeta.
  pose proof (nonempty_reachable ops0) as H0.
  assert (Hr0 : registry_allowed (fun c' i' => ~ (c' = c /\ i' = i))
                                 (run ops0 initial)).
  { apply (registry_property_run (fun _ => True) (fun _ _ => True)
             (fun c' i' => ~ (c' = c /\ i' = i))); auto.
    - intros s s' _ _. exact I.
    - intros c' sub H. discriminate H. }
  set (s0 := run ops0 initial) in *.
  assert (H1 : registered c i (unsubscribe c i s0) = None).
  { rewrite registered_unsubscribe, decide_True by auto. reflexivity. }
  split; [exact H1|]. split.
  - intros c' j Hn. rewrite registered_unsubscribe, decide_False by exact Hn.
    reflexivity.
  - assert (H2 : (nonempty_records (run ops (unsubscribe c i s0))
                  /\ registered c i (run ops (unsubscribe c i s0)) = None)
                 /\ registry_allowed (fun c' i' => ~ (c' = c /\ i' = i))
                      (run ops (unsubscribe c i s0))).
    { apply (registry_property_run
               (fun s => nonempty_records s /\ registered c i s = None)
               (fun c' i' => ~ (c' = c /\ i' = i))
               (fun c' i' => ~ (c' = c /\ i' = i))); auto.
      - intros s s' E [A B]. split.
        + intros c' sub Hget. rewrite E in Hget. apply (A c' sub Hget).
        + unfold registered in *. rewrite E. exact B.
      - intros c' i' cb s Hal [A B]. split; [apply nonempty_subscribe, A|].
        rewrite registered_subscribe, decide_False; [exact B|].
        intros [-> ->]. destruct Hal as [Hal|Hal]; apply Hal; auto.
      - intros c' i' s [A B]. split; [apply nonempty_unsubscribe, A|].
        rewrite registered_unsubscribe. destruct (decide _); auto.
      - intros s _. split; [apply nonempty_disconnect|].
        unfold registered, disconnect. cbn. rewrite jm_get_clear. reflexivity.
      - apply registry_allowed_unsubscribe, Hr0.
      - split; [apply nonempty_unsubscribe, H0|exact H1]. }
    destruct H2 as [[A B] _]. apply unsubscribe_absent; assumption.
Qed.


(** *** Explicit and transport-reported disconnects *)

Lemma has_colon_event c e : has_colon (collection_event c e) = true.
Proof.
  unfold collection_event. induction c as [|a c IH].
  - reflexivity.
  - change (Ascii.eqb a ":"%char || has_colon (c +:+ ":" +:+ event_name e) = true).
    rewrite IH. apply orb_true_r.
Qed.

Lemma collection_event_not_disconnect c e : collection_event c e <> "disconnect".
Proof.
  intros H. pose proof (has_colon_event c e) as Hc. rewrite H in Hc.
  discriminate Hc.
Qed.

Lemma reached_by_attached c sock :
  reached_by "disconnect"
    {| connected := connected sock;
       listeners := listeners sock ++ collection_listeners c |}
  = reached_by "disconnect" sock.
Proof.
  unfold reached_by. cbn [listeners]. rewrite List.filter_app, fmap_app.
  cbn. rewrite !bool_decide_eq_false_2 by apply collection_event_not_disconnect.
  cbn. apply app_nil_r.
Qed.

Lemma reached_by_detached c sock :
  reached_by "disconnect"
    {| connected := connected sock;
       listeners := List.filter (fun el => negb (is_listener_of c el))
                                (listeners sock) |}
  = reached_by "disconnect" sock.
Proof.
  unfold reached_by. cbn [listeners]. f_equal.
  rewrite filter_filter_and. apply List.filter_ext_in. intros [n l] _.
  cbn [fst]. destruct (bool_decide (n = "disconnect")) eqn:E.
  - apply bool_decide_eq_true in E. subst n. unfold is_listener_of. cbn [fst].
    rewrite bool_decide_eq_false_2; [reflexivity|].
    intros Hin. apply list_elem_of_fmap in Hin as (e & He & _).
    apply (collection_event_not_disconnect c e). auto.
  - apply andb_false_r.
Qed.

Lemma socket_subscribe c i cb s :
  socket (subscribe c i cb s)
  = match jm_get c (subscriptions s) with
    | Some _ => socket s
    | None => attached c (socket s)
    end.
Proof.
  unfold subscribe. destruct (warn_frame s) as (W1 & W2 & _).
  set (s0 := if isConnected s then s else say [Console "warn"] s) in *.
  rewrite W1. destruct (jm_get c (subscriptions s)); cbn [with_subscriptions socket].
  - exact W2.
  - rewrite socket_setup.
    match goal with |- context [subscribeOnServer c ?x] =>
      destruct (subscribeOnServer_frame c x) as (_ & B2 & _) end.
    rewrite B2. cbn. rewrite W2. reflexivity.
Qed.

Lemma socket_unsubscribe c i s :
  socket (unsubscribe c i s) = socket s
  \/ socket (unsubscribe c i s) = detached c (socket s).
Proof.
  unfold unsubscribe. destruct (jm_get c (subscriptions s)) as [sub|]; [|auto].
  destruct (jm_size _ =? 0)%nat; [|auto]. right.
  cbn [with_subscriptions socket]. rewrite socket_remove.
  match goal with |- context [unsubscribeOnServer c ?x] =>
    destruct (unsubscribeOnServer_frame c x) as (_ & B2 & _) end.
  rewrite B2. reflexivity.
Qed.


Lemma disconnect_listener_reachable ops :
  disconnect_listener_only (run ops initial).
Proof.
  apply (P_run disconnect_listener_only (fun _ _ => True) (fun _ _ => True));
    try (intros; intros sock E; cbn in E; auto; fail).
  - intros sock sock' s E Hl H sk [= <-]. unfold reached_by. rewrite Hl.
    apply (H sock E).
  - intros c s H sock E. rewrite socket_setup in E.
    destruct (socket s) as [sk|] eqn:Es; [|discriminate E].
    injection E as <-. rewrite reached_by_attached. apply H. exact Es.
  - intros c i cb s _ H sock E. rewrite socket_subscribe in E.
    destruct (jm_get c (subscriptions s)); [apply H; exact E|].
    destruct (socket s) as [sk|] eqn:Es; [|discriminate E].
    injection E as <-. rewrite reached_by_attached. apply H. exact Es.
  - intros c i s H sock E.
    destruct (socket_unsubscribe c i s) as [E'|E']; rewrite E' in E;
      [apply H; exact E|].
    destruct (socket s) as [sk|] eqn:Es; [|discriminate E].
    injection E as <-. rewrite reached_by_detached. apply H. exact Es.
  - intros s H sock E. unfold connect in E.
    destruct (connectionPromise s); [apply H; exact E|].
    destruct (isConnected s); [apply H; exact E|].
    destruct (negb (socketClient s)); [apply H; exact E|].
    cbn in E. injection E as <-. reflexivity.
  - intros s H sock E. unfold disconnect in E. cbn in E.
    destruct (socket s) eqn:Es; cbn in E; [discriminate E|].
    rewrite Es in E. discriminate E.
  - apply every_op_meets_True.
  - split; [|apply registry_allowed_True]. intros sock E. discriminate E.
Qed.

Lemma foldl_listeners event arg (ls : list (string * Listener)) : forall s,
  foldl (fun s el => if bool_decide (el.1 = event)
                     then listener_body el.2 arg s else s) s ls
  = foldl (fun s l => listener_body l arg s) s
          (List.filter (fun el => bool_decide (el.1 = event)) ls).*2.
Proof.
  induction ls as [|[n l] ls IH]; intros s; cbn [foldl List.filter fst snd];
    [reflexivity|].
  destruct (bool_decide (n = event)); cbn [fmap list_fmap foldl snd]; apply IH.
Qed.



(** *** Replay *)

Lemma isConnected_setup c s :
  isConnected (setupCollectionListeners c s) = isConnected s.
Proof.
  unfold isConnected. rewrite socket_setup. destruct (socket s); reflexivity.
Qed.

Lemma isConnected_subscribeOnServer c s :
  isConnected (subscribeOnServer c s) = isConnected s.
Proof.
  unfold isConnected. destruct (subscribeOnServer_frame c s) as (_ & -> & _).
  reflexivity.
Qed.

(** [resubscribeAll] sends one subscribe intent for every registered
    collection, in registration order, when the socket is connected, and
    does not touch the registry. *)
Lemma resubscribeAll_resends_every_intent s :
  subscriptions (resubscribeAll s) = subscriptions s
  /\ messages (out (resubscribeAll s))
     = messages (out s) ++
       (if isConnected s
        then (fun e => ("subscribe", e.1)) <$> jm_entries (subscriptions s)
        else []).
Proof.
  unfold resubscribeAll. generalize (jm_entries (subscriptions s)) as l.
  intros l. revert s. induction l as [|e l IH]; intros s; cbn [foldl].
  - destruct (isConnected s); cbn; rewrite app_nil_r; auto.
  - destruct (IH (setupCollectionListeners e.1 (subscribeOnServer e.1 s)))
      as [A B].
    destruct (setup_frame e.1 (subscribeOnServer e.1 s)) as (C1 & C2 & _).
    destruct (subscribeOnServer_frame e.1 s) as (D1 & _ & D3).
    rewrite A, B, C1, C2, D1, D3, isConnected_setup, isConnected_subscribeOnServer.
    split; [reflexivity|]. rewrite messages_app.
    destruct (isConnected s); cbn; rewrite <- ?app_assoc; reflexivity.
Qed.


End RealtimeFacts.

(** ** Clearing the credential store *)

Section CredentialClearing.

Variable net : nat -> NetReply.
Variable config : HttpClientConfig.

Lemma exec_clearAuth w :
  exec net Auth.clearAuth w
  = (inr tt,
     set_store (fun m => Storage.remove Storage.TENANT
                          (Storage.remove Storage.USER
                            (Storage.remove Storage.TOKEN_EXPIRY
                              (Storage.remove Storage.REFRESH_TOKEN
                                (Storage.remove Storage.ACCESS_TOKEN m))))) w).
Proof. reflexivity. Qed.

Lemma logout_store w :
  exists w1,
    store (exec net (Auth.logout config) w).2
    = store (set_store (fun m => Storage.remove Storage.TENANT
                          (Storage.remove Storage.USER
                            (Storage.remove Storage.TOKEN_EXPIRY
                              (Storage.remove Storage.REFRESH_TOKEN
                                (Storage.remove Storage.ACCESS_TOKEN m))))) w1).
Proof.
  unfold Auth.logout. rewrite exec_bind, exec_catch, exec_bind, exec_await.
  destruct (exec net (Client.get config "/auth/logout" no_options) w)
    as [[e|v] w1]; cbn [exec]; rewrite exec_bind, exec_await, exec_clearAuth;
    exists w1; reflexivity.
Qed.

(** Logging out erases the access token, the refresh token, the expiry
    and the tenant from the credential store, whatever was stored and
    however the logout request went; a refresh that fails erases
    nothing. *)
Lemma logout_clears_and_failed_refresh_does_not w :
  Forall (fun key => store (exec net (Auth.logout config) w).2 !! key = None)
         Storage.credential_keys
  /\ match (exec net (Client.refreshToken config) w).1 with
     | inl _ => store (exec net (Client.refreshToken config) w).2 = store w
     | inr _ => True
     end.
Proof.
  split.
  - destruct (logout_store w) as (w1 & ->). cbn [store set_store].
    unfold Storage.credential_keys, Storage.remove.
    repeat constructor; simplify_map_eq; reflexivity.
  - destruct (exec_refreshToken net config w) as (_ & _ & _ & H). exact H.
Qed.

End CredentialClearing.

(** ** The claims on concrete runs *)

Module Runs.
Import Scenario.

(** C8 on the code.  A signed-in client sends a call; the server
    answers 401 to it and to the refresh that follows.  The request
    fails with [REFRESH_FAILED] and the authentication-lost handler
    runs, which on an SDK instance announces [SIGNED_OUT]; yet the
    access token, the refresh token and the tenant are all still in the
    credential store, every credential key reads as before, and
    [isAuthenticated] still answers true.  Logging out of the same
    session erases all four. *)
Theorem session_lost_is_announced_but_credentials_stay :
  let run := exec always_401
               (Client.request jwt_config "GET" "/items" no_options)
               signed_in in
  run.1 = inl (BaasixError "Token refresh failed" 401
                 (Some "REFRESH_FAILED") None)
  /\ onAuthError jwt_config = true
  /\ num_auth_errors (log run.2) = 1
  /\ store run.2 !! Storage.ACCESS_TOKEN = Some "old-token"
  /\ store run.2 !! Storage.REFRESH_TOKEN = Some "refresh-1"
  /\ store run.2 !! Storage.TENANT = Some "tenant-1"
  /\ Forall (fun key => store run.2 !! key = store signed_in !! key)
            Storage.credential_keys
  /\ (exec always_401
        (AuthModule.isAuthenticated string MoreScenario.always_truthy
           MoreScenario.parse_text jwt_config None) run.2).1
     = inr (true, None)
  /\ Forall (fun key =>
               store (exec always_401 (Auth.logout jwt_config) signed_in).2
                 !! key = None)
            Storage.credential_keys.
Proof. vm_compute. repeat split; repeat constructor. Qed.

(** The refresh on its own: the refresh endpoint answers 401, the
    refresh fails with [REFRESH_FAILED], and nothing is erased. *)
Lemma failed_refresh_does_not_clear_credentials :
  let run := exec always_401 (Client.refreshToken jwt_config) signed_in in
  run.1 = inl (BaasixError "Token refresh failed" 401
                 (Some "REFRESH_FAILED") None)
  /\ store run.2 !! Storage.ACCESS_TOKEN = Some "old-token"
  /\ store run.2 !! Storage.REFRESH_TOKEN = Some "refresh-1"
  /\ store run.2 !! Storage.TENANT = Some "tenant-1".
Proof. vm_compute. repeat split. Qed.

(** C2, as stated, fails: the call is answered 401, the refresh that
    follows succeeds but hands out a token that expires within the
    sixty-second buffer, so rebuilding the headers refreshes a second
    time before the single retry; the request succeeds.  Two refreshes
    follow the one 401. *)
Lemma one_401_can_trigger_two_refreshes :
  let run := exec short_lived_tokens
               (Client.request jwt_config "GET" "/items" no_options)
               signed_in in
  exists pre post,
    log run.2 = pre ++ EvResponse Original 401 :: post
    /\ num_fetches Original pre = 1 /\ num_refreshes pre = 0
    /\ num_refreshes post = 2
    /\ num_fetches RefreshEndpoint post = 2
    /\ num_fetches Retry post = 1
    /\ run.1 = inr (VData items).
Proof.
  eexists [_], _. vm_compute. repeat split.
Qed.

(** The theorem for C2 on a run where the refresh fails: the server
    answers 401 to the call and to the refresh, so there is no retry,
    the caller gets the failure of the refresh and the handler runs
    once. *)
Lemma request_401_refreshes_then_retries_once_witness :
  let run := exec always_401
               (Client.request jwt_config "GET" "/items" no_options)
               signed_in in
  run.1 = inl (BaasixError "Token refresh failed" 401
                 (Some "REFRESH_FAILED") None)
  /\ num_fetches Retry (log run.2) = 0
  /\ num_auth_errors (log run.2) = 1.
Proof.
  destruct (request_401_refreshes_then_retries_once always_401 jwt_config
              "GET" "/items" no_options signed_in eq_refl eq_refl)
    as (evs & Hlog & _ & _ & H & _).
  destruct (H {| status := 401; statusText := "-"; json := None |}
              eq_refl eq_refl)
    as (pre & post & Hpre & -> & _ & Hr & _ & Hfail & _).
  destruct (Hfail (BaasixError "Token refresh failed" 401
                     (Some "REFRESH_FAILED") None) eq_refl)
    as (_ & Hn & Hres & Ha).
  cbv zeta. rewrite Hlog. split; [exact Hres|].
  unfold num_fetches, num_auth_errors in *.
  rewrite !count_app, Hr, Hn, Ha.
  assert (Hp : pre = log (exec always_401
                 (original_attempt jwt_config "GET" "/items" no_options)
                 signed_in).2) by (rewrite Hpre; reflexivity).
  rewrite Hp. vm_compute. auto.
Defined.

(** C7, as stated, fails: the stored token has expired, the refresh is
    attempted and fails for want of a refresh token, the store still
    holds [stored-token], and yet the call goes out with the statically
    configured token. *)
Lemma static_token_is_attached_not_the_stored_one :
  let run := exec always_401
               (Client.request static_token_config "GET" "/items" no_options)
               expired_no_refresh in
  (exec always_401 (Client.refreshToken static_token_config)
        expired_no_refresh).1
    = inl (BaasixError "No refresh token available" 401
             (Some "NO_REFRESH_TOKEN") None)
  /\ head (log run.2) = Some EvRefreshBody
  /\ store run.2 !! Storage.ACCESS_TOKEN = Some "stored-token"
  /\ (fun h : gmap string string => h !! "Authorization")
       <$> fetch_headers Original (log run.2)
     = [Some "Bearer service-token"].
Proof. vm_compute. repeat split. Qed.

(** The hypotheses of the theorem for C7 hold of an expired session. *)
Lemma request_refreshes_expiring_token_first_witness :
  let net := always_401 in
  let config := jwt_config in
  let opts := no_options in
  let w := expired_no_refresh in
  let r1 := (exec net (Client.refreshToken config) w).1 in
  let w1 := (exec net (Client.refreshToken config) w).2 in
  let w' := (exec net (Client.request config "GET" "/items" opts) w).2 in
  exists rest1 init rest2,
    log w1 = log w ++ EvRefreshBody :: rest1 /\
    forallb refresh_ev rest1 = true /\
    log w' = log w1 ++
             EvFetch Original (Client.buildUrl config "/items") init :: rest2 /\
    (opt_headers opts = None ->
       f_headers init = auth_headers config (store w1)) /\
    (failed r1 -> store w1 = store w).
Proof.
  apply (request_refreshes_expiring_token_first always_401 jwt_config
           "GET" "/items" no_options expired_no_refresh "1000" 1000%Z);
    first [reflexivity | vm_compute; discriminate].
Defined.

(** C9 on the code: the original attempt is under the timeout ... *)
Lemma slow_original_attempt_times_out :
  let run := exec slow_server
               (Client.request jwt_config "GET" "/items" no_options)
               signed_in in
  run.1 = inl (BaasixError "Request timeout" 408 (Some "TIMEOUT") None)
  /\ count is_cancelled (log run.2) = 1
  /\ now run.2 = (now signed_in + timeout jwt_config)%Z.
Proof. vm_compute. repeat split. Qed.

(** C9 on the code: ... but the retry is not.  With a timeout of one
    second, a retry that takes fifty seconds is issued without the
    controller's signal, is never cancelled, and the caller gets its
    answer fifty seconds later instead of a timeout. *)
Theorem slow_retry_is_not_cancelled :
  let run := exec slow_retry
               (Client.request jwt_config "GET" "/items" no_options)
               signed_in in
  fetch_signals Original (log run.2) = [SigTimeout 5001000]
  /\ fetch_signals Retry (log run.2) = [SigNone]
  /\ count is_cancelled (log run.2) = 0
  /\ run.1 = inr (VData items)
  /\ (now run.2 - now signed_in = 50020)%Z
  /\ timeout jwt_config = 1000%Z.
Proof. vm_compute. repeat split. Qed.

(** C1 on a run: four callers find the token expired, three of them
    while the refresh started by the first is pending.  One network call
    is made, all four are handed promise 0 and the two that have returned
    got the same tokens; the next caller starts a second refresh. *)
Example four_callers_one_network_call :
  let ok_reply : Error + Response :=
    inr {| status := 200; statusText := "-";
           json := Some (JObject (refresh_data "token-2" (Some 30%Z))) |} in
  let s := Coordinator.run jwt_config
             [Coordinator.Call; Coordinator.Call; Coordinator.Call;
              Coordinator.Resume 0; Coordinator.Call;
              Coordinator.Answer 0 ok_reply;
              Coordinator.Resume 0; Coordinator.Resume 0; Coordinator.Resume 0;
              Coordinator.Return 0; Coordinator.Return 3;
              Coordinator.Call]
             (Coordinator.initial (store signed_in) 5000000) in
  Coordinator.handed s = [0; 0; 0; 0; 1]
  /\ Coordinator.network_calls s = 1
  /\ (Coordinator.delivered s).*1 = [0; 3]
  /\ (exists tokens, (Coordinator.delivered s).*2 = [inr tokens; inr tokens]
                     /\ t_accessToken tokens = "token-2")
  /\ Coordinator.refreshPromise s = Some 1
  /\ Coordinator.c_store s !! Storage.ACCESS_TOKEN = Some "token-2".
Proof. vm_compute. repeat split. eexists. split; reflexivity. Qed.

(** *** The realtime module *)

(** C3 on the code.  A collection is subscribed while connected, and
    one subscribe intent is sent.  The transport then drops and comes
    back, which it reports to the socket as [disconnect] and then
    [connect]: the module is connected again and the callback is still
    registered, but nothing has been sent to the server.  The listener
    of [connect] (lines 192-197) does not replay; only the listener of
    [reconnect] (lines 211-217) does, and that one was not reached. *)
Theorem reconnection_replays_nothing :
  let before :=
    Realtime.run [Realtime.Subscribe "products" "id-1" (quiet "listener")]
                 online in
  let down := Realtime.run [Realtime.Receive "disconnect" Realtime.NoArg] before in
  let after := Realtime.run [Realtime.Receive "connect" Realtime.NoArg] down in
  Realtime.isConnected before = true
  /\ Realtime.messages (Realtime.out before) = [("subscribe", "products")]
  /\ Realtime.isConnected down = false
  /\ Realtime.isConnected after = true
  /\ Realtime.registered "products" "id-1" after = Some (quiet "listener")
  /\ Realtime.messages (Realtime.out after) = [("subscribe", "products")]
  /\ (Realtime.reached_by "connect" <$> Realtime.socket down)
     = Some [Realtime.OnConnect]
  /\ (Realtime.reached_by "reconnect" <$> Realtime.socket down)
     = Some [Realtime.OnReconnect].
Proof. vm_compute. repeat split. Qed.

(** The replay itself, on a transport that does report [reconnect] to
    the socket: the registry is as it was and one fresh subscribe intent
    is sent, but the replay has attached the collection's listeners a
    second time, so the same event is now delivered twice to the same
    callback. *)
Lemma replay_delivers_each_event_twice :
  let before :=
    Realtime.run [Realtime.Subscribe "products" "id-1" (quiet "listener")]
                 online in
  let after :=
    Realtime.run [Realtime.Receive "disconnect" Realtime.NoArg;
                  Realtime.Receive "reconnect" Realtime.NoArg] before in
  let event :=
    Realtime.Receive "products:create" (Realtime.WithPayload product_created) in
  Realtime.deliveries (Realtime.out (Realtime.apply_op event before))
    = Realtime.deliveries (Realtime.out before) ++ ["id-1"]
  /\ Realtime.subscriptions after = Realtime.subscriptions before
  /\ Realtime.messages (Realtime.out after)
     = Realtime.messages (Realtime.out before) ++ [("subscribe", "products")]
  /\ (Realtime.reached_by "products:create" <$> Realtime.socket after)
     = Some [Realtime.OnCollection "products"; Realtime.OnCollection "products"]
  /\ Realtime.deliveries (Realtime.out (Realtime.apply_op event after))
     = Realtime.deliveries (Realtime.out after) ++ ["id-1"; "id-1"].
Proof. vm_compute. repeat split. Qed.


(** A run on which the callbacks leave each other alone: the first
    unsubscribes itself and throws; the second is still called, each
    exactly once. *)
Example thrower_does_not_stop_dispatch :
  let s :=
    Realtime.run
      [Realtime.Subscribe "products" "id-1" leaves_and_throws;
       Realtime.Subscribe "products" "id-2" (quiet "second")] online in
  Realtime.deliveries
    (Realtime.out (Realtime.handleCollectionEvent "products" product_created s))
  = Realtime.deliveries (Realtime.out s) ++ ["id-1"; "id-2"].
Proof. vm_compute. reflexivity. Qed.

(** A callback subscribed to the collection while the event is being
    dispatched is called for that same event, after the others. *)
Example callback_added_during_dispatch_is_called :
  let s :=
    Realtime.run
      [Realtime.Subscribe "products" "id-1" subscribes_another;
       Realtime.Subscribe "products" "id-2" (quiet "second")] online in
  Realtime.registered "products" "id-3" s = None
  /\ Realtime.deliveries
       (Realtime.out (Realtime.handleCollectionEvent "products" product_created s))
     = Realtime.deliveries (Realtime.out s) ++ ["id-1"; "id-2"; "id-3"].
Proof. vm_compute. split; reflexivity. Qed.

(** After a [disconnect()] from inside a callback the registry is empty,
    and the callbacks that were registered after it are still called:
    the handle of the second one no longer finds it. *)
Example dispatch_goes_on_after_disconnect :
  let s :=
    Realtime.run
      [Realtime.Subscribe "products" "id-1" disconnects;
       Realtime.Subscribe "products" "id-2" (quiet "second")] online in
  let s' := Realtime.handleCollectionEvent "products" product_created s in
  jm_entries (Realtime.subscriptions s') = []
  /\ Realtime.deliveries (Realtime.out s')
     = Realtime.deliveries (Realtime.out s) ++ ["id-1"; "id-2"].
Proof. vm_compute. split; reflexivity. Qed.

(** C5, as stated, fails: on a module that is not connected the first
    subscribe registers the callback but sends no subscribe intent and
    attaches no listener; connecting afterwards sends none either. *)
Lemma first_subscribe_offline_sends_nothing :
  let s := Realtime.subscribe "products" "id-1" (quiet "listener")
                              Realtime.initial in
  let later :=
    Realtime.run [Realtime.SetSocketClient; Realtime.Connect;
                  Realtime.Receive "connect" Realtime.NoArg] s in
  Realtime.registered "products" "id-1" s = Some (quiet "listener")
  /\ Realtime.messages (Realtime.out s) = []
  /\ Realtime.socket s = None
  /\ Realtime.isConnected later = true
  /\ Realtime.messages (Realtime.out later) = [].
Proof. vm_compute. repeat split. Qed.

(** The hypotheses of the theorem for C10 hold of this run: after the
    handle of ["id-1"] was called, someone else subscribes to the same
    collection with a callback that subscribes a third one when it is
    called, an event arrives and the handle is called again. *)
Lemma handle_called_again_changes_nothing_witness :
  let ops0 := [Realtime.SetSocketClient; Realtime.Connect;
               Realtime.Receive "connect" Realtime.NoArg;
               Realtime.Subscribe "products" "id-1" (quiet "first")] in
  let ops := [Realtime.Subscribe "products" "id-2" subscribes_another;
              Realtime.Receive "products:create"
                               (Realtime.WithPayload product_created);
              Realtime.CallHandle "products" "id-1"] in
  let s0 := Realtime.run ops0 Realtime.initial in
  let s1 := Realtime.unsubscribe "products" "id-1" s0 in
  let s2 := Realtime.run ops s1 in
  Realtime.registered "products" "id-1" s1 = None
  /\ (forall c' j, ~ (c' = "products" /\ j = "id-1") ->
        Realtime.registered c' j s1 = Realtime.registered c' j s0)
  /\ Realtime.unsubscribe "products" "id-1" s2 = s2.
Proof.
  apply (RealtimeFacts.handle_called_again_changes_nothing
           [Realtime.SetSocketClient; Realtime.Connect;
            Realtime.Receive "connect" Realtime.NoArg;
            Realtime.Subscribe "products" "id-1" (quiet "first")]
           [Realtime.Subscribe "products" "id-2" subscribes_another;
            Realtime.Receive "products:create"
                             (Realtime.WithPayload product_created);
            Realtime.CallHandle "products" "id-1"]
           "products" "id-1").
  - repeat constructor.
  - repeat (constructor || (intros [_ H]; discriminate H)).
Defined.

End Runs.

(** * The rest of the HTTP client *)


(** ** Rules for [logs_only] *)

Section LogRules.

Variable net : nat -> NetReply.

Lemma lo_weaken {A : Type} (P P' : Event -> Prop) (Q Q' : A -> Prop) p :
  (forall ev, P ev -> P' ev) -> (forall a, Q a -> Q' a) ->
  logs_only net P Q p -> logs_only net P' Q' p.
Proof.
  intros HP HQ H w. destruct (H w) as (evs & Hl & Hf & Hr).
  exists evs. split; [exact Hl|]. split.
  - eapply Forall_impl; eauto.
  - destruct (exec net p w).1; auto.
Qed.

Lemma lo_ret {A : Type} (P : Event -> Prop) (Q : A -> Prop) a :
  Q a -> logs_only net P Q (Ret a).
Proof. intros H w. exists []. rewrite app_nil_r. repeat split; auto. Qed.

Lemma lo_throw {A : Type} (P : Event -> Prop) (Q : A -> Prop) e :
  logs_only net P Q (Throw e).
Proof. intros w. exists []. rewrite app_nil_r. repeat split; auto. Qed.

Lemma lo_bind {A B : Type} (P : Event -> Prop) (Q : A -> Prop)
      (R : B -> Prop) p (f : A -> Prog B) :
  logs_only net P Q p -> (forall a, Q a -> logs_only net P R (f a)) ->
  logs_only net P R (bind p f).
Proof.
  intros Hp Hf w. rewrite exec_bind.
  destruct (Hp w) as (evs & Hl & HP & Hr).
  destruct (exec net p w) as [[e|a] w1]; cbn [fst snd] in *.
  - exists evs. auto.
  - destruct (Hf a Hr w1) as (evs2 & Hl2 & HP2 & Hr2).
    exists (evs ++ evs2). rewrite Hl2, Hl, app_assoc.
    split; [reflexivity|]. split; [apply Forall_app; auto|exact Hr2].
Qed.

Lemma lo_catch {A : Type} (P : Event -> Prop) (Q : A -> Prop) p
      (h : Error -> Prog A) :
  logs_only net P Q p -> (forall e, logs_only net P Q (h e)) ->
  logs_only net P Q (catch p h).
Proof.
  intros Hp Hh w. rewrite exec_catch.
  destruct (Hp w) as (evs & Hl & HP & Hr).
  destruct (exec net p w) as [[e|a] w1]; cbn [fst snd] in *.
  - destruct (Hh e w1) as (evs2 & Hl2 & HP2 & Hr2).
    exists (evs ++ evs2). rewrite Hl2, Hl, app_assoc.
    split; [reflexivity|]. split; [apply Forall_app; auto|exact Hr2].
  - exists evs. auto.
Qed.

Lemma lo_await {A : Type} (P : Event -> Prop) (Q : A -> Prop) p :
  logs_only net P Q p -> logs_only net P Q (await p).
Proof. intros H w. rewrite exec_await. apply H. Qed.

Lemma lo_emit (P : Event -> Prop) ev :
  P ev -> logs_only net P (fun _ => True) (emit ev).
Proof. intros H w. exists [ev]. repeat split; auto. Qed.

Lemma lo_when (P : Event -> Prop) b p :
  logs_only net P (fun _ => True) p ->
  logs_only net P (fun _ => True) (when b p).
Proof. destruct b; [auto|]. intros _. apply lo_ret. exact I. Qed.

Lemma lo_fetch (P : Event -> Prop) site url init :
  P (EvFetch site url init) -> (forall st, P (EvResponse site st)) ->
  P (EvCancelled site) ->
  logs_only net P (fun _ => True) (fetch site url init).
Proof.
  intros H1 H2 H3 w. rewrite exec_fetch.
  destruct (do_fetch_cases net site url init w) as [_ Hc].
  destruct (do_fetch net site url init w) as [r w1]; cbn [fst snd] in *.
  destruct Hc as [(resp & -> & Hl)|[[(m & ->) Hl]|(-> & _ & Hl)]];
    eexists; (split; [exact Hl|]); split; auto.
Qed.

Lemma lo_read_json (P : Event -> Prop) resp :
  logs_only net P (fun _ => True) (read_json resp).
Proof.
  intros w. exists []. rewrite app_nil_r. unfold read_json. cbn [exec].
  destruct (json resp); cbn; auto.
Qed.

End LogRules.

Section LogClient.

Variable net : nat -> NetReply.
Variable config : HttpClientConfig.

Lemma lo_refreshToken :
  logs_only net of_refresh (fun _ => True) (Client.refreshToken config).
Proof.
  intros w. destruct (exec_refreshToken net config w) as (rest & Hl & Hr & _).
  exists (EvRefreshBody :: rest). split; [exact Hl|]. split.
  - constructor; [left; reflexivity|].
    apply Forall_forall. intros e He. right.
    rewrite forallb_forall in Hr. apply Hr, list_elem_of_In, He.
  - destruct (exec net (Client.refreshToken config) w).1; exact I.
Qed.

Lemma configured_base : configured_headers config (base_headers config).
Proof. intros k _. reflexivity. Qed.

Lemma configured_built st : configured_headers config (built_headers config st).
Proof.
  unfold built_headers, auth_headers. intros k Hk.
  destruct (is_jwt (authMode config)); [|reflexivity].
  destruct (resolve_token config st) as [t|]; [|reflexivity].
  destruct (truthy (Some t)); [|reflexivity].
  apply lookup_insert_ne. congruence.
Qed.

Lemma lo_buildHeaders skipAuth :
  logs_only net of_refresh (configured_headers config)
            (Client.buildHeaders config skipAuth).
Proof.
  intros w. destruct skipAuth.
  - rewrite exec_buildHeaders_skip. exists []. rewrite app_nil_r.
    repeat split; auto.
  - destruct (buildHeaders_cases net config w) as [Hr Hw].
    rewrite Hr. destruct Hw as [->|(rest & Hl & Hrest)].
    + exists []. rewrite app_nil_r. split; [reflexivity|]. split; [constructor|].
      apply configured_built.
    + exists (EvRefreshBody :: rest). split; [exact Hl|]. split.
      * constructor; [left; reflexivity|].
        apply Forall_forall. intros e He. right.
        rewrite forallb_forall in Hrest. apply Hrest, list_elem_of_In, He.
      * apply configured_built.
Qed.

Lemma lo_parseError (P : Event -> Prop) resp :
  logs_only net P (fun _ => True) (Client.parseError resp).
Proof.
  intros w. pose proof (exec_parseError net resp w) as H.
  exists []. rewrite app_nil_r.
  destruct (null_body resp); [rewrite H|destruct H as (m & c & d & ->)];
    repeat split; auto.
Qed.

End LogClient.

Section RequestShape.

Variable net : nat -> NetReply.
Variable config : HttpClientConfig.

Lemma lo_date_now (P : Event -> Prop) :
  logs_only net P (fun _ => True) date_now.
Proof. intros w. exists []. rewrite app_nil_r. repeat split; auto. Qed.

Lemma of_refresh_attempt method url opts ev :
  of_refresh ev -> is_attempt_of config method url opts ev.
Proof.
  intros [->|H]; [exact I|].
  destruct ev as [|site u i| | | | |]; try exact I.
  destruct site; try discriminate H. exact I.
Qed.

Lemma spread_attempt method url opts h sig site :
  site <> RefreshEndpoint ->
  configured_headers config h ->
  is_attempt_of config method url opts
    (EvFetch site url
       (Client.spread opts
          {| f_method := method;
             f_headers := default ∅ (opt_headers opts) ∪ h;
             f_body := NoBody;
             f_credentials := credentials config;
             f_signal := sig |})).
Proof.
  intros Hs Hh. destruct site; [congruence| |];
    (cbn; repeat split; auto;
     destruct (opt_headers opts) as [h'|]; cbn; [reflexivity|];
     rewrite (left_id_L ∅ (∪)); exact Hh).
Qed.

Lemma lo_deliver (P : Event -> Prop) (rawResponse : bool) resp :
  logs_only net P (fun _ => True)
    (if negb (ok resp) then
       let* e := await (Client.parseError resp) in Throw e
     else if rawResponse then Ret (VResponse resp)
     else if (status resp =? 204)%Z then Ret VEmptyObject
     else let* j := read_json resp in Ret (parsed j)).
Proof.
  intros w. destruct (exec_deliver net rawResponse resp w) as (r & -> & _).
  exists []. rewrite app_nil_r. repeat split; auto. destruct r; exact I.
Qed.

Lemma lo_refresh_and_retry_gen (P : Event -> Prop) method url opts :
  (forall ev, of_refresh ev -> P ev) ->
  (forall h, configured_headers config h ->
     P (EvFetch Retry url
          (Client.spread opts
             {| f_method := method;
                f_headers := default ∅ (opt_headers opts) ∪ h;
                f_body := NoBody;
                f_credentials := credentials config;
                f_signal := SigNone |}))) ->
  (forall st, P (EvResponse Retry st)) -> P (EvCancelled Retry) ->
  P EvAuthError ->
  logs_only net P (fun _ => True)
            (Client.refresh_and_retry config method url opts).
Proof.
  intros Hr Hf Hresp Hc Ha.
  unfold Client.refresh_and_retry. apply lo_catch.
  - eapply lo_bind.
    { apply lo_await. eapply lo_weaken; [exact Hr| |apply lo_refreshToken].
      intros a Ha'. exact Ha'. }
    intros _ _. eapply lo_bind.
    { apply lo_await. eapply lo_weaken; [exact Hr| |apply lo_buildHeaders].
      intros a Ha'. exact Ha'. }
    intros h Hh. eapply lo_bind.
    { apply lo_fetch; auto. }
    intros resp _. apply lo_deliver.
  - intros e. eapply lo_bind.
    { apply lo_when, lo_emit. exact Ha. }
    intros _ _. apply lo_throw.
Qed.

Lemma lo_surface (P : Event -> Prop) e :
  logs_only net P (fun _ => True) (Client.surface e).
Proof. destruct e; apply lo_throw. Qed.

Lemma lo_request method path opts :
  logs_only net (is_attempt_of config method (Client.buildUrl config path) opts)
            (fun _ => True) (Client.request config method path opts).
Proof.
  unfold Client.request. eapply lo_bind.
  { apply lo_await. eapply lo_weaken; [apply of_refresh_attempt| |apply lo_buildHeaders].
    intros a Ha. exact Ha. }
  intros h Hh. eapply lo_bind; [apply lo_date_now|].
  intros t0 _. apply lo_catch; [|intros e; apply lo_surface].
  eapply lo_bind.
  { apply lo_fetch; [|intros; exact I|exact I].
    apply spread_attempt; [discriminate|exact Hh]. }
  intros resp _.
  destruct ((status resp =? 401)%Z && negb (opt_skipAuth opts) && autoRefresh config).
  - apply lo_refresh_and_retry_gen; try (intros; exact I).
    + apply of_refresh_attempt.
    + intros h' Hh'. apply spread_attempt; [discriminate|exact Hh'].
  - apply lo_deliver.
Qed.

End RequestShape.

Section RequestOutcomes.

Variable net : nat -> NetReply.
Variable config : HttpClientConfig.

Lemma exec_buildHeaders_ok skipAuth w :
  exists h, (exec net (Client.buildHeaders config skipAuth) w).1 = inr h.
Proof.
  destruct skipAuth.
  - rewrite exec_buildHeaders_skip. eauto.
  - destruct (buildHeaders_cases net config w) as [-> _]. eauto.
Qed.

End RequestOutcomes.

Lemma count_Forall_false f (evs : list Event) :
  Forall (fun ev => f ev = false) evs -> count f evs = 0%nat.
Proof.
  induction 1 as [|e l He _ IH]; [reflexivity|].
  rewrite count_cons, He, IH. reflexivity.
Qed.

Lemma do_fetch_calls net site url init w :
  calls (do_fetch net site url init w).2 = S (calls w).
Proof.
  unfold do_fetch. cbn zeta.
  destruct (f_signal init) as [|d|]; [| |];
    try (destruct (d <=? _)%Z); try reflexivity;
    destruct (reply (net (calls w))); reflexivity.
Qed.

Lemma single_call_counts evs :
  single_call evs ->
  num_refreshes evs = 0%nat /\ count is_auth_state_change evs = 0%nat
  /\ num_fetches Original evs = 1%nat.
Proof.
  intros (u & i & H). destruct H as [-> | [[st ->] | ->]]; repeat split.
Qed.

Section RequestOutcomes2.

Variable net : nat -> NetReply.
Variable config : HttpClientConfig.

Lemma of_refresh_not_cancelled ev :
  of_refresh ev -> is_cancelled_original ev = false.
Proof.
  intros [->|H]; [reflexivity|].
  destruct ev as [| | |site| | |]; try reflexivity. discriminate H.
Qed.

(** X2.  When the timer cancels the original attempt, the request
    fails with the error [Request timeout], status 408, code [TIMEOUT],
    which is not marked retryable; the cancellation is the last thing
    that happens: one attempt, no retry, no notification that
    authentication was lost. *)
Theorem cancelled_request_fails_with_timeout method path opts w :
  let run := exec net (Client.request config method path opts) w in
  let evs := drop (length (log w)) (log run.2) in
  count is_cancelled_original evs <> 0%nat ->
  run.1 = inl (BaasixError "Request timeout" 408 (Some "TIMEOUT") None)
  /\ HttpClient.isRetryable 408 = false
  /\ last evs = Some (EvCancelled Original)
  /\ num_fetches Original evs = 1%nat
  /\ num_fetches Retry evs = 0%nat
  /\ num_auth_errors evs = 0%nat.
Proof.
  cbv zeta. unfold Client.request. rewrite exec_bind, exec_await.
  destruct (lo_buildHeaders net config (opt_skipAuth opts) w)
    as (evs0 & Hl0 & Hf0 & Hq0).
  destruct (exec net (Client.buildHeaders config (opt_skipAuth opts)) w)
    as [[e|h] w1] eqn:E0; cbn [fst snd] in *.
  { destruct (exec_buildHeaders_ok net config (opt_skipAuth opts) w) as (h & Hh).
    rewrite E0 in Hh. discriminate Hh. }
  assert (C0 : count is_cancelled_original evs0 = 0%nat).
  { apply count_Forall_false. eapply Forall_impl; [exact Hf0|].
    apply of_refresh_not_cancelled. }
  assert (F0 : num_fetches Original evs0 = 0%nat /\ num_fetches Retry evs0 = 0%nat
               /\ num_auth_errors evs0 = 0%nat).
  { repeat split; apply count_Forall_false; (eapply Forall_impl; [exact Hf0|]);
      intros ev [->|H]; try reflexivity;
      destruct ev as [|site ? ?| | | | |]; try reflexivity; try discriminate H;
      destruct site; try reflexivity; discriminate H. }
  destruct F0 as (F1 & F2 & F3).
  cbn [date_now bind exec]. rewrite exec_catch, exec_bind, exec_fetch.
  match goal with |- context [do_fetch net Original ?u ?i w1] =>
    set (url := u); set (init := i) end.
  destruct (do_fetch_cases net Original url init w1) as [_ Hc]. clearbody init.
  destruct (do_fetch net Original url init w1) as [r w2]; cbn [fst snd] in *.
  destruct Hc as [(resp & -> & Hl)|[[(m & ->) Hl]|(-> & _ & Hl)]].
  - (* a response came back: nothing that follows is a cancellation *)
    match goal with |- context [exec net ?p w2] =>
      assert (Hrest : logs_only net (fun ev => is_cancelled_original ev = false)
                                (fun _ => True) p) end.
    { destruct ((status resp =? 401)%Z && negb (opt_skipAuth opts) && autoRefresh config).
      - apply lo_refresh_and_retry_gen; try reflexivity.
        apply of_refresh_not_cancelled.
      - apply lo_deliver. }
    destruct (Hrest w2) as (evs2 & Hl2 & Hf2 & _).
    match goal with |- context [exec net ?p w2] =>
      destruct (exec net p w2) as [[e|v] w3] end; cbn [fst snd] in *.
    + destruct (exec_surface net e w3) as (e' & -> & _). cbn [fst snd].
      rewrite Hl2, Hl, Hl0, <- !app_assoc, drop_app_length.
      intros H. exfalso. apply H.
      rewrite !count_app, C0, (count_Forall_false _ _ Hf2). reflexivity.
    + cbn [fst snd]. rewrite Hl2, Hl, Hl0, <- !app_assoc, drop_app_length.
      intros H. exfalso. apply H.
      rewrite !count_app, C0, (count_Forall_false _ _ Hf2). reflexivity.
  - (* the transport failed *)
    cbn [exec Client.surface fst snd].
    rewrite Hl, Hl0, <- !app_assoc, drop_app_length.
    intros H. exfalso. apply H. rewrite !count_app, C0. reflexivity.
  - (* the timer fired first *)
    cbn [exec Client.surface fst snd].
    rewrite Hl, Hl0, <- !app_assoc, drop_app_length. intros _.
    split; [reflexivity|]. split; [reflexivity|].
    split; [rewrite last_app; reflexivity|].
    unfold num_fetches, num_auth_errors in *.
    rewrite !count_app, F1, F2, F3. repeat split.
Qed.

Lemma request_single_call method path opts w :
  opt_skipAuth opts = true \/ autoRefresh config = false ->
  let w' := (exec net (Client.request config method path opts) w).2 in
  exists evs,
    log w' = log w ++ evs /\ single_call evs
    /\ store w' = store w /\ calls w' = S (calls w).
Proof.
  intros Hno. cbv zeta. unfold Client.request. rewrite exec_bind, exec_await.
  assert (Hb : exists h, exec net (Client.buildHeaders config (opt_skipAuth opts)) w
                         = (inr h, w)).
  { destruct (opt_skipAuth opts) eqn:Hs.
    - rewrite exec_buildHeaders_skip. eauto.
    - destruct Hno as [Hno|Hno]; [discriminate Hno|].
      rewrite exec_buildHeaders, Hno. cbn [andb].
      destruct (is_jwt (authMode config)); eauto. }
  destruct Hb as (h & ->).
  cbn [date_now bind exec]. rewrite exec_catch, exec_bind, exec_fetch.
  assert (Hcond : forall st, (st =? 401)%Z && negb (opt_skipAuth opts) && autoRefresh config = false).
  { intros st. destruct Hno as [-> | ->]; cbn;
      rewrite ?andb_false_r; reflexivity. }
  match goal with |- context [do_fetch net Original ?u ?i w] =>
    set (url := u); set (init := i) end.
  destruct (do_fetch_cases net Original url init w) as [Hst Hc].
  pose proof (do_fetch_calls net Original url init w) as Hcalls.
  clearbody init.
  destruct (do_fetch net Original url init w) as [r w2]; cbn [fst snd] in *.
  destruct Hc as [(resp & -> & Hl)|[[(m & ->) Hl]|(-> & _ & Hl)]].
  - rewrite Hcond.
    destruct (exec_deliver net (opt_rawResponse opts) resp w2) as (r & -> & _).
    assert (Hfin : exists res,
              (let (s, w') := (r, w2) in
               match s with
               | inl e => exec net (Client.surface e) w'
               | inr a => (inr a, w')
               end) = (res, w2)).
    { destruct r as [e|v]; [|eauto].
      destruct (exec_surface net e w2) as (e' & -> & _). eauto. }
    destruct Hfin as (res & ->). cbn [fst snd].
    eexists. split; [exact Hl|]. repeat split; auto.
    exists url, init. right. left. eauto.
  - cbn [exec Client.surface fst snd].
    eexists. split; [exact Hl|]. repeat split; auto.
    exists url, init. left. reflexivity.
  - cbn [exec Client.surface fst snd].
    eexists. split; [exact Hl|]. repeat split; auto.
    exists url, init. right. right. reflexivity.
Qed.

(** X3.  With authentication skipped, or with automatic refresh turned
    off, a request is one network call and nothing else: no refresh
    before or after it, whatever the answer, and the credential store
    is left as it was. *)
Theorem request_without_refresh_is_a_single_call method path opts w :
  opt_skipAuth opts = true \/ autoRefresh config = false ->
  let w' := (exec net (Client.request config method path opts) w).2 in
  store w' = store w
  /\ calls w' = S (calls w)
  /\ single_call (drop (length (log w)) (log w')).
Proof.
  intros Hno. cbv zeta.
  destruct (request_single_call method path opts w Hno) as (evs & Hl & H1 & H2 & H3).
  cbv zeta in *. rewrite Hl, drop_app_length. auto.
Qed.

End RequestOutcomes2.


(** ** [parseInt] reads back what [toString] writes *)

Lemma digit_of_pretty_N_char (d : N) :
  (d < 10)%N -> digit_of (pretty_N_char d) = Some (Z.of_N d).
Proof.
  intros H.
  assert (d = 0 \/ d = 1 \/ d = 2 \/ d = 3 \/ d = 4 \/ d = 5 \/ d = 6
          \/ d = 7 \/ d = 8 \/ d = 9)%N as Hd by lia.
  repeat (destruct Hd as [->|Hd]; [reflexivity|]). subst. reflexivity.
Qed.

Lemma parse_digits_pretty_N_go (x : N) (s : string) :
  parse_digits (pretty_N_go x s) None
  = if decide (x = 0%N) then parse_digits s None
    else parse_digits s (Some (Z.of_N x)).
Proof.
  revert s. induction (N.lt_wf_0 x) as [x _ IH]. intros s.
  destruct (decide (x = 0%N)) as [->|Hx]; [reflexivity|].
  rewrite pretty_N_go_step by lia.
  rewrite IH by (apply N.div_lt; lia).
  assert (Hm : (x `mod` 10 < 10)%N) by (apply N.mod_lt; lia).
  pose proof (N.div_mod x 10 ltac:(lia)) as Hdm.
  destruct (decide (x `div` 10 = 0)%N) as [H0|H0]; cbn [parse_digits];
    rewrite (digit_of_pretty_N_char _ Hm); cbn [from_option id];
    match goal with |- parse_digits _ (Some ?a) = parse_digits _ (Some ?b) =>
      replace a with b by lia end; reflexivity.
Qed.

Lemma pretty_N_go_head (x : N) (s : string) :
  (0 < x)%N ->
  exists d s', (d < 10)%N /\ pretty_N_go x s = String (pretty_N_char d) s'.
Proof.
  revert s. induction (N.lt_wf_0 x) as [x _ IH]. intros s Hx.
  rewrite pretty_N_go_step by lia.
  destruct (decide (x `div` 10 = 0)%N) as [H0|H0].
  - rewrite H0, pretty_N_go_0. exists (x `mod` 10)%N, s.
    split; [apply N.mod_lt; lia|reflexivity].
  - apply IH; [apply N.div_lt; lia|]. destruct (x `div` 10)%N; [congruence|lia].
Qed.

Lemma parseInt_digits (d : N) (s : string) :
  (d < 10)%N ->
  parseInt (String (pretty_N_char d) s)
  = parse_digits (String (pretty_N_char d) s) None.
Proof.
  intros H.
  assert (d = 0 \/ d = 1 \/ d = 2 \/ d = 3 \/ d = 4 \/ d = 5 \/ d = 6
          \/ d = 7 \/ d = 8 \/ d = 9)%N as Hd by lia.
  repeat (destruct Hd as [->|Hd]; [reflexivity|]). subst. reflexivity.
Qed.

Lemma parseInt_pretty_pos (p : positive) :
  parseInt (pretty (N.pos p)) = Some (Z.pos p)
  /\ parse_digits (pretty (N.pos p)) None = Some (Z.pos p).
Proof.
  unfold pretty, pretty_N. rewrite decide_False by discriminate.
  destruct (pretty_N_go_head (N.pos p) EmptyString) as (d & s' & Hd & Hs); [lia|].
  assert (Hp : parse_digits (pretty_N_go (N.pos p) EmptyString) None = Some (Z.pos p)).
  { rewrite parse_digits_pretty_N_go, decide_False by discriminate. reflexivity. }
  split; [|exact Hp]. rewrite Hs in *. rewrite parseInt_digits by exact Hd. exact Hp.
Qed.

Lemma parseInt_decimal (z : Z) : parseInt (pretty z) = Some z.
Proof.
  unfold pretty, pretty_Z. destruct z as [|p|p].
  - reflexivity.
  - apply parseInt_pretty_pos.
  - change ("-" +:+ pretty p) with (String "-"%char (pretty (N.pos p))).
    unfold parseInt. cbn [skip_spaces is_space].
    change (is_space "-") with false. cbn iota.
    destruct (parseInt_pretty_pos p) as [_ ->]. reflexivity.
Qed.

(** A safe integer that is printed and parsed is read back as it
    was. *)
Lemma parseInt_toString (z : Z) :
  safe_integer z -> parseInt (toString z) = Some z.
Proof. intros _. apply parseInt_decimal. Qed.

Lemma toString_truthy (z : Z) : truthy (Some (toString z)) = true.
Proof.
  pose proof (parseInt_decimal z) as H. unfold toString.
  destruct (pretty z); [discriminate H|reflexivity].
Qed.

Section RefreshStore.

Variable net : nat -> NetReply.
Variable config : HttpClientConfig.

Lemma exec_refreshToken_success w tokens :
  (exec net (Client.refreshToken config) w).1 = inr tokens ->
  let w' := (exec net (Client.refreshToken config) w).2 in
  store w' = refreshed_store tokens (store w)
  /\ t_expiresAt tokens
     = (if truthy_num (t_expiresIn tokens)
        then (fun e => now w' + e * 1000)%Z <$> t_expiresIn tokens
        else None).
Proof.
  unfold Client.refreshToken, Client.refresh_body.
  cbn [bind exec emit await storage_get fetch].
  destruct (negb (truthy _) && _); [discriminate|].
  cbn [bind exec]. unfold do_fetch. cbn [f_signal].
  destruct (reply (net _)) as [resp|]; cbn [bind exec]; [|discriminate].
  destruct (negb (ok resp)); cbn [bind exec]; [discriminate|].
  unfold read_json. cbn [bind exec].
  destruct (json resp) as [[|j]|]; cbn [bind exec]; [discriminate| |discriminate].
  cbn [date_now bind exec await storage_set t_accessToken t_refreshToken t_expiresAt].
  unfold refreshed_store.
  destruct (j_refreshToken j) as [r|] eqn:Er;
    [cbn [when truthy]; destruct (negb (String.eqb r EmptyString)) eqn:Et|];
    cbn [bind exec await storage_set];
    (destruct (j_expiresIn j) as [x|] eqn:Ex; cbn [truthy_num];
     [destruct (negb (x =? 0)%Z) eqn:Ez; cbn [fmap option_fmap option_map when truthy_num];
      [match goal with |- context [negb (?a =? 0)%Z] =>
         destruct (negb (a =? 0)%Z) eqn:Ea end|]|]);
    cbn [bind exec await storage_set];
    destruct (onTokenRefresh config); cbn [when emit bind exec fst snd];
    intros [= <-]; cbn [t_accessToken t_refreshToken t_expiresAt t_expiresIn
                        truthy truthy_num store set_store add_log set_now count_call
                        now calls fmap option_fmap option_map] in *;
    rewrite ?Et, ?Ez, ?Ea; cbn [fmap option_fmap option_map]; split; reflexivity.
Qed.

End RefreshStore.

Section RequestShapeTheorems.

Variable net : nat -> NetReply.
Variable config : HttpClientConfig.

(** X4.  Every network call a request makes for itself, the original
    attempt and the retry alike, goes to the same URL with the same
    method, body and credentials; the headers are the caller's own when
    the caller passed some, and otherwise the configured ones, so that
    two attempts can differ in [Authorization] only. *)
Theorem every_attempt_carries_the_same_request method path opts w :
  Forall (is_attempt_of config method (Client.buildUrl config path) opts)
         (drop (length (log w))
               (log (exec net (Client.request config method path opts) w).2)).
Proof.
  destruct (lo_request net config method path opts w) as (evs & -> & H & _).
  rewrite drop_app_length. exact H.
Qed.

Lemma attempt_carries method url opts ev :
  is_attempt_of config method url opts ev ->
  carries (default method (opt_method opts)) (default NoBody (opt_body opts)) ev.
Proof.
  destruct ev as [|site u i| | | | |]; try (intros; exact I).
  destruct site; [intros; exact I| |]; intros (_ & Hm & Hb & _); split; auto.
Qed.

Lemma verb_carries method path data opts w :
  Forall (carries (default method (opt_method opts)) (HttpClient.body_of data))
         (drop (length (log w))
               (log (exec net (Client.request config method path
                                 (HttpClient.with_body opts data)) w).2)).
Proof.
  destruct (lo_request net config method path (HttpClient.with_body opts data) w)
    as (evs & -> & H & _).
  rewrite drop_app_length. eapply Forall_impl; [exact H|].
  intros ev Hev. apply attempt_carries in Hev.
  destruct data; exact Hev.
Qed.

(** X5.  [post], [patch] and [put] send the JSON text of [data] as the
    body of every attempt, and no body at all when [data] is falsy; a
    [body] the caller put in [options] is never sent. *)
Theorem post_patch_put_send_the_json_of_their_data path data opts w :
  Forall (carries (default "POST" (opt_method opts)) (HttpClient.body_of data))
         (drop (length (log w))
               (log (exec net (HttpClient.post config path data opts) w).2))
  /\ Forall (carries (default "PATCH" (opt_method opts)) (HttpClient.body_of data))
         (drop (length (log w))
               (log (exec net (HttpClient.patch config path data opts) w).2))
  /\ Forall (carries (default "PUT" (opt_method opts)) (HttpClient.body_of data))
         (drop (length (log w))
               (log (exec net (HttpClient.put config path data opts) w).2)).
Proof. repeat split; apply verb_carries. Qed.

(** X6.  A refresh that succeeds stores the new access token; it
    replaces the stored refresh token and the stored expiry only when
    the answer carried a new one, and touches no other key. *)
Theorem successful_refresh_replaces_only_what_it_received w tokens :
  (exec net (Client.refreshToken config) w).1 = inr tokens ->
  let st' := store (exec net (Client.refreshToken config) w).2 in
  st' !! Storage.ACCESS_TOKEN = Some (t_accessToken tokens)
  /\ st' !! Storage.REFRESH_TOKEN
     = (if truthy (t_refreshToken tokens) then t_refreshToken tokens
        else store w !! Storage.REFRESH_TOKEN)
  /\ st' !! Storage.TOKEN_EXPIRY
     = (if truthy_num (t_expiresAt tokens) then toString <$> t_expiresAt tokens
        else store w !! Storage.TOKEN_EXPIRY)
  /\ (forall key, key <> Storage.ACCESS_TOKEN -> key <> Storage.REFRESH_TOKEN ->
                  key <> Storage.TOKEN_EXPIRY -> st' !! key = store w !! key).
Proof.
  intros H. destruct (exec_refreshToken_success net config w tokens H) as [Hs _].
  cbv zeta. rewrite Hs. unfold refreshed_store.
  destruct (t_refreshToken tokens) as [r|]; cbn [truthy];
    [destruct (negb (String.eqb r EmptyString))|];
    (destruct (t_expiresAt tokens) as [x|]; cbn [truthy_num];
     [destruct (negb (x =? 0)%Z)|]);
    repeat split; intros; simplify_map_eq; reflexivity.
Qed.

(** X7.  After a refresh whose answer announced a lifetime of [e]
    seconds, with the clock, the lifetime in milliseconds and the new
    expiry all safe integers, [isTokenExpired] answers by comparing the
    clock with the instant sixty seconds before the new expiry.  So
    when [e] is over sixty the next [buildHeaders] does not refresh
    again, and when it is not, in header mode with automatic refresh
    on, it does. *)
Theorem refreshed_token_is_fresh_until_a_minute_before_expiry w tokens e :
  (exec net (Client.refreshToken config) w).1 = inr tokens ->
  t_expiresIn tokens = Some e -> e <> 0%Z ->
  let w' := (exec net (Client.refreshToken config) w).2 in
  (now w' + e * 1000 <> 0)%Z ->
  safe_integer (now w') -> safe_integer (e * 1000) ->
  safe_integer (now w' + e * 1000) ->
  (forall t, exec net Client.isTokenExpired (set_now t w')
             = (inr (now w' + e * 1000 - 60 * 1000 <=? t)%Z, set_now t w'))
  /\ ((60 < e)%Z ->
      (exec net (Client.buildHeaders config false) w').2 = w')
  /\ ((e <= 60)%Z -> authMode config = Jwt -> autoRefresh config = true ->
      exists rest,
        log (exec net (Client.buildHeaders config false) w').2
        = log w' ++ EvRefreshBody :: rest).
Proof.
  intros H He Hne.
  destruct (exec_refreshToken_success net config w tokens H) as [Hs Hat].
  cbv zeta in *. set (w' := (exec net (Client.refreshToken config) w).2) in *.
  intros Hnz _ _ Hsafe.
  rewrite He in Hat. cbn [truthy_num fmap option_fmap option_map] in Hat.
  apply Z.eqb_neq in Hne. rewrite Hne in Hat. cbn [negb] in Hat.
  assert (Hexp : store w' !! Storage.TOKEN_EXPIRY
                 = Some (toString (now w' + e * 1000)%Z)).
  { rewrite Hs. unfold refreshed_store. rewrite Hat. cbn [truthy_num].
    apply Z.eqb_neq in Hnz. rewrite Hnz. cbn [negb].
    destruct (t_refreshToken tokens) as [r|]; [destruct (truthy (Some r))|];
      simplify_map_eq; reflexivity. }
  assert (Htok : forall t, token_expired (set_now t w')
                           = (now w' + e * 1000 - 60 * 1000 <=? t)%Z).
  { intros t. unfold token_expired. cbn [store set_now now].
    rewrite Hexp, toString_truthy, parseInt_toString by exact Hsafe.
    reflexivity. }
  split; [|split].
  - intros t. rewrite exec_isTokenExpired, Htok. reflexivity.
  - intros Hlt. rewrite exec_buildHeaders.
    assert (Hfresh : token_expired w' = false).
    { replace w' with (set_now (now w') w') by (destruct w'; reflexivity).
      rewrite Htok. apply Z.leb_gt. cbn [now set_now]. lia. }
    rewrite Hfresh, andb_false_r.
    destruct (is_jwt (authMode config)); reflexivity.
  - intros Hle Hj Ha. rewrite exec_buildHeaders, Hj, Ha.
    assert (Hstale : token_expired w' = true).
    { replace w' with (set_now (now w') w') by (destruct w'; reflexivity).
      rewrite Htok. apply Z.leb_le. cbn [now set_now]. lia. }
    rewrite Hstale. cbn [is_jwt andb snd].
    destruct (exec_refreshToken net config w') as (rest & Hl & _). eauto.
Qed.

End RequestShapeTheorems.

(** *** The credential of a request *)

Section Credential.

Variable net : nat -> NetReply.
Variable config : HttpClientConfig.

Lemma base_headers_Authorization :
  base_headers config !! "Authorization" = headers config !! "Authorization".
Proof.
  unfold base_headers.
  assert (H : (headers config ∪ {["Content-Type" := "application/json"]})
                !! "Authorization" = headers config !! "Authorization").
  { destruct (headers config !! "Authorization") eqn:E.
    - apply lookup_union_Some_l. exact E.
    - apply lookup_union_None. split; [exact E|]. apply lookup_singleton_ne. discriminate. }
  destruct (tenantId config) as [t|]; [destruct (truthy (Some t))|];
    rewrite ?lookup_insert_ne by discriminate; exact H.
Qed.

(** X8.  The credential a request is sent with.  The headers
    [buildHeaders] makes are the configured ones except, possibly, for
    [Authorization].
    With authentication skipped or in cookie mode no bearer token is
    attached, not even a static one, and nothing is refreshed or
    written.  In header mode the static token is attached when there is
    one, whatever is stored; otherwise the access token stored at that
    moment, after the refresh if there was one; with neither, the
    header is left as configured. *)
Theorem the_static_token_goes_before_the_stored_one skipAuth w :
  let out := exec net (Client.buildHeaders config skipAuth) w in
  exists h,
    out.1 = inr h
    /\ (forall k, k <> "Authorization" -> h !! k = base_headers config !! k)
    /\ h !! "Authorization"
       = (if skipAuth || negb (is_jwt (authMode config))
          then headers config !! "Authorization"
          else
            let credential := if truthy (token config) then token config
                              else store out.2 !! Storage.ACCESS_TOKEN in
            if truthy credential
            then (fun t => "Bearer " +:+ t) <$> credential
            else headers config !! "Authorization")
    /\ (skipAuth || negb (is_jwt (authMode config)) = true -> out.2 = w).
Proof.
  cbv zeta. destruct skipAuth.
  { rewrite exec_buildHeaders_skip. exists (base_headers config).
    cbn [fst snd orb]. auto using base_headers_Authorization. }
  rewrite exec_buildHeaders. cbn [orb].
  destruct (is_jwt (authMode config)) eqn:Hj; cbn [negb].
  2:{ exists (base_headers config). cbn [fst snd].
      auto using base_headers_Authorization. }
  cbv zeta. cbn [fst snd].
  set (w1 := if autoRefresh config && token_expired w then _ else w).
  exists (auth_headers config (store w1)).
  split; [reflexivity|]. unfold auth_headers, resolve_token. rewrite Hj. cbn [negb].
  split; [|split; [|discriminate]].
  - intros k Hk.
    destruct (if truthy (token config) then token config else _) as [t|];
      [destruct (truthy (Some t))|]; rewrite ?lookup_insert_ne by congruence;
      reflexivity.
  - destruct (if truthy (token config) then token config else _) as [t|].
    + destruct (truthy (Some t)); [apply lookup_insert_eq|apply base_headers_Authorization].
    + apply base_headers_Authorization.
Qed.

End Credential.

(** * Sessions *)


Section AuthFacts.

Variable net : nat -> NetReply.
Variable User : Type.
Variable truthy_user : User -> bool.
Variable JSON_stringify : User -> string.
Variable JSON_parse : string -> option (option User).
Variable body_user : Json -> option User.
Variable body_data : Json -> option (option User).
Variable config : HttpClientConfig.

Local Abbreviation getCachedUser := (AuthModule.getCachedUser User truthy_user JSON_parse).
Local Abbreviation isAuthenticated := (AuthModule.isAuthenticated User truthy_user JSON_parse config).
Local Abbreviation getToken := (AuthModule.getToken config).
Local Abbreviation logout := (AuthModule.logout User config).
Local Abbreviation getUser := (AuthModule.getUser User JSON_stringify body_data config).
Local Abbreviation storeTokens := (AuthModule.storeTokens User truthy_user JSON_stringify config).
Local Abbreviation login := (AuthModule.login User truthy_user JSON_stringify body_user config).
Local Abbreviation initialize := (AuthModule.initialize User truthy_user JSON_parse config).
Local Abbreviation getState := (AuthModule.getState User truthy_user JSON_parse config).

(** The session functions that only read. *)
Lemma exec_getCachedUser cur w :
  exists r, exec net (getCachedUser cur) w = (inr r, w)
            /\ (AuthModule.truthy_opt User truthy_user cur = false ->
                store w !! Storage.USER = None -> r = (None, cur)).
Proof.
  unfold AuthModule.getCachedUser.
  destruct (AuthModule.truthy_opt User truthy_user cur).
  { eexists. split; [reflexivity|]. discriminate. }
  rewrite exec_bind, exec_await. cbn [storage_get exec Storage.get].
  unfold Storage.get.
  destruct (store w !! Storage.USER) as [text|].
  - destruct (truthy (Some text)); [destruct (JSON_parse text)|];
      eexists; (split; [reflexivity|]); intros _ [=].
  - eexists. split; [reflexivity|]. auto.
Qed.

Lemma exec_isAuthenticated cur w :
  exists r, exec net (isAuthenticated cur) w = (inr r, w).
Proof.
  unfold AuthModule.isAuthenticated.
  destruct (negb (is_jwt (authMode config))).
  - rewrite exec_bind, exec_await.
    destruct (exec_getCachedUser cur w) as (r & -> & _). cbn [exec]. eauto.
  - cbn [bind await storage_get exec].
    destruct (negb (truthy _)); cbn [exec]; [eauto|].
    destruct (Storage.get Storage.TOKEN_EXPIRY (store w)) as [text|]; cbn [exec]; [|eauto].
    destruct (truthy (Some text)); cbn [bind date_now exec]; [|eauto].
    destruct (match parseInt text with Some e => (e <=? now w)%Z | None => false end);
      cbn [bind await storage_get exec]; eauto.
Qed.


Lemma exec_logout w :
  exists w1,
    exec net (Auth.logout config) w
    = (inr tt,
       add_log (EvAuthStateChange "SIGNED_OUT")
         (set_store (fun m => Storage.remove Storage.TENANT
                        (Storage.remove Storage.USER
                          (Storage.remove Storage.TOKEN_EXPIRY
                            (Storage.remove Storage.REFRESH_TOKEN
                              (Storage.remove Storage.ACCESS_TOKEN m))))) w1)).
Proof.
  unfold Auth.logout. rewrite exec_bind, exec_catch, exec_bind, exec_await.
  destruct (exec net (Client.get config "/auth/logout" no_options) w)
    as [[e|v] w1]; cbn [exec]; rewrite exec_bind, exec_await, exec_clearAuth;
    exists w1; reflexivity.
Qed.


(** X10.  [getUser] ends the stored session exactly when the request
    fails with status 401: it then answers null and the five session
    keys are gone.  Any other failure is thrown on as it is, with the
    store as the request left it, and so is the [TypeError] of reading
    the data of a response that is [null]; any other success stores the
    JSON text of the data it received and touches no other key. *)
Theorem getUser_ends_the_session_on_401_only w :
  let req := exec net (Client.get config "/auth/me" no_options) w in
  let out := exec net getUser w in
  match req.1 with
  | inl e =>
      if is_unauthorized e
      then out.1 = inr (None, None)
           /\ Forall (fun key => store out.2 !! key = None) session_keys
      else out = (inl e, req.2)
  | inr VNull => out = (inl TypeError, req.2)
  | inr v =>
      let data := AuthModule.response_data User body_data v in
      out.1 = inr (default None data, default None data)
      /\ store out.2 !! Storage.USER
         = AuthModule.stringify User JSON_stringify <$> data
      /\ forall key, key <> Storage.USER ->
                     store out.2 !! key = store req.2 !! key
  end.
Proof.
  cbv zeta. unfold AuthModule.getUser. rewrite exec_catch, exec_bind, exec_await.
  destruct (exec net (Client.get config "/auth/me" no_options) w) as [[e|v] w1];
    cbn [fst snd].
  - destruct e as [m st c d| |]; cbn [is_unauthorized]; [|reflexivity..].
    destruct (st =? 401)%Z; [|reflexivity].
    rewrite exec_bind, exec_await. unfold AuthModule.clearAuth.
    rewrite exec_bind, exec_clearAuth. cbn [exec fst snd].
    split; [reflexivity|]. cbn [store set_store].
    unfold Storage.remove, session_keys.
    repeat constructor; simplify_map_eq; reflexivity.
  - destruct v as [r| | |j]; [| |reflexivity|];
      rewrite exec_bind, exec_await;
      (match goal with |- context [AuthModule.response_data ?U ?b ?v] =>
         destruct (AuthModule.response_data U b v) as [u|] end);
      cbn [fmap option_fmap option_map AuthModule.storage_set_opt
           storage_set storage_remove exec fst snd store set_store];
      unfold Storage.set, Storage.remove;
      (split; [reflexivity|]); split; intros; simplify_map_eq; reflexivity.
Qed.

Lemma exec_storeTokens response w :
  exists st',
    exec net (storeTokens response) w = (inr tt, set_store (fun _ => st') w)
    /\ (authMode config = Jwt ->
        st' !! Storage.ACCESS_TOKEN = AuthModule.r_token User response
        /\ (forall e, AuthModule.r_expiresIn User response = Some e -> e <> 0%Z ->
               st' !! Storage.TOKEN_EXPIRY = Some (toString (now w + e * 1000)%Z))
        /\ st' !! Storage.REFRESH_TOKEN
           = (if truthy (AuthModule.r_refreshToken User response)
              then AuthModule.r_refreshToken User response
              else store w !! Storage.REFRESH_TOKEN))
    /\ (authMode config = Cookie ->
        forall key, key <> Storage.USER -> st' !! key = store w !! key).
Proof.
  unfold AuthModule.storeTokens. destruct response as [tok rt ei u].
  destruct w as [st nw cl lg].
  cbn [AuthModule.r_token AuthModule.r_refreshToken AuthModule.r_expiresIn
       AuthModule.r_user].
  destruct (authMode config); cbn [is_jwt].
  - destruct tok as [tok|]; (destruct rt as [rt|];
      [cbn [truthy]; destruct (negb (String.eqb rt EmptyString))|]);
      (destruct ei as [ei|]; [cbn [truthy_num]; destruct (negb (ei =? 0)%Z) eqn:Ez|]);
      (destruct u as [u|]; [destruct (truthy_user u)|]);
      cbn [bind await when AuthModule.storage_set_opt storage_set storage_remove
           date_now exec set_store store now];
      (eexists; split; [unfold set_store; cbn [store now calls log]; reflexivity|]);
      (split; [intros _|intros [=]]);
      unfold Storage.set, Storage.remove;
      (split; [|split]); intros; simplify_map_eq; try reflexivity;
      try (apply negb_false_iff, Z.eqb_eq in Ez; congruence).
  - destruct u as [u|]; [destruct (truthy_user u)|];
      cbn [bind await when storage_set exec set_store store];
      (eexists; split; [unfold set_store; cbn [store now calls log]; reflexivity|]);
      (split; [intros [=]|intros _]);
      unfold Storage.set; intros; simplify_map_eq; reflexivity.
Qed.


(** X12.  A session stored in header mode with a lifetime of [e]
    seconds, where the clock, the lifetime in milliseconds and the
    expiry are safe integers, is reported authenticated until its
    expiry, and after it for as long as a refresh token is stored; the
    HTTP client, reading the same store, counts the token as expiring
    sixty seconds before that instant. *)
Theorem stored_session_is_authenticated_until_expiry response tok e cur w :
  authMode config = Jwt ->
  AuthModule.r_token User response = Some tok -> tok <> EmptyString ->
  AuthModule.r_expiresIn User response = Some e -> e <> 0%Z ->
  safe_integer (now w) -> safe_integer (e * 1000) ->
  safe_integer (now w + e * 1000) ->
  let w' := (exec net (storeTokens response) w).2 in
  forall t,
    exec net (isAuthenticated cur) (set_now t w')
    = (inr ((t <? now w + e * 1000)%Z
            || truthy (store w' !! Storage.REFRESH_TOKEN), cur),
       set_now t w')
    /\ exec net Client.isTokenExpired (set_now t w')
       = (inr (now w + e * 1000 - 60 * 1000 <=? t)%Z, set_now t w').
Proof.
  intros Hj Htok Hne He He0 _ _ Hsafe. cbv zeta.
  destruct (exec_storeTokens response w) as (st' & -> & Hjwt & _).
  destruct (Hjwt Hj) as (Ha & Hx & _). specialize (Hx e He He0).
  rewrite Htok in Ha. cbn [snd]. intros t. split.
  - unfold AuthModule.isAuthenticated. rewrite Hj. cbn [is_jwt negb].
    cbn [bind await storage_get exec store set_now set_store].
    unfold Storage.get. rewrite Ha. cbn [truthy].
    destruct tok as [|a tok']; [congruence|]. cbn [String.eqb negb].
    cbn [bind await storage_get exec store set_now set_store].
    unfold Storage.get. rewrite Hx. cbv beta iota.
    pose proof (toString_truthy (now w + e * 1000)) as Ht. cbn [truthy] in Ht.
    rewrite Ht.
    cbn [bind date_now exec now set_now].
    rewrite parseInt_toString by exact Hsafe.
    destruct (now w + e * 1000 <=? t)%Z eqn:Ele.
    + cbn [bind await storage_get exec store set_now set_store].
      unfold Storage.get.
      apply Z.leb_le in Ele. apply Z.ltb_ge in Ele. rewrite Ele. reflexivity.
    + cbn [exec]. apply Z.leb_gt in Ele. apply Z.ltb_lt in Ele. rewrite Ele. reflexivity.
  - rewrite exec_isTokenExpired. unfold token_expired.
    cbn [store set_now set_store now].
    rewrite Hx, toString_truthy, parseInt_toString by exact Hsafe.
    reflexivity.
Qed.

End AuthFacts.

(** * The SDK instance and the browser storage adapter *)


(** ** The SDK instance *)

Lemma strip_trailing_slash_snoc (u : string) :
  Baasix.strip_trailing_slash (u +:+ "/") = u.
Proof.
  induction u as [|a u IH]; [reflexivity|].
  change (String a u +:+ "/") with (String a (u +:+ "/")).
  cbn [Baasix.strip_trailing_slash]. rewrite IH.
  destruct u; reflexivity.
Qed.

(** X14.  One trailing slash on the configured url changes nothing:
    for a url [u] that does not end in a slash, the instance built from
    [u/] is the instance built from [u], and its base URL is [u]. *)
Theorem a_trailing_slash_on_the_url_changes_nothing (c : Baasix.BaasixConfig) (u : string) :
  u <> EmptyString -> Baasix.strip_trailing_slash u = u ->
  Baasix.constructor (Baasix.with_url (u +:+ "/") c)
  = Baasix.constructor (Baasix.with_url u c)
  /\ exists b, Baasix.constructor (Baasix.with_url u c) = inr b
               /\ Baasix.getUrl b = u /\ baseUrl (Baasix.httpClient b) = u.
Proof.
  intros Hne Hns. unfold Baasix.constructor. cbn [Baasix.url Baasix.with_url].
  rewrite strip_trailing_slash_snoc, Hns.
  destruct u as [|a u]; [congruence|]. cbn [truthy String.eqb negb append].
  split; [reflexivity|]. eexists. split; [reflexivity|]. split; reflexivity.
Qed.

Lemma configure_keeps (p : Baasix.PartialBaasixConfig) (b : Baasix.Instance) :
  let b' := Baasix.configure p b in
  Baasix.fixed_part (Baasix.httpClient b') = Baasix.fixed_part (Baasix.httpClient b)
  /\ Baasix.getUrl b' = Baasix.getUrl b
  /\ Baasix.getAuthMode b' = Baasix.getAuthMode b
  /\ (timeout (Baasix.httpClient b) <> 0%Z -> timeout (Baasix.httpClient b') <> 0%Z)
  /\ (truthy (token (Baasix.httpClient b)) = true ->
      truthy (token (Baasix.httpClient b')) = true).
Proof.
  destruct p as [h t k ti]. unfold Baasix.configure.
  cbn [Baasix.u_headers Baasix.u_tenantId Baasix.u_token Baasix.u_timeout].
  destruct h as [h|], t as [t|], (truthy k) eqn:Hk, ti as [ti|];
    try (cbn [truthy_num]; destruct (negb (ti =? 0)%Z) eqn:Hz);
    cbn; repeat split; auto;
    try (intros _; apply negb_true_iff, Z.eqb_neq in Hz; exact Hz).
Qed.

(** X15.  What the constructor fixes stays fixed: after any number of
    calls of [configure], the base URL, the authentication mode, the
    automatic refresh and the credentials mode are those of the
    construction, the timeout is not zero, and a static token that was
    configured is still there. *)
Theorem configure_never_undoes_the_construction c b ps :
  Baasix.constructor c = inr b ->
  let b' := foldl (fun b p => Baasix.configure p b) b ps in
  Baasix.fixed_part (Baasix.httpClient b') = Baasix.fixed_part (Baasix.httpClient b)
  /\ Baasix.getUrl b' = Baasix.strip_trailing_slash (Baasix.url c)
  /\ timeout (Baasix.httpClient b') <> 0%Z
  /\ (truthy (Baasix.c_token c) = true ->
      truthy (token (Baasix.httpClient b')) = true).
Proof.
  intros Hc. cbv zeta.
  assert (H0 : Baasix.getUrl b = Baasix.strip_trailing_slash (Baasix.url c)
               /\ timeout (Baasix.httpClient b) <> 0%Z
               /\ token (Baasix.httpClient b) = Baasix.c_token c).
  { unfold Baasix.constructor in Hc.
    destruct (negb (truthy (Some (Baasix.url c)))); [discriminate|].
    injection Hc as <-. cbn. repeat split.
    destruct (Baasix.c_timeout c) as [t|]; [|discriminate].
    cbn [truthy_num]. destruct (t =? 0)%Z eqn:E; cbn [negb]; [discriminate|].
    apply Z.eqb_neq. exact E. }
  destruct H0 as (Hu & Ht & Hk). rewrite <- Hu, <- Hk. clear Hc Hu Hk.
  revert b Ht. induction ps as [|p ps IH]; intros b Ht; [cbn; auto|].
  cbn [foldl]. destruct (configure_keeps p b) as (K1 & K2 & K3 & K4 & K5).
  cbv zeta in *. destruct (IH (Baasix.configure p b) (K4 Ht)) as (I1 & I2 & I3 & I4).
  rewrite I1, I2, K1, K2. repeat split; auto.
Qed.

Section Tenant.

Variable net : nat -> NetReply.

Lemma buildHeaders_tenant config skipAuth w h :
  (exec net (Client.buildHeaders config skipAuth) w).1 = inr h ->
  h !! "X-Tenant-Id" = base_headers config !! "X-Tenant-Id".
Proof.
  intros H. destruct (lo_buildHeaders net config skipAuth w) as (_ & _ & _ & Hq).
  rewrite H in Hq. apply Hq. discriminate.
Qed.

(** X16.  After [setTenant(t)] the stored tenant is [t] and the
    headers built for a request carry [X-Tenant-Id: t]; after
    [clearTenant()] no tenant is stored and the header is back to what
    the configured headers say. *)
Theorem the_tenant_header_follows_setTenant_and_clearTenant b tenantId skipAuth w w2 :
  tenantId <> EmptyString ->
  let set := Baasix.setTenant tenantId b in
  let cleared := Baasix.clearTenant set.1 in
  (exec net Baasix.getTenant (exec net set.2 w).2).1 = inr (Some tenantId)
  /\ (exists h, (exec net (Client.buildHeaders (Baasix.httpClient set.1) skipAuth) w2).1
                = inr h /\ h !! "X-Tenant-Id" = Some tenantId)
  /\ (exec net Baasix.getTenant (exec net cleared.2 (exec net set.2 w).2).2).1
     = inr None
  /\ (exists h, (exec net (Client.buildHeaders (Baasix.httpClient cleared.1) skipAuth) w2).1
                = inr h
                /\ h !! "X-Tenant-Id"
                   = headers (Baasix.httpClient b) !! "X-Tenant-Id").
Proof.
  intros Hne. cbv zeta. cbn [Baasix.setTenant Baasix.clearTenant fst snd].
  split; [|split; [|split]].
  - cbn [await storage_set bind exec Baasix.getTenant storage_get fst snd store set_store].
    unfold Storage.get, Storage.set. simplify_map_eq. reflexivity.
  - destruct (exec_buildHeaders_ok net (Baasix.httpClient
        (Baasix.update (Baasix.only_tenantId (Some tenantId)) b)) skipAuth w2) as (h & Hh).
    exists h. split; [exact Hh|].
    rewrite (buildHeaders_tenant _ _ _ _ Hh). unfold base_headers. cbn.
    destruct tenantId; [congruence|]. cbn. simplify_map_eq. reflexivity.
  - cbn [await storage_set storage_remove bind exec Baasix.getTenant storage_get
         fst snd store set_store].
    unfold Storage.get, Storage.set, Storage.remove. simplify_map_eq. reflexivity.
  - destruct (exec_buildHeaders_ok net (Baasix.httpClient
        (Baasix.update (Baasix.only_tenantId None)
           (Baasix.update (Baasix.only_tenantId (Some tenantId)) b))) skipAuth w2)
      as (h & Hh).
    exists h. split; [exact Hh|].
    rewrite (buildHeaders_tenant _ _ _ _ Hh). unfold base_headers. cbn.
    rewrite lookup_union_l; [reflexivity|]. apply lookup_singleton_ne. discriminate.
Qed.

End Tenant.

(** ** The browser storage adapter *)

Module LocalStorageFacts.
Import LocalStorageAdapter.

Lemma prefix_append (p s : string) : String.prefix p (p +:+ s) = true.
Proof.
  induction p as [|a p IH]; [destruct s; reflexivity|].
  change (match ascii_dec a a with
          | left _ => String.prefix p (p +:+ s)
          | right _ => false
          end = true).
  destruct (ascii_dec a a); [exact IH|congruence].
Qed.

Lemma getItem_setItem_eq k v ls : getItem k (setItem k v ls) = Some v.
Proof.
  unfold getItem. induction ls as [|[k0 v0] ls IH]; cbn.
  - rewrite bool_decide_eq_true_2; reflexivity.
  - destruct (decide (k0 = k)) as [->|Hn]; cbn.
    + rewrite bool_decide_eq_true_2; reflexivity.
    + rewrite bool_decide_eq_false_2 by exact Hn. exact IH.
Qed.

Lemma getItem_setItem_ne k k' v ls :
  k' <> k -> getItem k' (setItem k v ls) = getItem k' ls.
Proof.
  intros Hne. unfold getItem. induction ls as [|[k0 v0] ls IH]; cbn.
  - rewrite bool_decide_eq_false_2 by congruence. reflexivity.
  - destruct (decide (k0 = k)) as [->|Hn]; cbn.
    + rewrite !bool_decide_eq_false_2 by congruence. reflexivity.
    + destruct (bool_decide (k0 = k')); [reflexivity|exact IH].
Qed.

Lemma getItem_removeItem k k' ls :
  getItem k' (removeItem k ls) = if decide (k' = k) then None else getItem k' ls.
Proof.
  unfold getItem, removeItem. induction ls as [|[k0 v0] ls IH].
  - destruct (decide (k' = k)); reflexivity.
  - cbn [List.filter find fst].
    destruct (decide (k0 = k)) as [->|Hn].
    + rewrite bool_decide_eq_true_2 by reflexivity. cbn [negb]. rewrite IH.
      destruct (decide (k' = k)) as [->|Hk]; [reflexivity|].
      rewrite bool_decide_eq_false_2 by congruence. reflexivity.
    + rewrite (bool_decide_eq_false_2 (k0 = k)) by exact Hn. cbn [negb find fst].
      destruct (bool_decide (k0 = k')) eqn:E; [|exact IH].
      apply bool_decide_eq_true in E. subst k0.
      rewrite decide_False by exact Hn. reflexivity.
Qed.

Lemma getItem_removes ks k' ls :
  getItem k' (foldl (fun ls k => removeItem k ls) ls ks)
  = if bool_decide (k' ∈ ks) then None else getItem k' ls.
Proof.
  revert ls. induction ks as [|k ks IH]; intros ls; cbn [foldl].
  - rewrite bool_decide_eq_false_2; [reflexivity|]. apply not_elem_of_nil.
  - rewrite IH, getItem_removeItem.
    destruct (decide (k' = k)) as [->|Hk].
    + rewrite (bool_decide_eq_true_2 (k ∈ k :: ks)) by apply list_elem_of_here.
      destruct (bool_decide (k ∈ ks)); reflexivity.
    + destruct (bool_decide (k' ∈ ks)) eqn:E.
      * apply bool_decide_eq_true in E.
        rewrite bool_decide_eq_true_2; [reflexivity|]. apply list_elem_of_further, E.
      * apply bool_decide_eq_false in E.
        rewrite bool_decide_eq_false_2; [reflexivity|].
        intros [?|?]%elem_of_cons; contradiction.
Qed.

Lemma getItem_None k ls : k ∉ ls.*1 -> getItem k ls = None.
Proof.
  unfold getItem. induction ls as [|[k0 v0] ls IH]; cbn; [reflexivity|].
  intros H. apply not_elem_of_cons in H as [H1 H2].
  rewrite bool_decide_eq_false_2 by congruence. apply IH, H2.
Qed.

Section WithPrefix.

Variable prefix : string.
Variable accepts : string -> string -> list (string * string) -> bool.

Lemma startsWith_getKey k : startsWith (getKey prefix k) prefix = true.
Proof.
  unfold getKey. destruct (startsWith k prefix) eqn:E; [exact E|].
  apply prefix_append.
Qed.

(** X17.  [getKey] puts the prefix in front of a key that lacks it and
    leaves a key that has it alone: its result always starts with the
    prefix, and applying it twice is applying it once. *)
Theorem getKey_puts_the_prefix_once k :
  startsWith (getKey prefix k) prefix = true
  /\ getKey prefix (getKey prefix k) = getKey prefix k
  /\ getKey prefix (prefix +:+ k) = prefix +:+ k
  /\ (startsWith k prefix = false -> getKey prefix k = prefix +:+ k).
Proof.
  split; [apply startsWith_getKey|]. split; [|split].
  - unfold getKey at 1. rewrite startsWith_getKey. reflexivity.
  - unfold getKey, startsWith. rewrite prefix_append. reflexivity.
  - intros H. unfold getKey. rewrite H. reflexivity.
Qed.

Lemma keys_collected (ls : list (string * string)) :
  omap (fun i => match key i ls with
                 | Some k => if startsWith k prefix then Some k else None
                 | None => None
                 end) (seq 0 (length ls))
  = List.filter (fun k => startsWith k prefix) ls.*1.
Proof.
  assert (H : forall pre,
    omap (fun i => match key i (pre ++ ls) with
                   | Some k => if startsWith k prefix then Some k else None
                   | None => None
                   end) (seq (length pre) (length ls))
    = List.filter (fun k => startsWith k prefix) ls.*1).
  { induction ls as [|[k v] ls' IH]; intros pre; [reflexivity|].
    cbn [length seq omap list_omap fmap list_fmap List.filter fst].
    unfold key at 1. rewrite list_lookup_middle by reflexivity. cbn [fmap option_fmap option_map fst].
    specialize (IH (pre ++ [(k, v)])).
    rewrite <- app_assoc, length_app in IH. cbn [length app] in IH.
    rewrite Nat.add_1_r in IH.
    destruct (startsWith k prefix); cbn; rewrite <- IH; reflexivity. }
  apply (H []).
Qed.

(** X18.  [clear] removes from the browser's storage every key that
    starts with the prefix and no other key; afterwards the adapter
    reads null for every key. *)
Theorem clear_removes_the_prefixed_keys_and_no_other ls k :
  exists ls',
    clear prefix (Some ls) = Some ls'
    /\ getItem k ls' = (if startsWith k prefix then None else getItem k ls)
    /\ get prefix k (Some ls') = None.
Proof.
  unfold clear. eexists. split; [reflexivity|].
  rewrite keys_collected.
  assert (H : forall k0,
    getItem k0 (foldl (fun ls k => removeItem k ls) ls
                  (List.filter (fun k => startsWith k prefix) ls.*1))
    = if startsWith k0 prefix then None else getItem k0 ls).
  { intros k0. rewrite getItem_removes.
    destruct (startsWith k0 prefix) eqn:E.
    - destruct (bool_decide _) eqn:Eb; [reflexivity|].
      apply bool_decide_eq_false in Eb. apply getItem_None.
      intros Hin. apply Eb. apply list_elem_of_In, filter_In. split; [|exact E].
      apply list_elem_of_In, Hin.
    - rewrite bool_decide_eq_false_2; [reflexivity|].
      intros Hin. apply list_elem_of_In, filter_In in Hin as [_ Hs]. congruence. }
  split; [apply H|].
  cbn [get]. rewrite H, startsWith_getKey. reflexivity.
Qed.

(** X19.  A write the browser accepts is read back by [get], under
    the key as given and under the key with the prefix written out; a
    write the browser refuses leaves the store as it was, so [get]
    reads what it read before.  [remove] makes [get] read null.  None
    of them touches what is read under a key that maps to another
    slot. *)
Theorem what_is_set_is_read_back key value key' ls :
  let written := set prefix accepts key value (Some ls) in
  (if accepts (getKey prefix key) value ls
   then get prefix key written = Some value
        /\ (startsWith key prefix = false ->
            get prefix (prefix +:+ key) written = Some value)
   else written = Some ls)
  /\ get prefix key (remove prefix key (Some ls)) = None
  /\ (getKey prefix key' <> getKey prefix key ->
      get prefix key' written = get prefix key' (Some ls)
      /\ get prefix key' (remove prefix key (Some ls)) = get prefix key' (Some ls)).
Proof.
  cbv zeta. cbn [get set remove]. split; [|split].
  - destruct (accepts (getKey prefix key) value ls); [|reflexivity].
    cbn [get]. split; [apply getItem_setItem_eq|].
    intros E.
    assert (Hk : getKey prefix (prefix +:+ key) = getKey prefix key).
    { unfold getKey, startsWith. rewrite prefix_append.
      unfold startsWith in E. rewrite E. reflexivity. }
    rewrite Hk. apply getItem_setItem_eq.
  - rewrite getItem_removeItem, decide_True; reflexivity.
  - intros Hne. split.
    + destruct (accepts (getKey prefix key) value ls); [|reflexivity].
      cbn [get]. apply getItem_setItem_ne, Hne.
    + rewrite getItem_removeItem, decide_False; [reflexivity|exact Hne].
Qed.

End WithPrefix.
End LocalStorageFacts.

(** * Reordering and sorting *)


(** ** Reordering items *)

Section Reorder.

Variable net : nat -> NetReply.
Variable config : HttpClientConfig.
Variable collection : string.
Variable JSON_move : string -> string -> string -> string.

Local Abbreviation reorder := (ItemsModule.reorder config collection JSON_move).
Local Abbreviation reorder_from := (ItemsModule.reorder_from config collection JSON_move).
Local Abbreviation moves := (ItemsModule.moves JSON_move).
Local Abbreviation sort_url := (ItemsModule.sort_url collection).

Lemma request_one_original method path opts w :
  exists evs,
    log (exec net (Client.request config method path opts) w).2 = log w ++ evs
    /\ num_fetches Original evs = 1%nat.
Proof.
  destruct (autoRefresh config) eqn:Ha, (opt_skipAuth opts) eqn:Hs.
  - destruct (request_single_call net config method path opts w (or_introl Hs))
      as (evs & Hl & Hsc & _).
    exists evs. split; [exact Hl|]. apply single_call_counts, Hsc.
  - destruct (request_trace net config method path opts w Ha Hs)
      as (evs & Hl & H1 & _). eauto.
  - destruct (request_single_call net config method path opts w (or_introl Hs))
      as (evs & Hl & Hsc & _).
    exists evs. split; [exact Hl|]. apply single_call_counts, Hsc.
  - destruct (request_single_call net config method path opts w (or_intror Ha))
      as (evs & Hl & Hsc & _).
    exists evs. split; [exact Hl|]. apply single_call_counts, Hsc.
Qed.

Lemma original_calls_app a b :
  original_calls (a ++ b) = original_calls a ++ original_calls b.
Proof. unfold original_calls. apply omap_app. Qed.

Lemma original_calls_none l :
  count (is_fetch_at Original) l = 0%nat -> original_calls l = [].
Proof.
  induction l as [|e l IH]; [reflexivity|]. rewrite count_cons.
  change (e :: l) with ([e] ++ l). rewrite original_calls_app.
  destruct e as [|site u i| | | | |]; cbn [is_fetch_at];
    try (intros H; rewrite (IH H); reflexivity).
  destruct site; [|discriminate|]; intros H; rewrite (IH H); reflexivity.
Qed.

Lemma original_calls_one method url opts evs :
  Forall (is_attempt_of config method url opts) evs ->
  num_fetches Original evs = 1%nat ->
  original_calls evs = [(url, default NoBody (opt_body opts))].
Proof.
  unfold num_fetches.
  induction 1 as [|e l He Hl IH]; [discriminate|].
  rewrite count_cons. change (e :: l) with ([e] ++ l). rewrite original_calls_app.
  destruct e as [|site u i| | | | |]; cbn [is_fetch_at]; try exact IH.
  destruct site; [exact IH| |exact IH].
  intros [= H]. rewrite (original_calls_none l H).
  destruct He as (-> & _ & Hb & _). cbn. rewrite Hb. reflexivity.
Qed.

Lemma post_one_call path json w :
  let out := exec net (HttpClient.post config path (HttpClient.Truthy json) no_options) w in
  exists evs, log out.2 = log w ++ evs
              /\ original_calls evs = [(Client.buildUrl config path, TextBody json)].
Proof.
  cbv zeta. unfold HttpClient.post.
  destruct (request_one_original "POST" path
              (HttpClient.with_body no_options (HttpClient.Truthy json)) w)
    as (evs & Hl & Hc).
  destruct (lo_request net config "POST" path
              (HttpClient.with_body no_options (HttpClient.Truthy json)) w)
    as (evs' & Hl' & Hf & _).
  assert (evs' = evs) as ->.
  { rewrite Hl in Hl'. apply app_inv_head in Hl'. congruence. }
  exists evs. split; [exact Hl|].
  apply (original_calls_one _ _ _ _ Hf Hc).
Qed.

Lemma moves_step ids i item to :
  ids !! i = Some to -> ids !! (S i) = Some item ->
  moves (drop i ids) = TextBody (JSON_move item to "after") :: moves (drop (S i) ids).
Proof.
  intros H1 H2.
  rewrite (drop_S _ _ _ H1). rewrite (drop_S _ _ _ H2). reflexivity.
Qed.

Lemma moves_length ids : length (moves ids) = (length ids - 1)%nat.
Proof.
  induction ids as [|a [|b ids] IH]; [reflexivity..|].
  cbn [ItemsModule.moves length] in *. rewrite IH. lia.
Qed.

Lemma reorder_from_calls todo : forall i ids w,
  (todo + S i = length ids)%nat ->
  let out := exec net (reorder_from todo (S i) ids) w in
  exists k evs,
    log out.2 = log w ++ evs
    /\ original_calls evs
       = (fun b => (Client.buildUrl config sort_url, b)) <$> take k (moves (drop i ids))
    /\ match out.1 with
       | inr _ => k = todo
       | inl _ => (1 <= k <= todo)%nat
       end.
Proof.
  induction todo as [|todo IH]; intros i ids w Hlen; cbv zeta.
  - exists 0%nat, []. cbn. rewrite app_nil_r. auto.
  - cbn [ItemsModule.reorder_from]. replace (S i - 1)%nat with i by lia.
    destruct (lookup_lt_is_Some_2 ids (S i) ltac:(lia)) as (item & Hitem).
    destruct (lookup_lt_is_Some_2 ids i ltac:(lia)) as (to & Hto).
    rewrite Hitem, Hto, exec_bind, exec_await.
    destruct (post_one_call sort_url (JSON_move item to "after") w)
      as (evs1 & Hl1 & Hc1). cbv zeta in *.
    rewrite (moves_step ids i item to Hto Hitem).
    destruct (exec net (HttpClient.post config sort_url _ no_options) w)
      as [[e|v] w1]; cbn [fst snd] in *.
    + exists 1%nat, evs1. split; [exact Hl1|]. split; [|lia].
      rewrite Hc1. reflexivity.
    + destruct (IH (S i) ids w1 ltac:(lia)) as (k & evs2 & Hl2 & Hc2 & Hr).
      cbv zeta in *. exists (S k), (evs1 ++ evs2).
      split; [rewrite Hl2, Hl1, app_assoc; reflexivity|].
      split; [rewrite original_calls_app, Hc1, Hc2; reflexivity|].
      destruct (exec net (reorder_from todo (S (S i)) ids) w1).1; lia.
Qed.

(** X20.  [reorder] asks the server, one call after the other, to move
    each identifier of the list after the one before it, in the order
    of the list: one call less than there are identifiers, none for a
    list of one or none.  It stops at the first call that fails, so
    that when it throws the calls made are the first moves up to the
    failed one. *)
Theorem reorder_moves_each_item_after_the_one_before ids w :
  let out := exec net (reorder ids) w in
  exists k,
    original_calls (drop (length (log w)) (log out.2))
    = (fun b => (Client.buildUrl config sort_url, b)) <$> take k (moves ids)
    /\ match out.1 with
       | inr _ => k = (length ids - 1)%nat
       | inl _ => (1 <= k <= length ids - 1)%nat
       end.
Proof.
  cbv zeta. unfold ItemsModule.reorder.
  destruct ids as [|a ids].
  - exists 0%nat. cbn. rewrite drop_all. split; reflexivity.
  - replace (length (a :: ids) - 1)%nat with (length ids) by (cbn; lia).
    destruct (reorder_from_calls (length ids) 0 (a :: ids) w ltac:(cbn; lia))
      as (k & evs & Hl & Hc & Hr). cbv zeta in *.
    exists k. rewrite Hl, drop_app_length. split; [exact Hc|exact Hr].
Qed.

End Reorder.

(** ** Normalizing a sort *)

Module SortFacts.
Import SortUtil.

Lemma append_nonempty (a b : string) : b <> EmptyString -> a +:+ b <> EmptyString.
Proof. destruct a; [auto|discriminate]. Qed.

Lemma join_nonempty (x : string) (xs : list string) :
  x <> EmptyString -> join (x :: xs) <> EmptyString.
Proof.
  intros Hx. unfold join. cbn [String.concat]. destruct xs; [exact Hx|].
  destruct x; [congruence|discriminate].
Qed.

Lemma includes_colon_nonempty s : includes_colon s = true -> s <> EmptyString.
Proof. destruct s; [discriminate|discriminate]. Qed.

Lemma field_entry_nonempty s : field_entry s <> EmptyString.
Proof.
  unfold field_entry.
  assert (H : (if includes_colon s then s else s +:+ ":asc") <> EmptyString).
  { destruct (includes_colon s) eqn:E; [apply includes_colon_nonempty, E|].
    apply append_nonempty. discriminate. }
  destruct s as [|a s']; [exact H|].
  destruct (Ascii.eqb_spec a "-"%char) as [->|Hn].
  - apply append_nonempty. discriminate.
  - destruct a as [[] [] [] [] [] [] [] []]; try exact H. congruence.
Qed.

Lemma truthy_nonempty s : s <> EmptyString -> truthy (Some s) = true.
Proof. destruct s; [congruence|reflexivity]. Qed.

(** X21.  Normalizing a sort that is already normalized changes
    nothing, and the normalized text is never empty. *)
Theorem normalizeSort_is_idempotent sort :
  normalizeSort (again (normalizeSort sort)) = normalizeSort sort
  /\ normalizeSort sort <> Some EmptyString.
Proof.
  assert (H : forall s, s <> EmptyString ->
                        normalizeSort (again (Some s)) = Some s /\ Some s <> Some EmptyString).
  { intros s Hs. cbn [normalizeSort again]. rewrite (truthy_nonempty s Hs).
    split; congruence. }
  destruct sort as [|s|l|l|l]; cbn [normalizeSort].
  - split; [reflexivity|discriminate].
  - destruct (truthy (Some s)) eqn:E; [|split; [reflexivity|discriminate]].
    cbn [normalizeSort again]. rewrite E. split; [reflexivity|].
    destruct s; [discriminate|discriminate].
  - destruct l as [|x l]; [split; [reflexivity|discriminate]|].
    apply H. cbn [fmap list_fmap]. apply join_nonempty, field_entry_nonempty.
  - destruct l as [|x l]; [split; [reflexivity|discriminate]|].
    apply H. cbn [fmap list_fmap]. apply join_nonempty, append_nonempty. discriminate.
  - destruct l as [|x l]; [split; [reflexivity|discriminate]|].
    apply H. cbn [fmap list_fmap]. apply join_nonempty, append_nonempty. discriminate.
Qed.

End SortFacts.

(** * Channels and workflow subscriptions *)

(** ** Channels *)

Module ChannelFacts.
Import Realtime RealtimeFacts RealtimeChannel.

Lemma event_name_inj e a : event_name e = event_name a -> e = a.
Proof. destruct e, a; try reflexivity; discriminate. Qed.

Lemma eqb_event_name e a :
  String.eqb (event_name e) (event_name a) = bool_decide (event_name e = event_name a).
Proof.
  destruct (String.eqb_spec (event_name e) (event_name a)) as [H|H].
  - rewrite bool_decide_eq_true_2; auto.
  - rewrite bool_decide_eq_false_2; auto.
Qed.

Lemma addHandler_for a e h ch :
  handlers_for a (addHandler e h ch)
  = handlers_for a ch
    ++ (if String.eqb (event_name e) (event_name a) then [h] else []).
Proof.
  unfold handlers_for, addHandler.
  destruct (String.eqb_spec (event_name e) (event_name a)) as [Heq|Hne].
  - rewrite <- Heq.
    destruct (jm_get (event_name e) (handlers ch)) as [l|] eqn:E;
      cbn [handlers with_handlers]; rewrite ?jm_get_set_eq, ?E; cbn;
      rewrite ?jm_get_set_eq; reflexivity.
  - destruct (jm_get (event_name e) (handlers ch)) as [l|] eqn:E;
      cbn [handlers with_handlers];
      rewrite ?jm_get_set_ne by exact Hne; rewrite app_nil_r; reflexivity.
Qed.

Lemma on_for a ev h ch :
  handlers_for a (on ev h ch)
  = handlers_for a ch ++ (if concerns ev a then [h] else []).
Proof.
  unfold on, concerns. destruct (mapEvent ev) as [e|]; [apply addHandler_for|].
  cbn [foldl]. rewrite !addHandler_for.
  destruct a; cbn; rewrite ?app_nil_r; reflexivity.
Qed.

Lemma dispatch_for ch payload :
  dispatch ch payload = handlers_for (action payload) ch ≫= call payload.
Proof.
  unfold dispatch, handlers_for.
  destruct (jm_get _ _) as [l|]; reflexivity.
Qed.

Lemma handlers_for_registrations a regs : forall ch,
  handlers_for a (foldl (fun ch r => on r.1 r.2 ch) ch regs)
  = handlers_for a ch ++ (List.filter (fun r => concerns r.1 a) regs).*2.
Proof.
  induction regs as [|r regs IH]; intros ch; cbn [foldl List.filter].
  - rewrite app_nil_r. reflexivity.
  - rewrite IH, on_for.
    destruct (concerns r.1 a); cbn [fmap list_fmap];
      rewrite <- ?app_assoc, ?app_nil_r; reflexivity.
Qed.

(** X22.  A payload reaches the handlers whose registration concerns
    its action, those registered with ["*"] included, once for each
    registration and in the order of registration; a handler that throws
    is reported and the ones after it are still called. *)
Theorem a_payload_reaches_the_handlers_registered_for_its_action c regs payload :
  dispatch (foldl (fun ch r => on r.1 r.2 ch) (channel c) regs) payload
  = (List.filter (fun r => concerns r.1 (action payload)) regs).*2
    ≫= call payload.
Proof.
  rewrite dispatch_for, handlers_for_registrations. reflexivity.
Qed.

(** X23.  A channel that was subscribed once and is unsubscribed
    leaves nothing registered in the realtime module, has no handlers
    left, and unsubscribing it again changes nothing.  A channel that
    was subscribed twice releases the second subscription only: the
    first stays registered. *)
Theorem channel_unsubscribe_releases_the_last_subscription ch s id1 id2 payload :
  id1 <> id2 ->
  let c := ch_collection ch in
  let once := subscribe id1 ch s in
  let twice := subscribe id2 once.1 once.2 in
  let left := unsubscribe once.1 once.2 in
  let left2 := unsubscribe twice.1 twice.2 in
  registered c id1 once.2 = Some subscriber
  /\ registered c id1 left.2 = None
  /\ (forall c' j, (c', j) <> (c, id1) ->
                   registered c' j left.2 = registered c' j s)
  /\ dispatch left.1 payload = []
  /\ unsubscribe left.1 left.2 = (left.1, left.2)
  /\ registered c id2 left2.2 = None
  /\ registered c id1 left2.2 = Some subscriber.
Proof.
  intros Hne. cbv zeta. unfold subscribe, unsubscribe.
  cbn [fst snd ch_collection handlers unsubscribeFn].
  split; [|split; [|split; [|split; [|split; [|split]]]]].
  - rewrite registered_subscribe, decide_True by auto. reflexivity.
  - rewrite registered_unsubscribe, decide_True by auto. reflexivity.
  - intros c' j Hcj. rewrite registered_unsubscribe, registered_subscribe.
    rewrite !decide_False; [reflexivity|..]; intros [-> ->]; congruence.
  - unfold dispatch. cbn [handlers]. rewrite jm_get_clear. reflexivity.
  - f_equal. f_equal. induction (handlers ch) as [|x l IH]; [reflexivity|].
    cbn. f_equal. exact IH.
  - rewrite registered_unsubscribe, decide_True by auto. reflexivity.
  - rewrite registered_unsubscribe, decide_False by (intros [_ H]; congruence).
    rewrite registered_subscribe, decide_False by (intros [_ H]; congruence).
    rewrite registered_subscribe, decide_True by auto. reflexivity.
Qed.

End ChannelFacts.

(** ** The workflow registry *)

Module WorkflowFacts.
Import Realtime RealtimeFacts.

Lemma workflow_sets_eq s s' :
  workflowCallbacks s' = workflowCallbacks s -> workflow_sets s -> workflow_sets s'.
Proof. unfold workflow_sets. intros ->. auto. Qed.

Lemma workflow_sets_subscribeToExecution eid name s :
  workflow_sets s -> workflow_sets (subscribeToExecution eid name s).
Proof.
  intros H eid' cbs. unfold subscribeToExecution.
  cbn [workflowCallbacks with_workflowCallbacks].
  assert (Hw : workflowCallbacks (if isConnected s then say [EmittedJoin eid] s else s)
               = workflowCallbacks s) by (destruct (isConnected s); reflexivity).
  rewrite Hw. destruct (decide (eid = eid')) as [->|Hne].
  - rewrite jm_get_set_eq. intros [= <-].
    destruct (jm_get eid' (workflowCallbacks s)) as [l|] eqn:E; cbn [default from_option id].
    + destruct (H eid' l E) as [Hnd Hne]. destruct (bool_decide (name ∈ l)) eqn:Eb.
      * auto.
      * apply bool_decide_eq_false in Eb. split.
        -- apply NoDup_app. repeat split; auto.
           ++ intros x Hx [->|[]%elem_of_nil]%elem_of_cons. contradiction.
           ++ apply NoDup_singleton.
        -- destruct l; discriminate.
    + cbn. split; [apply NoDup_singleton|discriminate].
  - rewrite jm_get_set_ne by exact Hne. apply H.
Qed.

Lemma workflow_sets_unsubscribeFromExecution eid name s :
  workflow_sets s -> workflow_sets (unsubscribeFromExecution eid name s).
Proof.
  intros H eid' cbs. unfold unsubscribeFromExecution.
  destruct (jm_get eid (workflowCallbacks s)) as [l|] eqn:E; [|apply H].
  destruct (length _ =? 0)%nat eqn:El; cbn [workflowCallbacks with_workflowCallbacks].
  - destruct (decide (eid = eid')) as [->|Hne].
    + rewrite jm_get_delete_eq. discriminate.
    + rewrite jm_get_delete_ne by exact Hne. apply H.
  - destruct (decide (eid = eid')) as [->|Hne].
    + rewrite jm_get_set_eq. intros [= <-]. split.
      * apply NoDup_ListNoDup, List.NoDup_filter, NoDup_ListNoDup, (H eid' l E).
      * intros Hnil. rewrite Hnil in El. discriminate.
    + rewrite jm_get_set_ne by exact Hne. apply H.
Qed.


End WorkflowFacts.

(** ** Subscribers that share a collection *)

Module SharingFacts.
Import Realtime RealtimeFacts.

Lemma jm_size_pos_get {V} (m : list (option (string * V))) :
  jm_size m <> 0%nat -> exists k v, jm_get k m = Some v.
Proof.
  induction m as [|[[k v]|] m IH]; cbn.
  - congruence.
  - intros _. exists k, v. rewrite decide_True; reflexivity.
  - exact IH.
Qed.

Lemma isConnected_say o s : isConnected (say o s) = isConnected s.
Proof. reflexivity. Qed.

Lemma isConnected_attached c sk :
  match attached c sk with Some sock => connected sock | None => false end
  = match sk with Some sock => connected sock | None => false end.
Proof. destruct sk; reflexivity. Qed.

Lemma isConnected_detached c sk :
  match detached c sk with Some sock => connected sock | None => false end
  = match sk with Some sock => connected sock | None => false end.
Proof. destruct sk; reflexivity. Qed.

Lemma isConnected_subscribe c i cb s :
  isConnected (subscribe c i cb s) = isConnected s.
Proof.
  unfold isConnected. rewrite socket_subscribe.
  destruct (jm_get c (subscriptions s)); [reflexivity|apply isConnected_attached].
Qed.

Lemma isConnected_unsubscribe c i s :
  isConnected (unsubscribe c i s) = isConnected s.
Proof.
  unfold isConnected.
  destruct (socket_unsubscribe c i s) as [-> | ->];
    [reflexivity|apply isConnected_detached].
Qed.

(** What one [subscribe] sends. *)
Lemma subscribe_messages c i cb s :
  messages (out (subscribe c i cb s))
  = messages (out s) ++
    match jm_get c (subscriptions s) with
    | Some _ => []
    | None => if isConnected s then [("subscribe", c)] else []
    end.
Proof.
  unfold subscribe.
  destruct (warn_frame s) as (W1 & W2 & W3 & W4).
  set (s0 := if isConnected s then s else say [Console "warn"] s) in *.
  rewrite W1. destruct (jm_get c (subscriptions s)) as [sub|].
  - cbn [with_subscriptions out]. rewrite W4, app_nil_r. reflexivity.
  - cbn [with_subscriptions out].
    match goal with |- context [setupCollectionListeners c ?x] =>
      destruct (setup_frame c x) as (_ & A2 & _) end.
    match goal with |- context [subscribeOnServer c ?x] =>
      destruct (subscribeOnServer_frame c x) as (_ & _ & B3) end.
    rewrite A2, B3, isConnected_with_subscriptions, W3.
    cbn [with_subscriptions out]. rewrite messages_app, W4.
    destruct (isConnected s); reflexivity.
Qed.

(** What one call of a handle sends, and whether the record stays. *)
Lemma unsubscribe_messages c i s :
  messages (out (unsubscribe c i s))
  = messages (out s) ++
    (if bool_decide (is_Some (jm_get c (subscriptions s)))
        && negb (bool_decide (is_Some (jm_get c (subscriptions (unsubscribe c i s)))))
        && isConnected s
     then [("unsubscribe", c)] else []).
Proof.
  pose proof (subscriptions_unsubscribe c i s) as HS.
  unfold unsubscribe in *.
  destruct (jm_get c (subscriptions s)) as [sub|] eqn:E.
  2:{ rewrite E. cbn. rewrite app_nil_r. reflexivity. }
  cbn zeta in *. rewrite HS.
  destruct (jm_size _ =? 0)%nat.
  - rewrite jm_get_delete_eq.
    match goal with |- context [removeCollectionListeners c ?x] =>
      destruct (remove_frame c x) as (_ & A2 & _) end.
    match goal with |- context [unsubscribeOnServer c ?x] =>
      destruct (unsubscribeOnServer_frame c x) as (_ & _ & B3) end.
    cbn [with_subscriptions out]. rewrite A2, B3, isConnected_with_subscriptions.
    cbn [with_subscriptions out]. rewrite messages_app.
    rewrite bool_decide_eq_true_2 by eauto.
    rewrite bool_decide_eq_false_2 by (intros [? ?]; discriminate).
    destruct (isConnected s); reflexivity.
  - rewrite jm_get_set_eq. cbn [with_subscriptions out].
    rewrite bool_decide_eq_true_2 by eauto.
    rewrite (bool_decide_eq_true_2 (is_Some (Some _))) by eauto.
    cbn. rewrite app_nil_r. reflexivity.
Qed.

(** The record of a collection is there exactly when a callback is
    registered in it, when the record is not empty. *)
Lemma record_iff_registered c s :
  (forall sub, jm_get c (subscriptions s) = Some sub -> 0 < jm_size (callbacks sub)) ->
  is_Some (jm_get c (subscriptions s)) <-> exists j, is_Some (registered c j s).
Proof.
  intros Hne. unfold registered. split.
  - intros [sub E]. rewrite E. cbn.
    destruct (jm_size_pos_get (callbacks sub)) as (k & v & Hk).
    { specialize (Hne sub E). lia. }
    exists k. rewrite Hk. eauto.
  - intros (j & x & Hx). destruct (jm_get c (subscriptions s)); [eauto|discriminate].
Qed.

Lemma record_after_subscribe c i cb s sub :
  jm_get c (subscriptions (subscribe c i cb s)) = Some sub ->
  0 < jm_size (callbacks sub).
Proof.
  intros Hget. apply (jm_get_Some_size i cb).
  pose proof (registered_subscribe c i cb c i s) as R. unfold registered in R.
  rewrite Hget in R. cbn in R. rewrite decide_True in R by auto. exact R.
Qed.

Lemma record_after_unsubscribe c i s :
  (forall sub, jm_get c (subscriptions s) = Some sub -> 0 < jm_size (callbacks sub)) ->
  forall sub, jm_get c (subscriptions (unsubscribe c i s)) = Some sub ->
              0 < jm_size (callbacks sub).
Proof.
  intros H sub' Hget. pose proof (subscriptions_unsubscribe c i s) as E.
  destruct (jm_get c (subscriptions s)) as [sub|] eqn:Hc.
  2:{ rewrite E in Hget. rewrite Hc in Hget. discriminate. }
  cbn zeta in E. rewrite E in Hget. cbn [callbacks] in Hget.
  destruct (jm_size (jm_delete i (callbacks sub)) =? 0)%nat eqn:Hsz.
  - rewrite jm_get_delete_eq in Hget. discriminate.
  - rewrite jm_get_set_eq in Hget. injection Hget as <-. cbn [callbacks].
    apply Nat.eqb_neq in Hsz. lia.
Qed.

Section Sharing.

Variable c : string.
Variable cb : string -> SubscriptionCallback.

(** Subscribers that join a collection which has its record. *)
Lemma join_all ids : forall s,
  is_Some (jm_get c (subscriptions s)) ->
  (forall sub, jm_get c (subscriptions s) = Some sub -> 0 < jm_size (callbacks sub)) ->
  let s1 := foldl (fun s i => subscribe c i (cb i) s) s ids in
  messages (out s1) = messages (out s)
  /\ isConnected s1 = isConnected s
  /\ is_Some (jm_get c (subscriptions s1))
  /\ (forall sub, jm_get c (subscriptions s1) = Some sub -> 0 < jm_size (callbacks sub))
  /\ (forall j, registered c j s1
                = if bool_decide (j ∈ ids) then Some (cb j) else registered c j s).
Proof.
  induction ids as [|i ids IH]; intros s Hrec Hne; cbn zeta.
  - cbn. repeat split; auto.
  - cbn [foldl].
    assert (Hrec' : is_Some (jm_get c (subscriptions (subscribe c i (cb i) s)))).
    { pose proof (registered_subscribe c i (cb i) c i s) as R. unfold registered in R.
      rewrite decide_True in R by auto.
      destruct (jm_get c (subscriptions (subscribe c i (cb i) s))); [eauto|discriminate]. }
    destruct (IH (subscribe c i (cb i) s) Hrec'
                 (record_after_subscribe c i (cb i) s)) as (M & K & R & N & G).
    split; [|split; [|split; [exact R|split; [exact N|]]]].
    + rewrite M, subscribe_messages. destruct Hrec as [sub ->]. apply app_nil_r.
    + rewrite K. apply isConnected_subscribe.
    + intros j. rewrite G, registered_subscribe.
      destruct (decide (j = i)) as [->|Hj].
      * rewrite decide_True by auto.
        rewrite (bool_decide_eq_true_2 (i ∈ i :: ids)) by apply list_elem_of_here.
        destruct (bool_decide (i ∈ ids)); reflexivity.
      * rewrite decide_False by tauto.
        destruct (bool_decide (j ∈ ids)) eqn:E.
        -- apply bool_decide_eq_true in E.
           rewrite bool_decide_eq_true_2; [reflexivity|].
           apply list_elem_of_further. exact E.
        -- apply bool_decide_eq_false in E.
           rewrite bool_decide_eq_false_2; [reflexivity|].
           rewrite elem_of_cons. tauto.
Qed.

(** Handles called one after the other. *)
Lemma leave_all order : forall s,
  (forall sub, jm_get c (subscriptions s) = Some sub -> 0 < jm_size (callbacks sub)) ->
  let s2 := foldl (fun s i => unsubscribe c i s) s order in
  (jm_get c (subscriptions s) = None -> s2 = s)
  /\ isConnected s2 = isConnected s
  /\ (forall sub, jm_get c (subscriptions s2) = Some sub -> 0 < jm_size (callbacks sub))
  /\ (forall j, registered c j s2
                = if bool_decide (j ∈ order) then None else registered c j s)
  /\ messages (out s2)
     = messages (out s) ++
       (if bool_decide (is_Some (jm_get c (subscriptions s)))
           && negb (bool_decide (is_Some (jm_get c (subscriptions s2))))
           && isConnected s
        then [("unsubscribe", c)] else []).
Proof.
  induction order as [|i order IH]; intros s Hne; cbn zeta.
  - cbn [foldl]. repeat split; auto.
    destruct (bool_decide (is_Some (jm_get c (subscriptions s)))); cbn;
      rewrite app_nil_r; reflexivity.
  - cbn [foldl].
    destruct (IH (unsubscribe c i s) (record_after_unsubscribe c i s Hne))
      as (Z & K & N & G & M).
    set (s' := unsubscribe c i s) in *.
    set (s2 := foldl (fun s i => unsubscribe c i s) s' order) in *.
    assert (Hid : jm_get c (subscriptions s) = None -> s' = s).
    { intros E. pose proof (subscriptions_unsubscribe c i s) as H.
      rewrite E in H. exact H. }
    split; [|split; [|split; [exact N|split]]].
    + intros E. rewrite Z; rewrite (Hid E); auto.
    + rewrite K. apply isConnected_unsubscribe.
    + intros j. rewrite G. unfold s'. rewrite registered_unsubscribe.
      destruct (decide (j = i)) as [->|Hj].
      * rewrite decide_True by auto.
        rewrite (bool_decide_eq_true_2 (i ∈ i :: order)) by apply list_elem_of_here.
        destruct (bool_decide (i ∈ order)); reflexivity.
      * rewrite decide_False by tauto.
        destruct (bool_decide (j ∈ order)) eqn:E.
        -- apply bool_decide_eq_true in E.
           rewrite bool_decide_eq_true_2; [reflexivity|].
           apply list_elem_of_further. exact E.
        -- apply bool_decide_eq_false in E.
           rewrite bool_decide_eq_false_2; [reflexivity|].
           rewrite elem_of_cons. tauto.
    + rewrite M. unfold s' at 1. rewrite unsubscribe_messages. fold s'.
      rewrite <- app_assoc. f_equal.
      replace (isConnected s') with (isConnected s)
        by (symmetry; apply isConnected_unsubscribe).
      destruct (jm_get c (subscriptions s)) as [sub|] eqn:E.
      * rewrite (bool_decide_eq_true_2 (is_Some (Some sub))) by eauto.
        destruct (jm_get c (subscriptions s')) as [sub'|] eqn:E'.
        -- rewrite (bool_decide_eq_true_2 (is_Some (Some sub'))) by eauto.
           reflexivity.
        -- rewrite (Z eq_refl), E'.
           rewrite (bool_decide_eq_false_2 (is_Some None))
             by (intros [? ?]; discriminate).
           cbn. rewrite app_nil_r. reflexivity.
      * rewrite (Hid eq_refl) in *. rewrite (Z E) , E.
        rewrite (bool_decide_eq_false_2 (is_Some None))
          by (intros [? ?]; discriminate).
        reflexivity.
Qed.

(** X25.  Any number of subscribers to a collection share one
    subscription on the server.  When [ids] subscribe to a collection
    nobody is subscribed to, one subscribe intent is sent (none without
    a connection); while the handle of one of them has not been called,
    calling the others, in any order and any number of times, sends
    nothing and leaves that one registered; once the handles of all of
    them have been called, one unsubscribe intent has been sent and the
    record is gone. *)
Theorem subscribers_share_one_server_subscription s ids order :
  jm_get c (subscriptions s) = None -> ids <> [] ->
  let s1 := foldl (fun s i => subscribe c i (cb i) s) s ids in
  let s2 := foldl (fun s i => unsubscribe c i s) s1 order in
  messages (out s1)
  = messages (out s) ++ (if isConnected s then [("subscribe", c)] else [])
  /\ (forall i, i ∈ ids -> registered c i s1 = Some (cb i))
  /\ ((exists i, i ∈ ids /\ i ∉ order) ->
      messages (out s2) = messages (out s1)
      /\ forall i, i ∈ ids -> i ∉ order -> registered c i s2 = Some (cb i))
  /\ ((forall i, i ∈ ids -> i ∈ order) ->
      messages (out s2)
      = messages (out s1) ++ (if isConnected s then [("unsubscribe", c)] else [])
      /\ jm_get c (subscriptions s2) = None).
Proof.
  intros Hnone Hids. destruct ids as [|i0 ids]; [congruence|clear Hids].
  cbn zeta. cbn [foldl].
  assert (Hrec : is_Some (jm_get c (subscriptions (subscribe c i0 (cb i0) s)))).
  { pose proof (registered_subscribe c i0 (cb i0) c i0 s) as R. unfold registered in R.
    rewrite decide_True in R by auto.
    destruct (jm_get c (subscriptions (subscribe c i0 (cb i0) s))); [eauto|discriminate]. }
  destruct (join_all ids (subscribe c i0 (cb i0) s) Hrec
              (record_after_subscribe c i0 (cb i0) s)) as (M1 & K1 & R1 & N1 & G1).
  set (s1 := foldl (fun s i => subscribe c i (cb i) s) (subscribe c i0 (cb i0) s) ids) in *.
  destruct (leave_all order s1 N1) as (_ & K2 & N2 & G2 & M2).
  set (s2 := foldl (fun s i => unsubscribe c i s) s1 order) in *.
  assert (Hreg : forall j, registered c j s1
                           = if bool_decide (j ∈ i0 :: ids) then Some (cb j) else None).
  { intros j. rewrite G1, registered_subscribe.
    assert (E0 : registered c j s = None) by (unfold registered; rewrite Hnone; reflexivity).
    rewrite E0.
    destruct (decide (j = i0)) as [->|Hj].
    - rewrite decide_True by auto.
      rewrite (bool_decide_eq_true_2 (i0 ∈ i0 :: ids)) by apply list_elem_of_here.
      destruct (bool_decide (i0 ∈ ids)); reflexivity.
    - rewrite decide_False by tauto.
      destruct (bool_decide (j ∈ ids)) eqn:E.
      + apply bool_decide_eq_true in E.
        rewrite bool_decide_eq_true_2; [reflexivity|].
        apply list_elem_of_further. exact E.
      + apply bool_decide_eq_false in E.
        rewrite bool_decide_eq_false_2; [reflexivity|].
        rewrite elem_of_cons. tauto. }
  assert (Hconn : isConnected s1 = isConnected s)
    by (rewrite K1; apply isConnected_subscribe).
  rewrite (bool_decide_eq_true_2 _ R1), Hconn in M2. cbn [andb] in M2.
  split; [|split; [|split]].
  - rewrite M1, subscribe_messages, Hnone. reflexivity.
  - intros i Hi. rewrite Hreg, bool_decide_eq_true_2 by exact Hi. reflexivity.
  - intros (i & Hi & Hout).
    assert (Hi2 : registered c i s2 = Some (cb i)).
    { rewrite G2, bool_decide_eq_false_2 by exact Hout.
      rewrite Hreg, bool_decide_eq_true_2 by exact Hi. reflexivity. }
    assert (R2 : is_Some (jm_get c (subscriptions s2))).
    { apply (record_iff_registered c s2 N2). exists i. rewrite Hi2. eauto. }
    rewrite (bool_decide_eq_true_2 _ R2) in M2. cbn in M2. rewrite app_nil_r in M2.
    split; [exact M2|].
    intros j Hj Hjout. rewrite G2, bool_decide_eq_false_2 by exact Hjout.
    rewrite Hreg, bool_decide_eq_true_2 by exact Hj. reflexivity.
  - intros Hall.
    assert (R2 : ~ is_Some (jm_get c (subscriptions s2))).
    { intros R2. apply (record_iff_registered c s2 N2) in R2 as (j & x & Hx).
      rewrite G2 in Hx. destruct (bool_decide (j ∈ order)) eqn:E; [discriminate|].
      apply bool_decide_eq_false in E. rewrite Hreg in Hx.
      destruct (bool_decide (j ∈ i0 :: ids)) eqn:E2; [|discriminate].
      apply bool_decide_eq_true in E2. auto. }
    rewrite (bool_decide_eq_false_2 _ R2) in M2. cbn in M2.
    split; [exact M2|].
    destruct (jm_get c (subscriptions s2)); [exfalso; apply R2; eauto|reflexivity].
Qed.

End Sharing.

End SharingFacts.

(** * The additional properties on concrete runs *)

Module MoreRuns.
Import Scenario MoreScenario.

Lemma cancelled_request_fails_with_timeout_witness :
  (exec slow_server (Client.request jwt_config "GET" "/items" no_options)
        signed_in).1
  = inl (BaasixError "Request timeout" 408 (Some "TIMEOUT") None).
Proof.
  apply (cancelled_request_fails_with_timeout slow_server jwt_config
           "GET" "/items" no_options signed_in).
  vm_compute. discriminate.
Defined.

Lemma request_without_refresh_is_a_single_call_witness :
  calls (exec always_401 (Client.request jwt_config "POST" "/auth/login" public)
              signed_in).2 = 1%nat.
Proof.
  apply (request_without_refresh_is_a_single_call always_401 jwt_config
           "POST" "/auth/login" public signed_in).
  left. reflexivity.
Defined.

Lemma successful_refresh_replaces_only_what_it_received_witness :
  store (exec hour_long_tokens (Client.refreshToken jwt_config) signed_in).2
    !! Storage.REFRESH_TOKEN = Some "refresh-1".
Proof.
  pose proof (successful_refresh_replaces_only_what_it_received
                hour_long_tokens jwt_config signed_in hour_long) as H.
  destruct H as (_ & H & _); [vm_compute; reflexivity|].
  rewrite H. vm_compute. reflexivity.
Defined.

Lemma refreshed_token_is_fresh_until_a_minute_before_expiry_witness :
  (exec hour_long_tokens (Client.buildHeaders jwt_config false)
        (exec hour_long_tokens (Client.refreshToken jwt_config) signed_in).2).2
  = (exec hour_long_tokens (Client.refreshToken jwt_config) signed_in).2.
Proof.
  pose proof (refreshed_token_is_fresh_until_a_minute_before_expiry
                hour_long_tokens jwt_config signed_in hour_long 3600%Z) as H.
  destruct H as (_ & H & _);
    [vm_compute; reflexivity|reflexivity|lia|vm_compute; lia
    |vm_compute; split; reflexivity..|].
  apply H. lia.
Defined.

Lemma stored_session_is_authenticated_until_expiry_witness :
  (exec always_401
        (AuthModule.isAuthenticated string always_truthy parse_text jwt_config None)
        (set_now 6000000
           (exec always_401
                 (AuthModule.storeTokens string always_truthy stringify_text
                    jwt_config signed_in_response) signed_in).2)).1
  = inr (true, None).
Proof.
  pose proof (stored_session_is_authenticated_until_expiry always_401 string
                always_truthy stringify_text parse_text jwt_config
                signed_in_response "token-9" 3600%Z None signed_in) as H.
  destruct (H eq_refl eq_refl ltac:(discriminate) eq_refl ltac:(lia)
              ltac:(vm_compute; split; reflexivity)
              ltac:(vm_compute; split; reflexivity)
              ltac:(vm_compute; split; reflexivity) 6000000%Z)
    as [-> _].
  vm_compute. reflexivity.
Defined.

Lemma a_trailing_slash_on_the_url_changes_nothing_witness :
  Baasix.constructor (Baasix.with_url "https://api.example.com/" sdk_config)
  = Baasix.constructor (Baasix.with_url "https://api.example.com" sdk_config).
Proof.
  apply (a_trailing_slash_on_the_url_changes_nothing sdk_config
           "https://api.example.com"); [discriminate|reflexivity].
Defined.

Lemma configure_never_undoes_the_construction_witness :
  timeout (Baasix.httpClient
             (foldl (fun b p => Baasix.configure p b) sdk [switch_off; switch_off]))
  <> 0%Z.
Proof.
  apply (configure_never_undoes_the_construction sdk_config sdk
           [switch_off; switch_off]).
  reflexivity.
Defined.

Lemma the_tenant_header_follows_setTenant_and_clearTenant_witness :
  (exec always_401 Baasix.getTenant
        (exec always_401 (Baasix.setTenant "tenant-2" sdk).2 signed_in).2).1
  = inr (Some "tenant-2").
Proof.
  apply (the_tenant_header_follows_setTenant_and_clearTenant always_401 sdk
           "tenant-2" false signed_in signed_in).
  discriminate.
Defined.

Lemma channel_unsubscribe_releases_the_last_subscription_witness :
  Realtime.registered "products" "id-1"
    (RealtimeChannel.unsubscribe
       (RealtimeChannel.subscribe "id-2"
          (RealtimeChannel.subscribe "id-1" (RealtimeChannel.channel "products")
             online).1
          (RealtimeChannel.subscribe "id-1" (RealtimeChannel.channel "products")
             online).2).1
       (RealtimeChannel.subscribe "id-2"
          (RealtimeChannel.subscribe "id-1" (RealtimeChannel.channel "products")
             online).1
          (RealtimeChannel.subscribe "id-1" (RealtimeChannel.channel "products")
             online).2).2).2
  = Some RealtimeChannel.subscriber.
Proof.
  apply (ChannelFacts.channel_unsubscribe_releases_the_last_subscription
           (RealtimeChannel.channel "products") online "id-1" "id-2"
           product_created).
  discriminate.
Defined.

Lemma subscribers_share_one_server_subscription_witness :
  Realtime.messages
    (Realtime.out
       (foldl (fun s i => Realtime.unsubscribe "products" i s)
          (foldl (fun s i => Realtime.subscribe "products" i (quiet i) s)
             online ["id-1"; "id-2"])
          ["id-2"; "id-1"; "id-2"]))
  = [("subscribe", "products"); ("unsubscribe", "products")].
Proof.
  destruct (SharingFacts.subscribers_share_one_server_subscription
              "products" quiet online ["id-1"; "id-2"] ["id-2"; "id-1"; "id-2"])
    as (M1 & _ & _ & H); [reflexivity|discriminate|].
  destruct H as [M2 _].
  { intros i Hi. rewrite !elem_of_cons in *. tauto. }
  rewrite M2, M1. reflexivity.
Defined.


End MoreRuns.
